(** * csv-translator: the batch translation pipeline

    A shallow embedding of the translation route
    ([src/app/api/translate/route.ts]) and of the Azure client
    ([src/lib/azure.ts]), with the properties of the pipeline proved over it.

    Conventions of the embedding.
    - A JavaScript string is the list of its UTF-16 code units ([JsString]),
      so that [length], [trim] and [includes] are the ones of the language.
    - A JavaScript number that the code only uses as an integer (row counts,
      indices, batch sizes, HTTP status codes, milliseconds) is a [Z].
    - What comes out of [response.json()] is untyped: a JSON value
      ([Json]), read property by property the way the language reads it,
      with the [TypeError] of a read on [null] or [undefined]. A cell of
      the output is such a value too ([Value]): the route hands on
      whatever the [text] property of a translation holds.
    - Effects (events pushed to the SSE stream, network calls, timers) are
      recorded in a trace, newest first; exceptions are a result of the
      computation, and so is a computation that never ends ([Diverge]):
      running out of fuel in the one loop whose termination depends on
      the request, or awaiting a promise that never settles.
    - The network is a parameter: what [fetch] answers, given the request
      and everything that happened before. The theorems hold for every
      network.
    - The stream stays open while the handler runs, so that
      [controller.enqueue] does not throw; [csv-parse] and [stringify] are
      external: a file comes with the records read from it, or with the
      error the parser raises on it, and the [complete] frame carries the
      matrix handed to the serialiser.
      The per-address rate limiter of [POST] runs before the stream
      exists: [Route.POST] is the [start] callback of the stream, and
      [Ingress.POST] puts the rate limiter in front of it. Console output
      is not modelled. *)

From Stdlib Require Import ZArith List Lia Bool String Ascii NArith.
From Stdlib Require Import DecimalString.
Import ListNotations.
Local Open Scope Z_scope.

(* ===================================================================== *)
(** ** JavaScript values *)
(* ===================================================================== *)

Module Js.

(** Strings as sequences of UTF-16 code units. *)
Definition JsString := list N.

(** A literal of the source, written in ASCII. *)
Definition lit (s : string) : JsString :=
  List.map N_of_ascii (list_ascii_of_string s).

(** [s.length]. *)
Definition len {A} (l : list A) : Z := Z.of_nat (List.length l).

(** [a === b] on strings. *)
Fixpoint str_eqb (a b : JsString) : bool :=
  match a, b with
  | [], [] => true
  | x :: a', y :: b' => N.eqb x y && str_eqb a' b'
  | _, _ => false
  end.

(** Truthiness of a string: every string but the empty one. *)
Definition truthy (s : JsString) : bool :=
  match s with [] => false | _ :: _ => true end.

(** WhiteSpace and LineTerminator code points of ECMAScript, the ones
    [String.prototype.trim] strips. All lie in the basic plane. *)
Definition isWhiteSpace (c : N) : bool :=
  (N.eqb c 9 || N.eqb c 10 || N.eqb c 11 || N.eqb c 12 || N.eqb c 13
   || N.eqb c 32 || N.eqb c 160 || N.eqb c 5760
   || (N.leb 8192 c && N.leb c 8202)
   || N.eqb c 8232 || N.eqb c 8233 || N.eqb c 8239 || N.eqb c 8287
   || N.eqb c 12288 || N.eqb c 65279)%N%bool.

Fixpoint trimStart (s : JsString) : JsString :=
  match s with
  | [] => []
  | c :: r => if isWhiteSpace c then trimStart r else s
  end.

Definition trimEnd (s : JsString) : JsString := rev (trimStart (rev s)).

(** [s.trim()]. *)
Definition trim (s : JsString) : JsString := trimEnd (trimStart s).

Fixpoint startsWith (p s : JsString) : bool :=
  match p, s with
  | [], _ => true
  | x :: p', y :: s' => N.eqb x y && startsWith p' s'
  | _ :: _, [] => false
  end.

(** [s.includes(p)]. *)
Fixpoint includes (s p : JsString) : bool :=
  startsWith p s ||
  match s with
  | [] => false
  | _ :: s' => includes s' p
  end.

(** Rendering of an integer inside a template literal. *)
Definition numToString (z : Z) : JsString :=
  lit (NilZero.string_of_int (Z.to_int z)).

(** [a || b] on strings: the first operand unless it is falsy. *)
Definition str_or (a b : JsString) : JsString := if truthy a then a else b.

(** [a || b] where [a] may be undefined. *)
Definition opt_str_or (a : option JsString) (b : JsString) : JsString :=
  match a with
  | Some s => str_or s b
  | None => b
  end.

(** [n || d] on a number that may be missing: [undefined] and [0] are
    falsy. *)
Definition num_or (n : option Z) (d : Z) : Z :=
  match n with
  | Some v => if v =? 0 then d else v
  | None => d
  end.

(** [arr.slice(start, end)] with the relative-index rules of
    [Array.prototype.slice]: a negative bound counts from the end, and
    both bounds are clamped into [0, length]. *)
Definition relIndex (n k : Z) : Z :=
  if k <? 0 then Z.max (n + k) 0 else Z.min k n.

Definition slice {A} (arr : list A) (start stop : Z) : list A :=
  let n := len arr in
  let k := relIndex n start in
  let final := relIndex n stop in
  firstn (Z.to_nat (Z.max (final - k) 0)) (skipn (Z.to_nat k) arr).

(** [Math.ceil(n / b)] for integers; exact for [b <> 0]. For [b = 0]
    JavaScript yields [Infinity] or [NaN] and the embedding [0]: the
    value is then only ever printed. *)
Definition ceilDiv (n b : Z) : Z := - ((- n) / b).

(** [arr.join(sep)] on an array of numbers. *)
Fixpoint joinNums (sep : JsString) (l : list Z) : JsString :=
  match l with
  | [] => []
  | [x] => numToString x
  | x :: r => numToString x ++ sep ++ joinNums sep r
  end.

(** *** Values read from JSON *)

(** A number of a JSON text, as far as the code observes one: whether
    it is zero (the only falsy numbers a JSON text denotes, and the
    only ones that are [=== 0]) and how it prints. *)
Record Number := mkNumber {
  isZero : bool;
  shown : JsString
}.

(** What [JSON.parse] returns. An object is given by the members of
    its text, in their order; as with [JSON.parse], of several members
    with the same key the last one is the property. *)
#[warnings="-register-all"]
Inductive Json :=
| JNull
| JBool (b : bool)
| JNum (n : Number)
| JStr (s : JsString)
| JArr (items : list Json)
| JObj (fields : list (JsString * Json)).

(** What a variable holds: a value of the above, or [undefined]
    ([None]). *)
Definition Value := option Json.

(** A string as a value, and a row of strings as a row of values. *)
Definition str (s : JsString) : Value := Some (JStr s).

Definition plain (row : list JsString) : list Value := List.map str row.

(** An integer as a number value, the [length] of an array or string. *)
Definition numberOf (z : Z) : Json := JNum (mkNumber (z =? 0) (numToString z)).

(** Truthiness: [undefined], [null], [false], zero and the empty
    string are falsy. *)
Definition truthyValue (v : Value) : bool :=
  match v with
  | None | Some JNull => false
  | Some (JBool b) => b
  | Some (JNum n) => negb (isZero n)
  | Some (JStr s) => truthy s
  | Some (JArr _) | Some (JObj _) => true
  end.

(** [v === 0]. *)
Definition isNumberZero (v : Value) : bool :=
  match v with
  | Some (JNum n) => isZero n
  | _ => false
  end.

(** [v === null || v === undefined], the test of [?.]. *)
Definition isNullish (v : Value) : bool :=
  match v with
  | None | Some JNull => true
  | _ => false
  end.

(** The own property of an object under a key. *)
Fixpoint lookup (key : JsString) (fields : list (JsString * Json)) : Value :=
  match fields with
  | [] => None
  | (k, v) :: rest =>
      match lookup key rest with
      | Some later => Some later
      | None => if str_eqb k key then Some v else None
      end
  end.

(** The property names the Azure client reads off a body. None of
    them is a property of [Object.prototype], [Array.prototype],
    [String.prototype], [Number.prototype] or [Boolean.prototype], so
    that a read finds an own property or [undefined]; [length] and the
    index [0] are own properties of arrays and strings. *)
Inductive Key :=
| kError | kMessage | kCode
| kTranslations | kText | kDetectedLanguage | kLanguage | kScore
| kLength | kFirst.

Definition keyName (key : Key) : JsString :=
  match key with
  | kError => lit "error"
  | kMessage => lit "message"
  | kCode => lit "code"
  | kTranslations => lit "translations"
  | kText => lit "text"
  | kDetectedLanguage => lit "detectedLanguage"
  | kLanguage => lit "language"
  | kScore => lit "score"
  | kLength => lit "length"
  | kFirst => lit "0"
  end.

(** [v.key] (or [v[0]]) on a value that is neither [null] nor
    [undefined]. *)
Definition property (v : Json) (key : Key) : Value :=
  match v with
  | JNull | JBool _ | JNum _ => None
  | JStr s =>
      match key with
      | kLength => Some (numberOf (len s))
      | kFirst => match s with
                  | [] => None
                  | c :: _ => Some (JStr [c])
                  end
      | _ => None
      end
  | JArr items =>
      match key with
      | kLength => Some (numberOf (len items))
      | kFirst => hd_error items
      | _ => None
      end
  | JObj fields => lookup (keyName key) fields
  end.

(** [v?.key]. *)
Definition optionalProperty (v : Value) (key : Key) : Value :=
  match v with
  | None | Some JNull => None
  | Some j => property j key
  end.

(** A string [encodeURIComponent] accepts: one without a lone
    surrogate. *)
Definition isHighSurrogate (c : N) : bool := (N.leb 55296 c && N.leb c 56319)%bool.
Definition isLowSurrogate (c : N) : bool := (N.leb 56320 c && N.leb c 57343)%bool.

Fixpoint encodable (s : JsString) : bool :=
  match s with
  | [] => true
  | c :: r =>
      if isHighSurrogate c then
        match r with
        | d :: r' => isLowSurrogate d && encodable r'
        | [] => false
        end
      else if isLowSurrogate c then false
      else encodable r
  end.

End Js.
Import Js.

(* ===================================================================== *)
(** ** [AzureTranslator.createBatches] (src/lib/azure.ts) *)
(* ===================================================================== *)

Module CreateBatches.

(** Total number of code units of a batch. *)
Definition totalChars (batch : list JsString) : Z :=
  fold_right (fun t acc => len t + acc) 0 batch.

(** The state of the [for (const text of texts)] loop: the batches
    closed so far, the open batch and its running character count. *)
Record LoopState := mkLoop {
  batches : list (list JsString);
  currentBatch : list JsString;
  currentCharacterCount : Z
}.

(** Closing the open batch when it has content: the block guarded by
    [currentBatch.length > 0] that both branches of the loop share. *)
Definition flush (st : LoopState) : LoopState :=
  if 0 <? len (currentBatch st)
  then mkLoop (batches st ++ [currentBatch st]) [] 0
  else st.

(** One iteration of the loop body. *)
Definition step (batchCharacterLimit : Z) (st : LoopState) (text : JsString)
  : LoopState :=
  let textLength := len text in
  if batchCharacterLimit <? textLength then
    (* a single text over the limit goes in its own batch *)
    let st1 := flush st in
    mkLoop (batches st1 ++ [[text]]) (currentBatch st1)
           (currentCharacterCount st1)
  else
    let st1 :=
      if (batchCharacterLimit <? currentCharacterCount st + textLength)
         && (0 <? len (currentBatch st))
      then mkLoop (batches st ++ [currentBatch st]) [] 0
      else st in
    mkLoop (batches st1) (currentBatch st1 ++ [text])
           (currentCharacterCount st1 + textLength).

Definition loop (batchCharacterLimit : Z) (texts : list JsString)
  (st : LoopState) : LoopState :=
  fold_left (step batchCharacterLimit) texts st.

(** [createBatches(texts)], for a translator configured with
    [batchCharacterLimit]. *)
Definition createBatches (batchCharacterLimit : Z) (texts : list JsString)
  : list (list JsString) :=
  batches (flush (loop batchCharacterLimit texts (mkLoop [] [] 0))).

(** A closed batch is never empty, and it is either a single text or
    within the limit. *)
Definition goodBatch (limit : Z) (batch : list JsString) : Prop :=
  batch <> [] /\ ((exists t, batch = [t]) \/ totalChars batch <= limit).

(** The invariant of the loop: the open batch is within the limit, its
    count is up to date, and the closed batches are good. *)
Definition loopInv (limit : Z) (st : LoopState) : Prop :=
  currentCharacterCount st = totalChars (currentBatch st)
  /\ (currentBatch st = [] \/ totalChars (currentBatch st) <= limit)
  /\ Forall (goodBatch limit) (batches st).

End CreateBatches.

(* ===================================================================== *)
(** ** Effects: the trace, exceptions and the monad of the embedding *)
(* ===================================================================== *)

Module Eff.

(** [TranslationProgress] of route.ts, the payload of one SSE frame.
    [data] carries the CSV produced by the external serialiser; the
    embedding keeps the row matrix handed to [stringify] instead of its
    text. *)
Inductive EventType := progress | error | complete | data.

Record TranslationProgress := mkEvent {
  ev_type : EventType;
  ev_totalRows : option Z;
  ev_processedRows : option Z;
  ev_currentBatch : option Z;
  ev_totalBatches : option Z;
  ev_message : option JsString;
  ev_data : option (list (list Value));
  ev_error : option JsString
}.

(** A thrown value. Every value thrown in the two files is an [Error];
    [isAzure] is [instanceof AzureTranslatorError], which the subclasses
    ([RateLimitError], [AuthenticationError], [QuotaExceededError],
    [NetworkError]) inherit and tell apart by [name]. *)
Record JsError := mkError {
  name : JsString;
  msg : JsString;
  isAzure : bool;
  statusCode : option Z;
  errorCode : Value
}.

(** The request sent by [fetch]: the endpoint is determined by the
    target and source languages, the body by the texts. *)
Record FetchRequest := mkRequest {
  req_to : JsString;
  req_from : option JsString;
  req_texts : list JsString
}.

Inductive Effect :=
| Sent (ev : TranslationProgress)      (* controller.enqueue(frame) *)
| Closed                               (* controller.close() *)
| Invoked (text to from : JsString)    (* azureTranslator.translateText(...) entered *)
| Fetched (req : FetchRequest)         (* fetch(url, ...) issued *)
| Slept (ms : Z).                      (* a timer awaited *)

(** The world is the trace of effects so far, newest first. *)
Definition World := list Effect.

Inductive Res (A : Type) :=
| Ok (a : A)
| Throw (e : JsError)
| Diverge.
Arguments Ok {A} a.
Arguments Throw {A} e.
Arguments Diverge {A}.

Definition M (A : Type) := World -> Res A * World.

Definition ret {A} (a : A) : M A := fun w => (Ok a, w).

Definition bind {A B} (m : M A) (k : A -> M B) : M B :=
  fun w =>
    match m w with
    | (Ok a, w') => k a w'
    | (Throw e, w') => (Throw e, w')
    | (Diverge, w') => (Diverge, w')
    end.

Definition throw {A} (e : JsError) : M A := fun w => (Throw e, w).

Definition diverge {A} : M A := fun w => (Diverge, w).

(** [try { m } catch (error) { handler error }]. *)
Definition tryCatch {A} (m : M A) (handler : JsError -> M A) : M A :=
  fun w =>
    match m w with
    | (Throw e, w') => handler e w'
    | r => r
    end.

Definition emit (e : Effect) : M unit := fun w => (Ok tt, e :: w).

(** [await new Promise(resolve => setTimeout(resolve, ms))]. *)
Definition sleep (ms : Z) : M unit := emit (Slept ms).

(** The events a client has received, oldest first. *)
Fixpoint sentNewestFirst (w : World) : list TranslationProgress :=
  match w with
  | [] => []
  | Sent ev :: w' => ev :: sentNewestFirst w'
  | _ :: w' => sentNewestFirst w'
  end.

Definition events (w : World) : list TranslationProgress :=
  rev (sentNewestFirst w).

Definition isInvoked (e : Effect) : bool :=
  match e with Invoked _ _ _ => true | _ => false end.

Definition isFetched (e : Effect) : bool :=
  match e with Fetched _ => true | _ => false end.

(** Number of translator invocations, and of network calls, so far. *)
Definition invocations (w : World) : nat := List.length (filter isInvoked w).
Definition fetches (w : World) : nat := List.length (filter isFetched w).

Definition isTerminal (ev : TranslationProgress) : bool :=
  match ev_type ev with
  | complete | error => true
  | _ => false
  end.

Definition isProgress (ev : TranslationProgress) : bool :=
  match ev_type ev with
  | progress => true
  | _ => false
  end.

(** *** Reads that may throw *)

(** An expression that only reads values: it yields a value or throws,
    and leaves the world alone. *)
Definition Read (A : Type) : Type := (JsError + A)%type.

Definition andThen {A B} (m : Read A) (k : A -> Read B) : Read B :=
  match m with
  | inl e => inl e
  | inr a => k a
  end.

(** A read as a step of a computation. *)
Definition lift {A} (m : Read A) : M A :=
  match m with
  | inl e => throw e
  | inr a => ret a
  end.

(** The [TypeError] and [URIError] of the engine, with the messages of
    V8. *)
Definition typeError (message : JsString) : JsError :=
  mkError (lit "TypeError") message false None None.

Definition cannotRead (what : JsString) (key : Key) : JsError :=
  typeError (lit "Cannot read properties of " ++ what ++ lit " (reading '"
               ++ keyName key ++ lit "')").

Definition cannotConvert : JsError :=
  typeError (lit "Cannot convert object to primitive value").

Definition uriMalformed : JsError :=
  mkError (lit "URIError") (lit "URI malformed") false None None.

(** [v.key]: a [TypeError] on [null] and [undefined]. *)
Definition read (v : Value) (key : Key) : Read Value :=
  match v with
  | None => inl (cannotRead (lit "undefined") key)
  | Some JNull => inl (cannotRead (lit "null") key)
  | Some j => inr (property j key)
  end.

(** The string a value turns into inside a template literal. An array
    joins its elements with commas, [null] elements as the empty
    string; an object prints as [[object Object]] unless it has a
    property [toString] of its own, which JSON cannot make callable and
    which leaves the conversion without a result. *)
Fixpoint toStr (v : Json) : Read JsString :=
  match v with
  | JNull => inr (lit "null")
  | JBool true => inr (lit "true")
  | JBool false => inr (lit "false")
  | JNum n => inr (shown n)
  | JStr s => inr s
  | JArr items =>
      (fix join (l : list Json) : Read JsString :=
         match l with
         | [] => inr []
         | x :: rest =>
             match (match x with
                    | JNull => inr []
                    | _ => toStr x
                    end) with
             | inl e => inl e
             | inr first =>
                 match rest with
                 | [] => inr first
                 | _ :: _ =>
                     match join rest with
                     | inl e => inl e
                     | inr others => inr (first ++ lit "," ++ others)
                     end
                 end
             end
         end) items
  | JObj fields =>
      match lookup (lit "toString") fields with
      | Some _ => inl cannotConvert
      | None => inr (lit "[object Object]")
      end
  end.

Definition toStrValue (v : Value) : Read JsString :=
  match v with
  | Some j => toStr j
  | None => inr (lit "undefined")
  end.

(** [encodeURIComponent(s)], as far as it matters: whether it throws. *)
Definition encodeURIComponent (s : JsString) : M unit :=
  if encodable s then ret tt else throw uriMalformed.

End Eff.
Import Eff.

Declare Scope js_scope.
Delimit Scope js_scope with js.
Notation "x <- m ;; k" := (bind m (fun x => k))
  (at level 61, m at next level, right associativity) : js_scope.
Notation "m ;; k" := (bind m (fun _ => k))
  (at level 61, right associativity) : js_scope.
Notation "x <~ m ;; k" := (andThen m (fun x => k))
  (at level 61, m at next level, right associativity) : js_scope.
Local Open Scope js_scope.

(* ===================================================================== *)
(** ** The Azure client (src/lib/azure.ts) *)
(* ===================================================================== *)

Module Azure.

(** The numeric part of [AzureTranslatorConfig]; the key, region and
    endpoint only travel in the request headers. *)
Record AzureTranslatorConfig := mkConfig {
  maxRetries : Z;
  initialRetryDelay : Z;
  maxRetryDelay : Z;
  batchCharacterLimit : Z;
  requestTimeout : Z
}.

(** The defaults of the constructor, the configuration of
    [new AzureTranslator()]. *)
Definition defaultConfig : AzureTranslatorConfig :=
  mkConfig 5 2000 60000 50000 45000.

(** *** Error classes *)

Definition AzureTranslatorError (message : JsString) (status : option Z)
  (code : JsString) : JsError :=
  mkError (lit "AzureTranslatorError") message true status (str code).

(** [retryAfter] only lands in [details], which nothing reads. *)
Definition RateLimitError (retryAfter : option Z) : JsError :=
  mkError (lit "RateLimitError") (lit "Rate limit exceeded") true
          (Some 429) (str (lit "RATE_LIMIT_EXCEEDED")).

Definition AuthenticationError : JsError :=
  mkError (lit "AuthenticationError")
          (lit "Authentication failed - invalid API key or region") true
          (Some 401) (str (lit "AUTHENTICATION_FAILED")).

Definition QuotaExceededError : JsError :=
  mkError (lit "QuotaExceededError") (lit "Translation quota exceeded") true
          (Some 403) (str (lit "QUOTA_EXCEEDED")).

Definition NetworkError (message : JsString) : JsError :=
  mkError (lit "NetworkError") message true None (str (lit "NETWORK_ERROR")).

(** *** What the network answers *)

(** A [Response]: its status, the two headers the client reads, and
    what the two ways of reading its body give, the value of
    [await response.json()] and the string of [await response.text()],
    each of which may reject. *)
Record Response := mkResponse {
  status : Z;
  contentType : option JsString;
  retryAfterSeconds : option Z;     (* parseInt of the retry-after header *)
  jsonBody : Read Json;
  textBody : Read JsString
}.

Definition ok (r : Response) : bool := (200 <=? status r) && (status r <=? 299).

Inductive FetchOutcome :=
| Rejects (e : JsError)          (* TypeError of a failed fetch, AbortError of the timeout *)
| Responds (r : Response).

(** The network: what [fetch] answers to a request, given everything
    that happened before it. *)
Definition Network := World -> FetchRequest -> FetchOutcome.

(** The result of [translateText]. Each field holds what the body
    had under the property read, whatever that is. *)
Record Translation := mkTranslation {
  translatedText : Value;
  detectedLanguage : Value;
  confidence : Value
}.

Section Client.

Variable net : Network.
Variable config : AzureTranslatorConfig.

(** [calculateBackoffDelay(attempt)]. *)
Definition calculateBackoffDelay (attempt : Z) : Z :=
  Z.min (initialRetryDelay config * 2 ^ attempt) (maxRetryDelay config).

(** [isRetryableError(error)] on a thrown [Error]: the [Response]
    branch never applies, a response is not thrown. *)
Definition isRetryableError (e : JsError) : bool :=
  str_eqb (name e) (lit "TypeError") || includes (msg e) (lit "fetch").

(** The [try] block that fills [errorDetails]: the body as JSON when
    the content type says so, the body as text under [message]
    otherwise, and a fixed message when the reading rejects. *)
Definition readErrorDetails (r : Response) : Json :=
  let unknown := JObj [(lit "message", JStr (lit "Unknown error occurred"))] in
  let isJson :=
    match contentType r with
    | Some ct => includes ct (lit "application/json")
    | None => false
    end in
  if isJson then
    match jsonBody r with
    | inr body => body
    | inl _ => unknown
    end
  else
    match textBody r with
    | inr t => JObj [(lit "message", JStr t)]
    | inl _ => unknown
    end.

(** [`${errorDetails.error?.message || errorDetails.message || fallback}`]. *)
Definition detailsMessage (errorDetails : Json) (fallback : JsString)
  : Read JsString :=
  error <~ read (Some errorDetails) kError ;;
  let nested := optionalProperty error kMessage in
  chosen <~ (if truthyValue nested then inr nested
             else
               own <~ read (Some errorDetails) kMessage ;;
               inr (if truthyValue own then own else str fallback)) ;;
  toStrValue chosen.

(** [errorDetails.error?.code || 'UNKNOWN_ERROR']. *)
Definition detailsCode (errorDetails : Json) : Read Value :=
  error <~ read (Some errorDetails) kError ;;
  let code := optionalProperty error kCode in
  inr (if truthyValue code then code else str (lit "UNKNOWN_ERROR")).

(** [parseErrorResponse(response)]: always throws, and this is what
    it throws. The two branches that read [errorDetails] throw the
    [TypeError] of the read when the body is [null]. *)
Definition parseErrorResponse (r : Response) : JsError :=
  let errorDetails := readErrorDetails r in
  match status r with
  | 401 => AuthenticationError
  | 403 => QuotaExceededError
  | 429 => RateLimitError (option_map (fun s => s * 1000) (retryAfterSeconds r))
  | 400 =>
      match detailsMessage errorDetails (lit "Invalid request") with
      | inl e => e
      | inr m =>
          AzureTranslatorError (lit "Bad request: " ++ m) (Some 400)
                               (lit "BAD_REQUEST")
      end
  | 404 =>
      AzureTranslatorError (lit "Translation service not found") (Some 404)
                           (lit "NOT_FOUND")
  | s =>
      match detailsMessage errorDetails (lit "Unknown error") with
      | inl e => e
      | inr m =>
          match detailsCode errorDetails with
          | inl e => e
          | inr code =>
              mkError (lit "AzureTranslatorError")
                      (lit "Azure Translator API error: " ++ m) true (Some s) code
          end
      end
  end.

(** [fetch(url, ...)]: the request is recorded, the network answers. *)
Definition fetch (req : FetchRequest) : M Response :=
  fun w =>
    match net w req with
    | Rejects e => (Throw e, Fetched req :: w)
    | Responds r => (Ok r, Fetched req :: w)
    end.

(** [makeRequest(endpoint, body, attempt)]. The recursion is on
    [retriesLeft], the number of retries the test
    [attempt < maxRetries] still allows; [makeRequest] below starts it
    at [maxRetries]. *)
Fixpoint makeRequestFrom (retriesLeft : nat) (req : FetchRequest)
  (attempt : Z) : M Response :=
  tryCatch
    (response <- fetch req ;;
     if negb (ok response)
     then throw (parseErrorResponse response)
     else ret response)
    (fun error =>
       if str_eqb (name error) (lit "AbortError")
       then throw (NetworkError (lit "Request timeout"))
       else if isRetryableError error && (attempt <? maxRetries config)
       then
         match retriesLeft with
         | O => diverge
         | S k =>
             sleep (calculateBackoffDelay attempt) ;;
             makeRequestFrom k req (attempt + 1)
         end
       else if isAzure error
       then throw error
       else throw (NetworkError (lit "Request failed: " ++ msg error))).

Definition makeRequest (req : FetchRequest) : M Response :=
  makeRequestFrom (Z.to_nat (maxRetries config)) req 0.

(** [await response.json()]. *)
Definition responseJson (r : Response) : M Json := lift (jsonBody r).

Definition invalidResponse : JsError :=
  AzureTranslatorError (lit "Invalid response from translation API")
                       (Some 500) (lit "INVALID_RESPONSE").

(** [!data || !Array.isArray(data) || data.length === 0 ||
     !data[0].translations?.length]: the first three tests pass on an
    array with an element and on nothing else; the fourth reads the
    element. *)
Definition invalidData (data : Json) : Read bool :=
  match data with
  | JArr (_ :: _) =>
      first <~ read (Some data) kFirst ;;
      translations <~ read first kTranslations ;;
      inr (negb (truthyValue (optionalProperty translations kLength)))
  | _ => inr true
  end.

(** What [translateText] makes of the body of a successful answer:
    the guard, then the object it returns. *)
Definition readTranslation (data : Json) : Read Translation :=
  invalid <~ invalidData data ;;
  if invalid then inl invalidResponse
  else
    result <~ read (Some data) kFirst ;;
    translations <~ read result kTranslations ;;
    entry <~ read translations kFirst ;;
    text <~ read entry kText ;;
    detected <~ read result kDetectedLanguage ;;
    inr (mkTranslation text
                       (optionalProperty detected kLanguage)
                       (optionalProperty detected kScore)).

(** The part of the endpoint that names the languages:
    [encodeURIComponent] of the target, then of the source when there
    is one. *)
Definition encodeLanguages (targetLanguage sourceLanguage : JsString) : M unit :=
  encodeURIComponent targetLanguage ;;
  if truthy sourceLanguage then encodeURIComponent sourceLanguage else ret tt.

(** [translateText(text, targetLanguage, sourceLanguage)]. An absent
    source language and an empty one are both falsy, the empty string
    stands for both. The endpoint is built before the [try]. *)
Definition translateText (text targetLanguage sourceLanguage : JsString)
  : M Translation :=
  emit (Invoked text targetLanguage sourceLanguage) ;;
  if negb (truthy (trim text)) then
    throw (AzureTranslatorError (lit "Text cannot be empty for translation")
                                (Some 400) (lit "EMPTY_TEXT"))
  else if negb (truthy targetLanguage) then
    throw (AzureTranslatorError (lit "Target language is required")
                                (Some 400) (lit "MISSING_TARGET_LANGUAGE"))
  else if batchCharacterLimit config <? len text then
    throw (AzureTranslatorError
             (lit "Text exceeds character limit of "
                ++ numToString (batchCharacterLimit config))
             (Some 400) (lit "TEXT_TOO_LONG"))
  else
    encodeLanguages targetLanguage sourceLanguage ;;
    let endpoint :=
      mkRequest targetLanguage
                (if truthy sourceLanguage then Some sourceLanguage else None)
                [text] in
    tryCatch
      (response <- makeRequest endpoint ;;
       data <- responseJson response ;;
       lift (readTranslation data))
      (fun error =>
         if isAzure error
         then throw error
         else throw (NetworkError (lit "Translation failed: " ++ msg error))).

End Client.

End Azure.

(* ===================================================================== *)
(** ** Types and constants (src/types, src/constants) *)
(* ===================================================================== *)

Module Types.

Definition Row := list JsString.

Record ColumnMapping := mkMapping {
  columnIndex : Z;
  columnName : JsString;
  shouldTranslate : bool;
  targetLanguage : option JsString
}.

(** The fields of [CSVTranslationConfig] the route reads. The object
    comes out of [JSON.parse] unvalidated: [columnMappings] and
    [batchSize] may be missing. *)
Record CSVTranslationConfig := mkCsvConfig {
  columnMappings : option (list ColumnMapping);
  sourceLanguage : JsString;
  batchSize : option Z
}.

(** [CSV_CONFIG]; the repository holds three editions of the constants
    file, which differ in their values only. *)
Record CsvConfig := mkCsvConstants {
  MAX_FILE_SIZE : Z;
  DEFAULT_BATCH_SIZE : Z;
  MAX_BATCH_SIZE : Z;
  MIN_BATCH_SIZE : Z;
  DEFAULT_CONCURRENCY : Z;
  MAX_CONCURRENCY : Z
}.

Definition CSV_CONFIG_first : CsvConfig :=
  mkCsvConstants (50 * 1024 * 1024) 100 1000 1 10 50.

Definition CSV_CONFIG_second : CsvConfig :=
  mkCsvConstants (100 * 1024 * 1024) 50 200 1 2 5.

Definition CSV_CONFIG_third : CsvConfig :=
  mkCsvConstants (100 * 1024 * 1024) 25 100000 1 1 3.

End Types.
Import Types.

(* ===================================================================== *)
(** ** The translation route (src/app/api/translate/route.ts) *)
(* ===================================================================== *)

Module Route.

(** *** Loops *)

(** [for (let i = start; i < limit; i += step) s = body(i, s)]. Nothing
    in the route bounds [step] from below, so the loop runs on fuel and
    diverges when the fuel is spent with the test still true. *)
Fixpoint forLoop {S : Type} (fuel : nat) (limit step : Z)
  (body : Z -> S -> M S) (i : Z) (s : S) : M S :=
  if i <? limit then
    match fuel with
    | O => diverge
    | Datatypes.S f =>
        s' <- body i s ;;
        forLoop f limit step body (i + step) s'
    end
  else ret s.

(** The values [i] takes in that loop, when it ends. *)
Fixpoint loopIndices (fuel : nat) (limit step : Z) (i : Z) : option (list Z) :=
  if i <? limit then
    match fuel with
    | O => None
    | Datatypes.S f => option_map (cons i) (loopIndices f limit step (i + step))
    end
  else Some [].

(** The batches the orchestrator cuts, each with its start index:
    [csvRows.slice(i, i + batchSize)] for every [i] of the batch loop. *)
Definition partition (fuel : nat) (csvRows : list Row) (batchSize : Z)
  : option (list (Z * list Row)) :=
  option_map
    (List.map (fun i => (i, slice csvRows i (i + batchSize))))
    (loopIndices fuel (len csvRows) batchSize 0).

(** *** Events *)

Definition sendEvent (ev : TranslationProgress) : M unit := emit (Sent ev).

Definition progressMessage (m : JsString) : TranslationProgress :=
  mkEvent progress None None None None (Some m) None None.

Definition progressRows (m : JsString) (total processed : Z) : TranslationProgress :=
  mkEvent progress (Some total) (Some processed) None None (Some m) None None.

Definition progressBatch (m : JsString) (total processed current batches : Z)
  : TranslationProgress :=
  mkEvent progress (Some total) (Some processed) (Some current) (Some batches)
          (Some m) None None.

Definition errorEvent (m : JsString) : TranslationProgress :=
  mkEvent error None None None None None None (Some m).

Definition completeEvent (total processed : Z)
  (finalCsvData : list (list Value)) : TranslationProgress :=
  mkEvent complete (Some total) (Some processed) None None
          (Some (lit "Translation completed successfully"))
          (Some finalCsvData) None.

Definition warningSign : JsString := [9888; 65039]%N.
Definition arrowsSign : JsString := [55357; 56580]%N.
Definition checkSign : JsString := [9989]%N.
Definition ellipsis : JsString := [8230]%N.

(** [!text || text.trim() === '']. *)
Definition isBlank (text : JsString) : bool :=
  negb (truthy text) || str_eqb (trim text) [].

Section Handler.

Variable net : Azure.Network.
Variable CSV_CONFIG : CsvConfig.

(** [const azureTranslator = new AzureTranslator()]. *)
Definition azureTranslator_translateText :=
  Azure.translateText net Azure.defaultConfig.

(** *** [translateText] *)
Definition translateText (text fromLang toLang : JsString) : M Value :=
  if isBlank text then ret (str text)
  else
    tryCatch
      (result <- azureTranslator_translateText text toLang fromLang ;;
       ret (Azure.translatedText result))
      (fun _ => ret (str text)).

(** *** [translateTextWithRetry] *)

Definition isRateLimit (e : JsError) : bool :=
  includes (msg e) (lit "Rate limit") || includes (msg e) (lit "429").

(** The [for (attempt = 1; attempt <= maxRetries; attempt++)] loop,
    from [attempt] on; [iterationsLeft] counts the iterations the test
    still allows. A [Some] outcome of the body is a [return]. *)
Fixpoint retryLoop (iterationsLeft : nat) (text fromLang toLang : JsString)
  (maxRetries attempt : Z) : M Value :=
  if attempt <=? maxRetries then
    match iterationsLeft with
    | O => diverge
    | Datatypes.S k =>
        outcome <-
          tryCatch
            ((if 1 <? attempt then sleep (500 * attempt) else ret tt) ;;
             result <- azureTranslator_translateText text toLang fromLang ;;
             ret (Some (Azure.translatedText result)))
            (fun error =>
               if attempt =? maxRetries
               then ret (Some (str text))
               else
                 (if isRateLimit error then sleep 3000 else ret tt) ;;
                 ret None) ;;
        match outcome with
        | Some translated => ret translated
        | None => retryLoop k text fromLang toLang maxRetries (attempt + 1)
        end
    end
  else ret (str text).

Definition translateTextWithRetry (text fromLang toLang : JsString)
  (maxRetries : Z) : M Value :=
  if isBlank text then ret (str text)
  else retryLoop (Z.to_nat maxRetries) text fromLang toLang maxRetries 1.

(** *** [processBatchWithRecovery] *)

Definition typeErrorFind : JsError :=
  typeError (lit "Cannot read properties of undefined (reading 'find')").

(** [config.columnMappings.find(m => m.columnIndex === colIndex)]. *)
Definition findMapping (config : CSVTranslationConfig) (colIndex : Z)
  : M (option ColumnMapping) :=
  match columnMappings config with
  | None => throw typeErrorFind
  | Some mappings =>
      ret (find (fun mapping => columnIndex mapping =? colIndex) mappings)
  end.

(** The mapping asks for a translation:
    [columnMapping && columnMapping.shouldTranslate &&
     columnMapping.targetLanguage]. *)
Definition translationTarget (m : option ColumnMapping) : option JsString :=
  match m with
  | Some columnMapping =>
      if shouldTranslate columnMapping then
        match targetLanguage columnMapping with
        | Some toLang => if truthy toLang then Some toLang else None
        | None => None
        end
      else None
  | None => None
  end.

(** The body of the column loop: the cell pushed for [colIndex]. *)
Definition translateCell (config : CSVTranslationConfig) (colIndex : Z)
  (cell : JsString) : M Value :=
  columnMapping <- findMapping config colIndex ;;
  match translationTarget columnMapping with
  | Some toLang =>
      tryCatch
        (let originalText := cell in
         if isBlank originalText then ret (str originalText)
         else translateTextWithRetry originalText (sourceLanguage config)
                                     toLang 2)
        (fun _ => ret (str cell))
  | None => ret (str cell)
  end.

(** [for (colIndex = 0; colIndex < row.length; colIndex++)], from
    [colIndex] on, over the cells not yet visited. *)
Fixpoint translateColumns (config : CSVTranslationConfig) (cells : Row)
  (colIndex : Z) (translatedRow : list Value) : M (list Value) :=
  match cells with
  | [] => ret translatedRow
  | cell :: rest =>
      translated <- translateCell config colIndex cell ;;
      translateColumns config rest (colIndex + 1) (translatedRow ++ [translated])
  end.

Record BatchState := mkBatchState {
  results : list (list Value);
  failedRows : Z
}.

(** One iteration of the row loop. *)
Definition processRow (config : CSVTranslationConfig) (batchStartIndex : Z)
  (rowIndex : Z) (row : Row) (st : BatchState) : M BatchState :=
  let actualRowIndex := batchStartIndex + rowIndex in
  st' <-
    tryCatch
      (translatedRow <- translateColumns config row 0 [] ;;
       ret (mkBatchState (results st ++ [translatedRow]) (failedRows st)))
      (fun _ =>
         ret (mkBatchState (results st ++ [plain row]) (failedRows st + 1))) ;;
  (if (rowIndex + 1) mod 10 =? 0
   then sendEvent
          (progressMessage
             (lit "Processing row " ++ numToString (actualRowIndex + 1)
                ++ lit "..."))
   else ret tt) ;;
  ret st'.

Fixpoint processRows (config : CSVTranslationConfig) (batchStartIndex : Z)
  (rows : list Row) (rowIndex : Z) (st : BatchState) : M BatchState :=
  match rows with
  | [] => ret st
  | row :: rest =>
      st' <- processRow config batchStartIndex rowIndex row st ;;
      processRows config batchStartIndex rest (rowIndex + 1) st'
  end.

Definition processBatchWithRecovery (batch : list Row) (batchStartIndex : Z)
  (config : CSVTranslationConfig) : M (list (list Value)) :=
  st <- processRows config batchStartIndex batch 0 (mkBatchState [] 0) ;;
  (if 0 <? failedRows st
   then sendEvent
          (progressMessage
             (warningSign ++ lit " " ++ numToString (failedRows st)
                ++ lit " rows failed in this batch, using original text"))
   else ret tt) ;;
  ret (results st).

(** *** [processTranslationRequest] *)

(** The uploaded file: its size, the records [csv-parse] reads from
    its text, and the error the parser raises on it, if it raises one
    (the parser is an external collaborator; the embedding starts from
    its output). *)
Record CsvFile := mkFile {
  size : Z;
  records : list Row;
  parseError : option JsError
}.

(** The [config] field of the form once through [JSON.parse]. *)
Inductive ConfigData :=
| NotJson (e : JsError)
| Parsed (config : CSVTranslationConfig).

(** The multipart form; an absent or empty field is [None]. *)
Record FormData := mkForm {
  file : option CsvFile;
  configData : option ConfigData
}.

(** [await request.formData()]. *)
Inductive Request :=
| NotMultipart (e : JsError)
| Multipart (form : FormData).

Definition plainError (m : JsString) : JsError :=
  mkError (lit "Error") m false None None.

(** The [readable] handler: the first record is the header line, the
    others are the rows. *)
Definition readRecords (recs : list Row) : Row * list Row :=
  match recs with
  | [] => ([], [])
  | headers :: csvRows => (headers, csvRows)
  end.

(** [await new Promise((resolve, reject) => { parser.on('end', resolve);
     parser.on('error', reject); ... })]. When the parser raises an
    error, the listener registered first throws, [reject] is never
    called and the promise never settles: the handler stops there for
    good, with no frame sent and the stream left open. *)
Definition parsed (csvFile : CsvFile) : M unit :=
  match parseError csvFile with
  | Some _ => diverge
  | None => ret tt
  end.

(** [config.batchSize || CSV_CONFIG.DEFAULT_BATCH_SIZE], "the provided
    batch size directly". *)
Definition effectiveBatchSize (config : CSVTranslationConfig) : Z :=
  num_or (batchSize config) (DEFAULT_BATCH_SIZE CSV_CONFIG).

(** The batch size of the editions of the route that clamp, the
    concurrent edition (the second document of route.ts) and the copy
    of the route at the end of column-picker.tsx:
    [Math.min(Math.max(config.batchSize || DEFAULT, MIN), MAX)]. *)
Definition clampedBatchSize (config : CSVTranslationConfig) : Z :=
  Z.min
    (Z.max (num_or (batchSize config) (DEFAULT_BATCH_SIZE CSV_CONFIG))
           (MIN_BATCH_SIZE CSV_CONFIG))
    (MAX_BATCH_SIZE CSV_CONFIG).

(** The variables the batch loop updates. *)
Record RunState := mkRun {
  translatedRows : list (list Value);
  processedRows : Z;
  currentBatch : Z;
  failedBatches : list Z
}.

Definition batchOfTotal (current total : Z) : JsString :=
  numToString current ++ lit " of " ++ numToString total.

(** The [try] block of one batch. The only statement of it that can
    throw comes before the updates of the state. *)
Definition runBatch (config : CSVTranslationConfig) (totalRows totalBatches : Z)
  (batch : list Row) (i : Z) (current : Z) (st : RunState) : M RunState :=
  sendEvent
    (progressBatch
       (arrowsSign ++ lit " Starting batch " ++ numToString current ++ lit "/"
          ++ numToString totalBatches ++ lit " (" ++ numToString (len batch)
          ++ lit " rows)...")
       totalRows (processedRows st) current totalBatches) ;;
  translatedBatch <- processBatchWithRecovery batch i config ;;
  let processed := processedRows st + len batch in
  sendEvent
    (progressBatch
       (checkSign ++ lit " Completed batch " ++ batchOfTotal current totalBatches
          ++ lit " (" ++ numToString (len batch) ++ lit " rows)")
       totalRows processed current totalBatches) ;;
  ret (mkRun (translatedRows st ++ translatedBatch) processed current
             (failedBatches st)).

(** The [catch] block of one batch: the original rows stand in. *)
Definition batchFailed (totalRows totalBatches : Z) (batch : list Row)
  (current : Z) (st : RunState) (e : JsError) : M RunState :=
  let processed := processedRows st + len batch in
  sendEvent
    (progressBatch
       (warningSign ++ lit " Batch " ++ numToString current
          ++ lit " failed, using original text (" ++ msg e ++ lit ")")
       totalRows processed current totalBatches) ;;
  ret (mkRun (translatedRows st ++ List.map plain batch) processed current
             (failedBatches st ++ [current])).

(** The body of [for (let i = 0; i < totalRows; i += batchSize)]. *)
Definition batchBody (config : CSVTranslationConfig) (csvRows : list Row)
  (totalRows batchSize totalBatches : Z) (i : Z) (st : RunState) : M RunState :=
  let batch := slice csvRows i (i + batchSize) in
  let current := currentBatch st + 1 in
  (if 1 <? current then sleep 1000 else ret tt) ;;
  sendEvent
    (progressBatch
       (lit "Processing batch " ++ batchOfTotal current totalBatches)
       totalRows (processedRows st) current totalBatches) ;;
  tryCatch
    (runBatch config totalRows totalBatches batch i current st)
    (batchFailed totalRows totalBatches batch current st).

Definition batchLoop (fuel : nat) (config : CSVTranslationConfig)
  (csvRows : list Row) (totalRows batchSize totalBatches : Z) : M RunState :=
  forLoop fuel totalRows batchSize
          (batchBody config csvRows totalRows batchSize totalBatches)
          0 (mkRun [] 0 0 []).

(** Everything inside the outer [try]. *)
Definition translationRun (fuel : nat) (request : Request) : M unit :=
  form <- match request with
          | NotMultipart e => throw e
          | Multipart form => ret form
          end ;;
  csvFile <- match file form with
             | None => throw (plainError (lit "No CSV file provided"))
             | Some f => ret f
             end ;;
  configText <- match configData form with
                | None => throw (plainError (lit "No configuration provided"))
                | Some c => ret c
                end ;;
  config <- match configText with
            | NotJson e => throw e
            | Parsed c => ret c
            end ;;
  (if MAX_FILE_SIZE CSV_CONFIG <? size csvFile
   then throw (plainError
                 (lit "File size exceeds maximum allowed size of "
                    ++ numToString (MAX_FILE_SIZE CSV_CONFIG / 1024 / 1024)
                    ++ lit "MB"))
   else ret tt) ;;
  (if 50 * 1024 * 1024 <? size csvFile
   then sendEvent
          (progressMessage
             (lit "Very large file detected! This may take 30+ minutes to process..."))
   else if 10 * 1024 * 1024 <? size csvFile
   then sendEvent
          (progressMessage
             (lit "Large file detected, processing might take 10-20 minutes"
                ++ ellipsis))
   else ret tt) ;;
  parsed csvFile ;;
  let (headers, csvRows) := readRecords (records csvFile) in
  let totalRows := len csvRows in
  sendEvent
    (progressRows
       (lit "Parsed CSV file: " ++ numToString totalRows ++ lit " rows, "
          ++ numToString (len headers) ++ lit " columns")
       totalRows 0) ;;
  let batchSize := effectiveBatchSize config in
  let totalBatches := ceilDiv totalRows batchSize in
  st <- batchLoop fuel config csvRows totalRows batchSize totalBatches ;;
  (if 0 <? len (failedBatches st)
   then sendEvent
          (progressMessage
             (warningSign ++ lit " " ++ numToString (len (failedBatches st))
                ++ lit " batches failed: "
                ++ joinNums (lit ", ") (failedBatches st)
                ++ lit ". Original text used for failed batches."))
   else ret tt) ;;
  sendEvent
    (progressRows (lit "Generating final CSV output...") totalRows
                  (processedRows st)) ;;
  let finalCsvData := plain headers :: translatedRows st in
  sendEvent (completeEvent totalRows (processedRows st) finalCsvData).

Definition processTranslationRequest (fuel : nat) (request : Request) : M unit :=
  tryCatch
    (translationRun fuel request)
    (fun error => sendEvent (errorEvent (msg error))).

(** *** [POST]: the [start] callback of the stream *)
Definition POST (fuel : nat) (request : Request) : M unit :=
  tryCatch
    (processTranslationRequest fuel request ;;
     emit Closed)
    (fun error =>
       sendEvent (errorEvent (str_or (msg error) (lit "Unknown error occurred"))) ;;
       emit Closed).

End Handler.

End Route.

(* ===================================================================== *)
(** ** Specification vocabulary *)
(* ===================================================================== *)

Module Props.

(** The effects a computation appended (its delta, newest first)
    contain no frame for the client. *)
Definition silent (d : World) : Prop :=
  Forall (fun e => match e with
                   | Sent _ | Closed => False
                   | _ => True
                   end) d.

(** The delta holds [progress] frames only, and the stream stays open. *)
Definition progressOnly (d : World) : Prop :=
  Forall (fun e => match e with
                   | Sent ev => ev_type ev = progress
                   | Closed => False
                   | _ => True
                   end) d.

(** [m], started in [w], ends with a result [r] after appending a delta
    [d] such that [Q r d]. *)
Definition spec {A} (m : M A) (w : World) (Q : Res A -> World -> Prop) : Prop :=
  exists r d, m w = (r, d ++ w) /\ Q r d.

(** [m] returns a value: it neither throws nor diverges. *)
Definition returns {A} (P : A -> Prop) (r : Res A) : Prop :=
  match r with
  | Ok a => P a
  | _ => False
  end.

(** [m] returns or throws, but does not diverge. *)
Definition halts {A} (P : A -> Prop) (r : Res A) : Prop :=
  match r with
  | Ok a => P a
  | Throw _ => True
  | Diverge => False
  end.

(** What [translateTextWithRetry] can return for [text]: the text
    itself, or what a call of the Azure client returned for it. *)
Definition retried (net : Azure.Network) (text fromLang toLang : JsString)
  (v : Value) : Prop :=
  v = str text \/
  exists w tr w',
    Route.azureTranslator_translateText net text toLang fromLang w = (Ok tr, w')
    /\ v = Azure.translatedText tr.

Section Outcomes.

Variable net : Azure.Network.
Variable config : CSVTranslationConfig.

(** The column is one the route sends to the translator: the first
    mapping with that index asks for it and names a language. *)
Definition targetOf (colIndex : Z) : option JsString :=
  match columnMappings config with
  | Some mappings =>
      Route.translationTarget
        (find (fun mapping => columnIndex mapping =? colIndex) mappings)
  | None => None
  end.

(** No mapping at all asks for a translation of the column. *)
Definition passThrough (colIndex : Z) : Prop :=
  forall mappings m,
    columnMappings config = Some mappings ->
    In m mappings ->
    columnIndex m = colIndex ->
    shouldTranslate m = true ->
    forall toLang, targetLanguage m = Some toLang -> truthy toLang = false.

(** What an output cell can be: the input cell, or the text of a
    translation the Azure client returned for it. *)
Definition cellOutcome (colIndex : Z) (cell : JsString) (out : Value) : Prop :=
  out = str cell \/
  exists toLang w tr w',
    targetOf colIndex = Some toLang /\
    Route.isBlank cell = false /\
    Route.azureTranslator_translateText net cell toLang (sourceLanguage config) w
      = (Ok tr, w') /\
    out = Azure.translatedText tr.

(** Cell by cell, from column [colIndex] on; the two rows have the
    same number of cells. *)
Fixpoint cellsOutcome (colIndex : Z) (cells : Row) (outs : list Value) : Prop :=
  match cells, outs with
  | [], [] => True
  | cell :: cells', out :: outs' =>
      cellOutcome colIndex cell out /\ cellsOutcome (colIndex + 1) cells' outs'
  | _, _ => False
  end.

Definition rowOutcome (row : Row) (out : list Value) : Prop :=
  cellsOutcome 0 row out.

Definition rowsOutcome (rows : list Row) (outs : list (list Value)) : Prop :=
  Forall2 rowOutcome rows outs.

End Outcomes.

(** The translator fails on every call made for [text]. *)
Definition failsOn (net : Azure.Network) (text : JsString) : Prop :=
  forall toLang fromLang w,
  exists e w',
    Route.azureTranslator_translateText net text toLang fromLang w = (Throw e, w').

(** The translator fails on every call. *)
Definition alwaysFails (net : Azure.Network) : Prop :=
  forall text toLang fromLang w,
  exists e w',
    Route.azureTranslator_translateText net text toLang fromLang w = (Throw e, w').

(** The network never answers with a success status. *)
Definition neverOk (net : Azure.Network) : Prop :=
  forall w req,
    match net w req with
    | Azure.Rejects _ => True
    | Azure.Responds r => Azure.ok r = false
    end.

(** The network answers every request with one of the statuses the
    client does not retry: 401, 403 or 400. *)
Definition refusesAll (net : Azure.Network) : Prop :=
  forall w req,
  exists r,
    net w req = Azure.Responds r
    /\ (Azure.status r = 401 \/ Azure.status r = 403 \/ Azure.status r = 400).

(** [count] indices from [i] on, [step] apart. *)
Definition strides (i step : Z) (count : nat) : list Z :=
  List.map (fun k => i + Z.of_nat k * step) (seq 0 count).

(** The rows cut by the iterations at the indices [done], in order. *)
Definition batchesAt (csvRows : list Row) (batchSize : Z) (done : list Z)
  : list Row :=
  List.concat (List.map (fun i => slice csvRows i (i + batchSize)) done).

(** What holds of the variables of the batch loop after the iterations
    at the indices [done]. *)
Definition loopInvariant (net : Azure.Network) (config : CSVTranslationConfig)
  (csvRows : list Row) (batchSize : Z) (done : list Z) (st : Route.RunState)
  : Prop :=
  rowsOutcome net config (batchesAt csvRows batchSize done)
              (Route.translatedRows st)
  /\ Route.processedRows st = len (batchesAt csvRows batchSize done)
  /\ Route.currentBatch st = len done.

(** Rows of the same shape. *)
Definition sameShape (rows : list Row) (outs : list (list Value)) : Prop :=
  Forall2 (fun (row : Row) (out : list Value) =>
             List.length out = List.length row) rows outs.

(** What a frame says about batches: the number of the batch it
    belongs to, the number of batches announced and the number of rows
    processed so far. [None] for everything that is not a frame with a
    batch counter. *)
Definition batchFrame (e : Effect) : option (Z * Z * Z) :=
  match e with
  | Sent ev =>
      match ev_currentBatch ev, ev_totalBatches ev, ev_processedRows ev with
      | Some current, Some total, Some processed =>
          Some (current, total, processed)
      | _, _, _ => None
      end
  | _ => None
  end.

Fixpoint batchFramesNewestFirst (w : World) : list (Z * Z * Z) :=
  match w with
  | [] => []
  | e :: w' =>
      match batchFrame e with
      | Some frame => frame :: batchFramesNewestFirst w'
      | None => batchFramesNewestFirst w'
      end
  end.

(** The batch counters the client has seen, oldest first. *)
Definition batchFrames (w : World) : list (Z * Z * Z) :=
  rev (batchFramesNewestFirst w).

(** The delta has no frame with a batch counter. *)
Definition uncounted (d : World) : Prop :=
  Forall (fun e => batchFrame e = None) d.

(** The batch counters of a run that cuts the rows into [batches], from
    batch number [current] on, [processed] rows being done before it:
    three frames per batch, when the batch is taken up, when it starts
    and when it is done, the last one counting its rows. *)
Fixpoint announcedFrom (total current processed : Z)
  (batches : list (Z * list Row)) : list (Z * Z * Z) :=
  match batches with
  | [] => []
  | (_, rows) :: rest =>
      (current, total, processed)
        :: (current, total, processed)
        :: (current, total, processed + len rows)
        :: announcedFrom total (current + 1) (processed + len rows) rest
  end.

(** The request carries a file and a configuration that parses. *)
Definition wellFormed (request : Route.Request) (f : Route.CsvFile)
  (config : CSVTranslationConfig) : Prop :=
  request = Route.Multipart (Route.mkForm (Some f) (Some (Route.Parsed config))).

(** The request passes what precedes the batch loop: its file is
    within the size limit and the parser reads it. *)
Definition accepted (CSV_CONFIG : CsvConfig) (request : Route.Request)
  (f : Route.CsvFile) (config : CSVTranslationConfig) : Prop :=
  wellFormed request f config
  /\ Route.size f <= MAX_FILE_SIZE CSV_CONFIG
  /\ Route.parseError f = None.

(** The rows of the file, its header line apart. *)
Definition rowsOf (f : Route.CsvFile) : list Row :=
  snd (Route.readRecords (Route.records f)).

Definition headersOf (f : Route.CsvFile) : Row :=
  fst (Route.readRecords (Route.records f)).

(** The batch loop of the request can run to its end on [fuel]: if the
    request comes with a file within the size limit and a
    configuration, then the parser reads the file, the batch size in
    force is positive, the invariant [batchSize >= 1] of the
    configuration, and there is fuel for one iteration per row. *)
Definition runnable (CSV_CONFIG : CsvConfig) (fuel : nat)
  (request : Route.Request) : Prop :=
  forall f config,
    wellFormed request f config ->
    Route.size f <= MAX_FILE_SIZE CSV_CONFIG ->
    Route.parseError f = None
    /\ 1 <= Route.effectiveBatchSize CSV_CONFIG config
    /\ (List.length (rowsOf f) <= fuel)%nat.

End Props.
Import Props.

(* ===================================================================== *)
(** ** Sample requests and networks *)
(* ===================================================================== *)

Module Samples.

(** A configuration that asks for 200000 rows per batch, more than the
    maximum of every edition of the constants, and one that asks for
    fewer than the minimum. *)
Definition hugeBatchConfig : CSVTranslationConfig :=
  mkCsvConfig (Some []) (lit "en") (Some 200000).

Definition negativeBatchConfig : CSVTranslationConfig :=
  mkCsvConfig (Some []) (lit "en") (Some (-5)).

(** A network on which every request times out. *)
Definition timeoutNet : Azure.Network :=
  fun _ _ => Azure.Rejects (mkError (lit "AbortError")
                                    (lit "This operation was aborted")
                                    false None None).

(** [text()] on a body that [json()] is the one to read: the sample
    answers below are JSON answers, of which the client never takes the
    text. *)
Definition unread : Read JsString :=
  inl (typeError (lit "Body is unusable: Body has already been read")).

(** An answer with a JSON body. *)
Definition jsonAnswer (status : Z) (body : Json) : Azure.Response :=
  Azure.mkResponse status (Some (lit "application/json")) None (inr body) unread.

(** The body of a successful answer of the service: for each text, one
    translation into the target language. *)
Definition translationsBody (f : JsString -> JsString) (toLang : JsString)
  (texts : list JsString) : Json :=
  JArr (List.map
          (fun t =>
             JObj [(lit "translations",
                    JArr [JObj [(lit "text", JStr (f t));
                                (lit "to", JStr toLang)]])])
          texts).

(** A network that answers 401 to every request. *)
Definition unauthorizedNet : Azure.Network :=
  fun _ _ =>
    Azure.Responds
      (jsonAnswer 401
         (JObj [(lit "error",
                 JObj [(lit "code", numberOf 401000);
                       (lit "message", JStr (lit "Access denied"))])])).

(** A service that answers every text with its upper-case form. *)
Definition upperCase (c : N) : N :=
  if (N.leb 97 c && N.leb c 122)%bool then (c - 32)%N else c.

Definition upperNet : Azure.Network :=
  fun _ req =>
    Azure.Responds
      (jsonAnswer 200
         (translationsBody (List.map upperCase) (req_to req) (req_texts req))).

(** Two columns, the first one translated to Spanish. *)
Definition firstColumnConfig (size : option Z) : CSVTranslationConfig :=
  mkCsvConfig
    (Some [mkMapping 0 (lit "name") true (Some (lit "es"));
           mkMapping 1 (lit "id") false (Some (lit "es"))])
    (lit "en") size.

(** A header line and three rows; the last row has a blank first cell. *)
Definition smallFile : Route.CsvFile :=
  Route.mkFile 64
    [[lit "name"; lit "id"];
     [lit "cat"; lit "1"];
     [lit "dog"; lit "2"];
     [lit "  "; lit "3"]]
    None.

Definition smallRequest (size : option Z) : Route.Request :=
  Route.Multipart
    (Route.mkForm (Some smallFile) (Some (Route.Parsed (firstColumnConfig size)))).

(** A file the parser refuses: its second line has one field where
    the header line has two. *)
Definition unparsedFile : Route.CsvFile :=
  Route.mkFile 16
    [[lit "name"; lit "id"]]
    (Some (Route.plainError (lit "Invalid Record Length: expect 2, got 1 on line 2"))).

Definition unparsedRequest : Route.Request :=
  Route.Multipart
    (Route.mkForm (Some unparsedFile)
                  (Some (Route.Parsed (firstColumnConfig (Some 2))))).

(** A header line and 201 rows of one column, and the request that
    asks for batches of 200000 rows of it. *)
Definition longFile : Route.CsvFile :=
  Route.mkFile 1024 ([lit "word"] :: repeat [lit "x"] 201) None.

Definition longRequest : Route.Request :=
  Route.Multipart
    (Route.mkForm (Some longFile) (Some (Route.Parsed hugeBatchConfig))).

(** Five rows of two columns under a header line. *)
Definition fiveRowFile : Route.CsvFile :=
  Route.mkFile 128
    [[lit "name"; lit "id"];
     [lit "ant"; lit "a1"];
     [lit "bee"; lit "b2"];
     [lit "cat"; lit "c3"];
     [lit "dog"; lit "d4"];
     [lit "eel"; lit "e5"]]
    None.

(** A header line and no row. *)
Definition headerOnlyFile : Route.CsvFile :=
  Route.mkFile 8 [[lit "name"; lit "id"]] None.

Definition requestFor (f : Route.CsvFile) (size : option Z) : Route.Request :=
  Route.Multipart
    (Route.mkForm (Some f) (Some (Route.Parsed (firstColumnConfig size)))).

(** The batch counters of the frames of a trace, oldest first. *)
Definition batchCounters (w : World) : list (option Z * option Z) :=
  List.map (fun ev => (ev_currentBatch ev, ev_totalBatches ev)) (events w).

(** The [complete] frames of a trace: rows announced, rows processed
    and the matrix. *)
Definition completions (w : World)
  : list (option Z * option Z * option (list (list Value))) :=
  List.map (fun ev => (ev_totalRows ev, ev_processedRows ev, ev_data ev))
           (filter (fun ev => match ev_type ev with
                              | complete => true
                              | _ => false
                              end)
                   (events w)).

(** A configuration without [columnMappings]. *)
Definition bareConfig : CSVTranslationConfig := mkCsvConfig None (lit "en") (Some 2).

Definition bareRequest : Route.Request :=
  Route.Multipart (Route.mkForm (Some smallFile) (Some (Route.Parsed bareConfig))).

(** Some frame of the trace has a message that contains [m]. *)
Definition announced (m : JsString) (w : World) : bool :=
  existsb (fun ev => match ev_message ev with
                     | Some text => includes text m
                     | None => false
                     end)
          (events w).

End Samples.
Import Samples.

(* ===================================================================== *)
(** ** More of the Azure client: [translateBatch], [testConnection] *)
(* ===================================================================== *)

Module AzureMore.

(** [BatchTranslationResponse], with the fields of [batchInfo] beside
    the translations; [averageProcessingTime] is wall-clock time and is
    left out. A translation is whatever the [text] property held. *)
Record BatchTranslationResponse := mkBatchResponse {
  translations : list Value;
  totalBatches : Z;
  totalCharacters : Z
}.

(** The result of [testConnection], its latency and region apart. *)
Record ConnectionTest := mkConnectionTest {
  success : bool
}.

Section Client.

Variable net : Azure.Network.
Variable config : Azure.AzureTranslatorConfig.

Definition emptyTexts : JsError :=
  Azure.AzureTranslatorError (lit "Texts array cannot be empty") (Some 400)
                             (lit "EMPTY_TEXTS").

Definition missingTarget : JsError :=
  Azure.AzureTranslatorError (lit "Target language is required") (Some 400)
                             (lit "MISSING_TARGET_LANGUAGE").

Definition invalidBatchResponse (i : Z) : JsError :=
  Azure.AzureTranslatorError
    (lit "Invalid response from translation API for batch " ++ numToString (i + 1))
    (Some 500) (lit "INVALID_BATCH_RESPONSE").

Definition missingTranslation (i : Z) : JsError :=
  Azure.AzureTranslatorError
    (lit "Missing translation in response for batch " ++ numToString (i + 1))
    (Some 500) (lit "MISSING_TRANSLATION").

(** The callback of [data.map] in batch [i], on one item:
    [if (!item.translations || item.translations.length === 0) throw ...;
     return item.translations[0].text]. *)
Definition extractTranslation (i : Z) (item : Json) : Read Value :=
  translations <~ read (Some item) kTranslations ;;
  if negb (truthyValue translations) then inl (missingTranslation i)
  else
    length <~ read translations kLength ;;
    if isNumberZero length then inl (missingTranslation i)
    else
      entry <~ read translations kFirst ;;
      read entry kText.

(** [data.map(item => ...)] of batch [i]: item after item, up to the
    first one that throws. *)
Fixpoint extractTranslations (i : Z) (data : list Json) : Read (list Value) :=
  match data with
  | [] => inr []
  | item :: rest =>
      t <~ extractTranslation i item ;;
      ts <~ extractTranslations i rest ;;
      inr (t :: ts)
  end.

(** What the loop makes of the body of the answer to batch [i]:
    [!data || !Array.isArray(data) || data.length !== batch.length],
    then the map. *)
Definition readBatch (i : Z) (batch : list JsString) (data : Json)
  : Read (list Value) :=
  match data with
  | JArr items =>
      if negb (len items =? len batch)
      then inl (invalidBatchResponse i)
      else extractTranslations i items
  | _ => inl (invalidBatchResponse i)
  end.

(** [for (let i = 0; i < batches.length; i++)], from batch [i] on, over
    the batches not yet sent; [count] is [batches.length]. *)
Fixpoint sendBatches (toLang : JsString) (fromLang : option JsString)
  (count : Z) (i : Z) (batches : list (list JsString))
  (allTranslations : list Value) : M (list Value) :=
  match batches with
  | [] => ret allTranslations
  | batch :: rest =>
      response <- Azure.makeRequest net config (mkRequest toLang fromLang batch) ;;
      data <- Azure.responseJson response ;;
      batchTranslations <- lift (readBatch i batch data) ;;
      (if i <? count - 1 then sleep 100 else ret tt) ;;
      sendBatches toLang fromLang count (i + 1) rest
                  (allTranslations ++ batchTranslations)
  end.

(** [translateBatch(texts, targetLanguage, sourceLanguage)]. The
    endpoint is built before the [try]. *)
Definition translateBatch (texts : list JsString)
  (targetLanguage sourceLanguage : JsString) : M BatchTranslationResponse :=
  if len texts =? 0 then throw emptyTexts
  else if negb (truthy targetLanguage) then throw missingTarget
  else
    let batches :=
      CreateBatches.createBatches (Azure.batchCharacterLimit config) texts in
    let total := fold_left (fun sum text => sum + len text) texts 0 in
    Azure.encodeLanguages targetLanguage sourceLanguage ;;
    tryCatch
      (allTranslations <-
         sendBatches targetLanguage
                     (if truthy sourceLanguage then Some sourceLanguage else None)
                     (len batches) 0 batches [] ;;
       ret (mkBatchResponse allTranslations (len batches) total))
      (fun error =>
         if isAzure error
         then throw error
         else throw (Azure.NetworkError
                       (lit "Batch translation failed: " ++ msg error))).

(** [testConnection()]. *)
Definition testConnection : M ConnectionTest :=
  tryCatch
    (Azure.translateText net config (lit "Hello") (lit "es") [] ;;
     ret (mkConnectionTest true))
    (fun error =>
       throw (mkError (lit "AzureTranslatorError")
                      (lit "Connection test failed: " ++ msg error) true None
                      (str (lit "CONNECTION_TEST_FAILED")))).

End Client.

End AzureMore.

(* ===================================================================== *)
(** ** The ingress of the route: the per-address rate limit of [POST] *)
(* ===================================================================== *)

Module Ingress.

Definition RATE_LIMIT_WINDOW_MS : Z := 60000.
Definition MAX_REQUESTS_PER_WINDOW : Z := 8.

Record Entry := mkEntry {
  count : Z;
  firstRequestTs : Z
}.

(** [rateLimitMap], a [Map] from address to entry: [get] is application,
    [set] is [mapSet]. Nothing ever deletes a key. *)
Definition RateLimitMap := JsString -> option Entry.

Definition emptyMap : RateLimitMap := fun _ => None.

Definition mapSet (key : JsString) (v : Entry) (m : RateLimitMap) : RateLimitMap :=
  fun k => if str_eqb key k then Some v else m k.

(** [s.split(",")[0]]. *)
Fixpoint firstField (s : JsString) : JsString :=
  match s with
  | [] => []
  | c :: r => if N.eqb c 44 then [] else c :: firstField r
  end.

(** [request.headers.get("x-forwarded-for")?.split(",")[0].trim()
     || "unknown"]. *)
Definition clientIp (forwardedFor : option JsString) : JsString :=
  match forwardedFor with
  | Some h => str_or (trim (firstField h)) (lit "unknown")
  | None => lit "unknown"
  end.

Inductive Verdict := Served | TooManyRequests.

(** The block that opens [POST], at time [now = Date.now()]. The entry
    found is updated in place, which [mapSet] renders. *)
Definition rateLimit (ip : JsString) (now : Z) (m : RateLimitMap)
  : Verdict * RateLimitMap :=
  match m ip with
  | None => (Served, mapSet ip (mkEntry 1 now) m)
  | Some entry =>
      if now - firstRequestTs entry <? RATE_LIMIT_WINDOW_MS then
        let entry' := mkEntry (count entry + 1) (firstRequestTs entry) in
        (if MAX_REQUESTS_PER_WINDOW <? count entry'
         then TooManyRequests
         else Served,
         mapSet ip entry' m)
      else (Served, mapSet ip (mkEntry 1 now) m)
  end.

(** What [POST] answers: status 429 and no stream, or the event stream
    with what its [start] callback did. *)
Inductive Answer :=
| Status429
| EventStream (outcome : Res unit * World).

Definition POST (net : Azure.Network) (CSV_CONFIG : CsvConfig) (fuel : nat)
  (forwardedFor : option JsString) (now : Z) (request : Route.Request)
  (m : RateLimitMap) : Answer * RateLimitMap :=
  match rateLimit (clientIp forwardedFor) now m with
  | (TooManyRequests, m') => (Status429, m')
  | (Served, m') => (EventStream (Route.POST net CSV_CONFIG fuel request []), m')
  end.

(** The verdicts for requests of one address arriving at the times
    [times], in order. *)
Fixpoint verdicts (ip : JsString) (times : list Z) (m : RateLimitMap)
  : list Verdict * RateLimitMap :=
  match times with
  | [] => ([], m)
  | now :: rest =>
      let (v, m') := rateLimit ip now m in
      let (vs, m'') := verdicts ip rest m' in
      (v :: vs, m'')
  end.

(** The request of [ip] at time [now] opens a window: the address has
    no entry, or the window of its entry is over. *)
Definition opensWindow (m : RateLimitMap) (ip : JsString) (now : Z) : Prop :=
  match m ip with
  | None => True
  | Some entry => RATE_LIMIT_WINDOW_MS <= now - firstRequestTs entry
  end.

(** The verdict for request number [k] of a window, the first one
    having number 1. *)
Definition verdictAt (k : Z) : Verdict :=
  if k <=? MAX_REQUESTS_PER_WINDOW then Served else TooManyRequests.

End Ingress.

(* ===================================================================== *)
(** ** The page that calls the route (src/app/page.tsx) and the column
       picker (src/components/ui/column-picker.tsx) *)
(* ===================================================================== *)

Module Page.

(** [headers.map((col, idx) => ({ columnIndex: idx, columnName: col,
     shouldTranslate: !!columnSelections[idx], targetLanguage }))], from
    index [idx] on. [columnSelections] is a record from index to
    boolean; a missing key reads as [false]. *)
Fixpoint mappingsFrom (idx : Z) (headers : Row) (columnSelections : Z -> bool)
  (targetLanguage : JsString) : list ColumnMapping :=
  match headers with
  | [] => []
  | col :: rest =>
      mkMapping idx col (columnSelections idx) (Some targetLanguage)
        :: mappingsFrom (idx + 1) rest columnSelections targetLanguage
  end.

(** The configuration [onSubmit] sends, as the route reads it back. *)
Definition onSubmitConfig (headers : Row) (columnSelections : Z -> bool)
  (sourceLanguage targetLanguage : JsString) (size : Z) : CSVTranslationConfig :=
  mkCsvConfig (Some (mappingsFrom 0 headers columnSelections targetLanguage))
              sourceLanguage (Some size).

(** [translationFormSchema]: both languages chosen, and a batch size
    between 1 and the maximum. The batch size is a whole number here,
    as everywhere in the embedding. *)
Definition translationFormSchema (CSV_CONFIG : CsvConfig)
  (sourceLanguage targetLanguage : JsString) (size : Z) : Prop :=
  truthy sourceLanguage = true
  /\ truthy targetLanguage = true
  /\ 1 <= size <= MAX_BATCH_SIZE CSV_CONFIG.

(** *** The column picker *)

Definition findByIndex (columnMappings : list ColumnMapping) (idx : Z)
  : option ColumnMapping :=
  find (fun m => columnIndex m =? idx) columnMappings.

Definition withShouldTranslate (m : ColumnMapping) (b : bool) : ColumnMapping :=
  mkMapping (columnIndex m) (columnName m) b (targetLanguage m).

(** [columns[columnIndex]]: [None] where the source reads [undefined]. *)
Definition columnAt (columns : Row) (idx : Z) : option JsString :=
  if idx <? 0 then None else nth_error columns (Z.to_nat idx).

(** [handleColumnToggle(columnIndex)], as the list handed to
    [onColumnMappingsChange]. The picker draws one toggle per column and
    calls the handler with the index of that column; a call that would
    add a mapping for an index with no column, whose name the source
    reads as [undefined], is outside the embedding and gives [None]. *)
Definition handleColumnToggle (disabled : bool) (columns : Row)
  (columnMappings : list ColumnMapping) (idx : Z)
  : option (list ColumnMapping) :=
  if disabled then Some columnMappings
  else
    match findByIndex columnMappings idx with
    | Some _ =>
        Some (List.map
                (fun mapping =>
                   if columnIndex mapping =? idx
                   then withShouldTranslate mapping
                                            (negb (shouldTranslate mapping))
                   else mapping)
                columnMappings)
    | None =>
        match columnAt columns idx with
        | Some name => Some (columnMappings ++ [mkMapping idx name true None])
        | None => None
        end
    end.

(** [handleClearSelection()]. *)
Definition handleClearSelection (disabled : bool)
  (columnMappings : list ColumnMapping) : list ColumnMapping :=
  if disabled then columnMappings
  else List.map (fun mapping => withShouldTranslate mapping false) columnMappings.

(** [handleSelectAll()], from column [idx] on; [selectAll] is the state
    of the master check box. *)
Fixpoint selectAllFrom (idx : Z) (columns : Row)
  (columnMappings : list ColumnMapping) (selectAll : bool) : list ColumnMapping :=
  match columns with
  | [] => []
  | columnName :: rest =>
      match findByIndex columnMappings idx with
      | Some existingMapping => withShouldTranslate existingMapping (negb selectAll)
      | None => mkMapping idx columnName (negb selectAll) None
      end :: selectAllFrom (idx + 1) rest columnMappings selectAll
  end.

Definition handleSelectAll (disabled : bool) (columns : Row)
  (columnMappings : list ColumnMapping) (selectAll : bool) : list ColumnMapping :=
  if disabled then columnMappings
  else selectAllFrom 0 columns columnMappings selectAll.

(** The request [onSubmit] posts for the selected file. *)
Definition onSubmitRequest (selectedFile : Route.CsvFile) (headers : Row)
  (columnSelections : Z -> bool) (sourceLanguage targetLanguage : JsString)
  (size : Z) : Route.Request :=
  Route.Multipart
    (Route.mkForm
       (Some selectedFile)
       (Some (Route.Parsed
                (onSubmitConfig headers columnSelections sourceLanguage
                                targetLanguage size)))).

(** A selection that ticks the first column only. *)
Definition firstOnly (idx : Z) : bool := idx =? 0.

End Page.

(* ===================================================================== *)
(** ** Measures of a trace and reference results *)
(* ===================================================================== *)

Module Measures.

Definition isSlept (e : Effect) : bool :=
  match e with Slept _ => true | _ => false end.

(** Number of timers awaited so far. *)
Definition sleeps (w : World) : nat := List.length (filter isSlept w).

(** The delays awaited, oldest first. *)
Fixpoint delaysNewestFirst (w : World) : list Z :=
  match w with
  | [] => []
  | Slept ms :: w' => ms :: delaysNewestFirst w'
  | _ :: w' => delaysNewestFirst w'
  end.

Definition delays (w : World) : list Z := rev (delaysNewestFirst w).

(** The request [translateText] sends for a text. *)
Definition requestOf (text toLang fromLang : JsString) : FetchRequest :=
  mkRequest toLang (if truthy fromLang then Some fromLang else None) [text].

(** The language codes can go into the endpoint: the target code,
    and the source code when there is one, have no lone surrogate. *)
Definition encodableLanguages (toLang fromLang : JsString) : bool :=
  encodable toLang && (negb (truthy fromLang) || encodable fromLang).

(** The call passes what [translateText] does before it sends
    anything: its three checks and the building of the endpoint. *)
Definition passesGuards (config : Azure.AzureTranslatorConfig)
  (text toLang fromLang : JsString) : Prop :=
  truthy (trim text) = true
  /\ truthy toLang = true
  /\ len text <= Azure.batchCharacterLimit config
  /\ encodableLanguages toLang fromLang = true.

(** The translation [translateText] returns for an answer whose first
    element has the properties [fields] and [t] as its first
    translation: the [text] of [t], and the [language] and [score] of
    [detectedLanguage] where there is one. *)
Definition translationOf (fields : list (JsString * Json)) (t : Json)
  : Azure.Translation :=
  let detected := lookup (lit "detectedLanguage") fields in
  Azure.mkTranslation (property t kText)
                      (optionalProperty detected kLanguage)
                      (optionalProperty detected kScore).

(** The status is one whose error has a fixed message: 401, 403, 404
    or 429. *)
Definition fixedMessageStatus (s : Z) : Prop :=
  s = 401 \/ s = 403 \/ s = 404 \/ s = 429.

(** The body of a success answer fails the test of [translateText]:
    it is not an array, or an empty one, or its first element has no
    [translations] with a truthy [length]. *)
Definition invalidBody (r : Azure.Response) : Prop :=
  exists data,
    Azure.jsonBody r = inr data /\ Azure.invalidData data = inr true.

(** The body of the answer, once read, is [null]. *)
Definition nullDetails (r : Azure.Response) : Prop :=
  Azure.readErrorDetails r = JNull.

(** The answer is not announced as JSON: [parseErrorResponse] reads
    its body as text. *)
Definition textual (r : Azure.Response) : Prop :=
  match Azure.contentType r with
  | Some ct => includes ct (lit "application/json") = false
  | None => True
  end.

(** Number of cells of a table. *)
Definition cellCount (rows : list Row) : nat :=
  list_sum (List.map (@List.length JsString) rows).

(** A translation service that answers every request with status 200
    and, for each text of the body, the text [f] makes of it. *)
Definition stubNet (f : JsString -> JsString) : Azure.Network :=
  fun _ req =>
    Azure.Responds
      (jsonAnswer 200 (translationsBody f (req_to req) (req_texts req))).

(** What the route makes of a cell when the service translates every
    text to [f text]: a cell of a column to translate becomes [f cell]
    when it is not blank, is within the character limit of the client
    and the language codes can go into the endpoint; every other cell
    stays. *)
Definition expectedCell (f : JsString -> JsString) (config : CSVTranslationConfig)
  (colIndex : Z) (cell : JsString) : Value :=
  match targetOf config colIndex with
  | Some toLang =>
      if Route.isBlank cell
         || (Azure.batchCharacterLimit Azure.defaultConfig <? len cell)
         || negb (encodableLanguages toLang (sourceLanguage config))
      then str cell
      else str (f cell)
  | None => str cell
  end.

Fixpoint expectedCells (f : JsString -> JsString) (config : CSVTranslationConfig)
  (colIndex : Z) (cells : Row) : list Value :=
  match cells with
  | [] => []
  | cell :: rest =>
      expectedCell f config colIndex cell
        :: expectedCells f config (colIndex + 1) rest
  end.

Definition expectedRows (f : JsString -> JsString) (config : CSVTranslationConfig)
  (rows : list Row) : list (list Value) :=
  List.map (expectedCells f config 0) rows.

(** A measure of traces that adds up over concatenation and ignores
    frames, timers and the closing of the stream. *)
Record Additive (mu : World -> nat) : Prop := mkAdditive {
  mu_app : forall d d', mu (d ++ d') = (mu d + mu d')%nat;
  mu_sent : forall ev, mu [Sent ev] = 0%nat;
  mu_slept : forall ms, mu [Slept ms] = 0%nat;
  mu_closed : mu [Closed] = 0%nat
}.

(** Cell by cell under a relation [P] on the column index, the input
    cell and the output cell. *)
Fixpoint cellsRelated (P : Z -> JsString -> Value -> Prop) (colIndex : Z)
  (cells : Row) (outs : list Value) : Prop :=
  match cells, outs with
  | [], [] => True
  | cell :: cells', out :: outs' =>
      P colIndex cell out /\ cellsRelated P (colIndex + 1) cells' outs'
  | _, _ => False
  end.

(** What a row and a table cost when the cell of column [colIndex]
    with text [cell] costs [cost colIndex cell]. *)
Fixpoint cellsCost (cost : Z -> JsString -> nat) (colIndex : Z) (cells : Row)
  : nat :=
  match cells with
  | [] => 0%nat
  | cell :: rest => (cost colIndex cell + cellsCost cost (colIndex + 1) rest)%nat
  end.

Definition tableCost (cost : Z -> JsString -> nat) (rows : list Row) : nat :=
  list_sum (List.map (cellsCost cost 0) rows).

(** The cell is one the route sends to the translator: its column is
    to be translated and its text is not blank. *)
Definition billable (config : CSVTranslationConfig) (colIndex : Z)
  (cell : JsString) : bool :=
  match targetOf config colIndex with
  | Some _ => negb (Route.isBlank cell)
  | None => false
  end.

(** [k] for every cell sent to the translator, nothing for the others. *)
Definition perBillable (k : nat) (config : CSVTranslationConfig) (colIndex : Z)
  (cell : JsString) : nat :=
  if billable config colIndex cell then k else 0%nat.

(** A network whose first answer is a connection failure and whose
    later answers translate to upper case. *)
Definition flakyNet : Azure.Network :=
  fun w req =>
    if (fetches w =? 0)%nat
    then Azure.Rejects (typeError (lit "fetch failed"))
    else upperNet w req.

(** A network whose first answer is 429 and whose later answers
    translate to upper case. *)
Definition throttledNet : Azure.Network :=
  fun w req =>
    if (fetches w =? 0)%nat
    then Azure.Responds
           (Azure.mkResponse
              429 None (Some 2)
              (inl (mkError (lit "SyntaxError")
                            (lit "Unexpected end of JSON input") false None None))
              (inr []))
    else upperNet w req.

(** A service that answers every request with status 200 and an empty
    array. *)
Definition emptyBodyNet : Azure.Network :=
  fun _ _ => Azure.Responds (jsonAnswer 200 (JArr [])).

(** A service that answers every request with status 500 and the JSON
    body [null]. *)
Definition nullBodyNet : Azure.Network :=
  fun _ _ => Azure.Responds (jsonAnswer 500 JNull).

(** A service that answers every request with status 200 and the body
    [[null]]. *)
Definition nullItemNet : Azure.Network :=
  fun _ _ => Azure.Responds (jsonAnswer 200 (JArr [JNull])).

(** A service whose translations carry no [text]. *)
Definition textlessNet : Azure.Network :=
  fun _ req =>
    Azure.Responds
      (jsonAnswer 200
         (JArr [JObj [(lit "translations",
                       JArr [JObj [(lit "to", JStr (req_to req))]])]])).

End Measures.

(* ===================================================================== *)
(** ** Reasoning rules of the monad *)
(* ===================================================================== *)

Section Rules.

Context {A B : Type}.

Lemma spec_ret (a : A) w (Q : Res A -> World -> Prop) :
  Q (Ok a) [] -> spec (ret a) w Q.
Proof. intros H. exists (Ok a), []. auto. Qed.

Lemma spec_throw e w (Q : Res A -> World -> Prop) :
  Q (Throw e) [] -> spec (throw e) w Q.
Proof. intros H. exists (Throw e), []. auto. Qed.

Lemma spec_weaken (m : M A) w (Q Q' : Res A -> World -> Prop) :
  spec m w Q -> (forall r d, Q r d -> Q' r d) -> spec m w Q'.
Proof. intros (r & d & E & H) HQ. exists r, d. auto. Qed.

Lemma spec_bind (m : M A) (k : A -> M B) w
      (Q1 : Res A -> World -> Prop) (Q : Res B -> World -> Prop) :
  spec m w Q1 ->
  (forall a d, Q1 (Ok a) d -> spec (k a) (d ++ w) (fun r d' => Q r (d' ++ d))) ->
  (forall e d, Q1 (Throw e) d -> Q (Throw e) d) ->
  (forall d, Q1 Diverge d -> Q Diverge d) ->
  spec (bind m k) w Q.
Proof.
  intros (r & d & E & H) Hok Hthrow Hdiv. unfold spec, bind. rewrite E.
  destruct r as [a | e |].
  - destruct (Hok a d H) as (r' & d' & E' & H').
    exists r', (d' ++ d). rewrite E', app_assoc. auto.
  - exists (Throw e), d. auto.
  - exists Diverge, d. auto.
Qed.

End Rules.

Section RulesCatch.

Context {A : Type}.

Lemma spec_tryCatch (m : M A) (h : JsError -> M A) w
      (Q1 Q : Res A -> World -> Prop) :
  spec m w Q1 ->
  (forall a d, Q1 (Ok a) d -> Q (Ok a) d) ->
  (forall e d, Q1 (Throw e) d -> spec (h e) (d ++ w) (fun r d' => Q r (d' ++ d))) ->
  (forall d, Q1 Diverge d -> Q Diverge d) ->
  spec (tryCatch m h) w Q.
Proof.
  intros (r & d & E & H) Hok Hthrow Hdiv. unfold spec, tryCatch. rewrite E.
  destruct r as [a | e |].
  - exists (Ok a), d. auto.
  - destruct (Hthrow e d H) as (r' & d' & E' & H').
    exists r', (d' ++ d). rewrite E', app_assoc. auto.
  - exists Diverge, d. auto.
Qed.

End RulesCatch.

Lemma spec_emit e w (Q : Res unit -> World -> Prop) :
  Q (Ok tt) [e] -> spec (emit e) w Q.
Proof. intros H. exists (Ok tt), [e]. auto. Qed.

(** A read leaves the world alone and does not diverge. *)
Lemma spec_lift {A} (m : Read A) w :
  spec (lift m) w
       (fun r d =>
          d = [] /\
          match m with
          | inl e => r = Throw e
          | inr a => r = Ok a
          end).
Proof. destruct m as [e | a]; [exists (Throw e), [] | exists (Ok a), []]; auto. Qed.

Lemma encodeLanguages_run toLang fromLang w :
  Azure.encodeLanguages toLang fromLang w
  = (if Measures.encodableLanguages toLang fromLang
     then Ok tt else Throw uriMalformed, w).
Proof.
  unfold Azure.encodeLanguages, Measures.encodableLanguages,
    encodeURIComponent, bind.
  destruct (encodable toLang); [| reflexivity]. simpl.
  destruct (truthy fromLang); [| reflexivity]. simpl.
  destruct (encodable fromLang); reflexivity.
Qed.

Lemma spec_encodeLanguages toLang fromLang w :
  spec (Azure.encodeLanguages toLang fromLang) w
       (fun r d => d = [] /\ halts (fun _ => True) r).
Proof.
  exists (if Measures.encodableLanguages toLang fromLang
          then Ok tt else Throw uriMalformed), [].
  split; [apply encodeLanguages_run |].
  destruct (Measures.encodableLanguages toLang fromLang); simpl; auto.
Qed.

(** Two facts about the same run hold together. *)
Lemma spec_and {A} (m : M A) w (Q1 Q2 : Res A -> World -> Prop) :
  spec m w Q1 -> spec m w Q2 -> spec m w (fun r d => Q1 r d /\ Q2 r d).
Proof.
  intros (r & d & E & H1) (r' & d' & E' & H2).
  rewrite E in E'. inversion E' as [[Hr Hd]]. subst r'.
  apply app_inv_tail in Hd. subst d'.
  exists r, d. auto.
Qed.

Lemma spec_run {A} (m : M A) w (Q : Res A -> World -> Prop) r w' :
  spec m w Q -> m w = (r, w') -> exists d, w' = d ++ w /\ Q r d.
Proof.
  intros (r0 & d & E & H) E'. rewrite E in E'. inversion E'; subst. eauto.
Qed.

Lemma silent_progressOnly d : silent d -> progressOnly d.
Proof.
  unfold silent, progressOnly. apply Forall_impl.
  intros [ev | | | |]; tauto.
Qed.

Lemma silent_app d d' : silent d -> silent d' -> silent (d ++ d').
Proof. unfold silent. intros. apply Forall_app; auto. Qed.

Lemma progressOnly_app d d' :
  progressOnly d -> progressOnly d' -> progressOnly (d ++ d').
Proof. unfold progressOnly. intros. apply Forall_app; auto. Qed.

Lemma silent_nil : silent [].
Proof. constructor. Qed.

Lemma progressOnly_nil : progressOnly [].
Proof. constructor. Qed.

Lemma silent_slept ms : silent [Slept ms].
Proof. repeat constructor. Qed.

Lemma progressOnly_sent ev : ev_type ev = progress -> progressOnly [Sent ev].
Proof. intros H. repeat constructor. exact H. Qed.

Create HintDb trace.

#[local] Hint Resolve silent_nil progressOnly_nil silent_slept silent_app
  progressOnly_app silent_progressOnly progressOnly_sent : trace.

Lemma silent_fetched req : silent [Fetched req].
Proof. repeat constructor. Qed.

Lemma silent_invoked a b c : silent [Invoked a b c].
Proof. repeat constructor. Qed.

#[local] Hint Resolve silent_fetched silent_invoked : trace.

Lemma progressOnly_cons ev d :
  ev_type ev = progress -> progressOnly d -> progressOnly (Sent ev :: d).
Proof. intros H Hd. constructor; assumption. Qed.

(** Deltas built from frames of type [progress] and silent pieces. *)
Ltac progress_trace :=
  repeat first
    [ assumption
    | apply progressOnly_nil
    | apply progressOnly_app
    | apply progressOnly_cons; [reflexivity |]
    | apply progressOnly_sent; reflexivity
    | apply silent_progressOnly; solve [auto with trace] ].

(* ===================================================================== *)
(** ** The Azure client neither diverges nor writes to the stream *)
(* ===================================================================== *)

Section AzureFacts.

Variable net : Azure.Network.
Variable config : Azure.AzureTranslatorConfig.

Lemma spec_fetch req w :
  spec (Azure.fetch net req) w
       (fun r d => d = [Fetched req] /\ halts (fun _ => True) r).
Proof.
  unfold spec, Azure.fetch. destruct (net w req) as [e | r].
  - exists (Throw e), [Fetched req]. simpl. auto.
  - exists (Ok r), [Fetched req]. simpl. auto.
Qed.

Lemma makeRequestFrom_halts n : forall req attempt w,
  Azure.maxRetries config - attempt <= Z.of_nat n ->
  spec (Azure.makeRequestFrom net config n req attempt) w
       (fun r d => silent d /\ halts (fun _ => True) r).
Proof.
  induction n as [| n IH]; intros req attempt w Hn.
  - simpl. eapply spec_tryCatch.
    + eapply spec_bind with (Q := fun r d => silent d /\ halts (fun _ => True) r).
      * apply spec_fetch.
      * intros r d [-> _]. destruct (negb (Azure.ok r)).
        -- apply spec_throw. simpl. auto with trace.
        -- apply spec_ret. simpl. auto with trace.
      * intros e d [-> _]. simpl. auto with trace.
      * intros d [_ []].
    + intros a d H. exact H.
    + intros e d [Hs _].
      destruct (str_eqb (name e) (lit "AbortError")).
      { apply spec_throw. simpl. auto. }
      replace (attempt <? Azure.maxRetries config) with false
        by (symmetry; apply Z.ltb_ge; lia).
      rewrite andb_false_r.
      destruct (isAzure e); apply spec_throw; simpl; auto.
    + intros d [_ []].
  - simpl. eapply spec_tryCatch.
    + eapply spec_bind with (Q := fun r d => silent d /\ halts (fun _ => True) r).
      * apply spec_fetch.
      * intros r d [-> _]. destruct (negb (Azure.ok r)).
        -- apply spec_throw. simpl. auto with trace.
        -- apply spec_ret. simpl. auto with trace.
      * intros e d [-> _]. simpl. auto with trace.
      * intros d [_ []].
    + intros a d H. exact H.
    + intros e d [Hs _].
      destruct (str_eqb (name e) (lit "AbortError")).
      { apply spec_throw. simpl. auto. }
      destruct (Azure.isRetryableError e && (attempt <? Azure.maxRetries config)).
      * eapply spec_bind with (Q1 := fun r d => d = [Slept (Azure.calculateBackoffDelay config attempt)] /\ r = Ok tt).
        -- apply spec_emit. auto.
        -- intros [] d' [-> _].
           eapply spec_weaken; [apply IH; lia |].
           intros r d' [Hs' Hr]. split; auto.
           rewrite <- app_assoc. auto with trace.
        -- intros e' d' [_ Habs]. discriminate.
        -- intros d' [_ Habs]. discriminate.
      * destruct (isAzure e); apply spec_throw; simpl; auto.
    + intros d [_ []].
Qed.

Lemma translateText_halts text toLang fromLang w :
  spec (Azure.translateText net config text toLang fromLang) w
       (fun r d => silent d /\ halts (fun _ => True) r).
Proof.
  unfold Azure.translateText.
  eapply spec_bind with (Q1 := fun r d => d = [Invoked text toLang fromLang] /\ r = Ok tt).
  - apply spec_emit. auto.
  - intros [] d [-> _].
    destruct (negb (truthy (trim text))); [apply spec_throw; simpl; auto with trace |].
    destruct (negb (truthy toLang)); [apply spec_throw; simpl; auto with trace |].
    destruct (Azure.batchCharacterLimit config <? len text);
      [apply spec_throw; simpl; auto with trace |].
    eapply spec_bind; [apply spec_encodeLanguages | | |].
    + intros [] d0 [-> _].
      eapply spec_tryCatch
        with (Q1 := fun r d => silent d /\ halts (fun _ => True) r).
      * eapply spec_bind.
        -- apply makeRequestFrom_halts. lia.
        -- intros resp d [Hs _]. unfold Azure.responseJson.
           eapply spec_bind; [apply spec_lift | | |].
           ++ intros data d' [-> _].
              eapply spec_weaken; [apply spec_lift |].
              intros r d' [-> Hr]. simpl. split; [auto with trace |].
              destruct (Azure.readTranslation data); subst r; exact I.
           ++ intros e d' [-> _]. simpl. auto with trace.
           ++ intros d' [_ Hr]. destruct (Azure.jsonBody resp); discriminate.
        -- intros e d [Hs _]. simpl. auto.
        -- intros d [_ []].
      * intros a d' [Hs Hr]. split; auto with trace.
      * intros e d' [Hs _].
        destruct (isAzure e); apply spec_throw; simpl; split; auto with trace.
      * intros d' [_ []].
    + intros e d0 [-> _]. simpl. auto with trace.
    + intros d0 [_ []].
  - intros e d [_ Habs]. discriminate.
  - intros d [_ Habs]. discriminate.
Qed.

End AzureFacts.

(* ===================================================================== *)
(** ** The row executor *)
(* ===================================================================== *)

Section ExecutorFacts.

Variable net : Azure.Network.

Lemma spec_pause (b : bool) ms w :
  spec (if b then sleep ms else ret tt) w (fun r d => silent d /\ r = Ok tt).
Proof.
  destruct b.
  - apply spec_emit. auto with trace.
  - apply spec_ret. auto with trace.
Qed.

Lemma spec_translate text toLang fromLang w :
  spec (Route.azureTranslator_translateText net text toLang fromLang) w
       (fun r d =>
          silent d /\
          match r with
          | Ok tr =>
              Route.azureTranslator_translateText net text toLang fromLang w
              = (Ok tr, d ++ w)
          | Throw _ => True
          | Diverge => False
          end).
Proof.
  destruct (translateText_halts net Azure.defaultConfig text toLang fromLang w)
    as (r & d & E & Hs & Hr).
  exists r, d. split; [exact E |]. split; [exact Hs |].
  destruct r; auto.
Qed.

Lemma retryLoop_returns n : forall text fromLang toLang maxRetries attempt w,
  maxRetries - attempt + 1 <= Z.of_nat n ->
  spec (Route.retryLoop net n text fromLang toLang maxRetries attempt) w
       (fun r d => silent d /\ returns (retried net text fromLang toLang) r).
Proof.
  induction n as [| n IH]; intros text fromLang toLang maxRetries attempt w Hn;
    simpl; destruct (attempt <=? maxRetries) eqn:Hle;
    try (apply spec_ret; split; [auto with trace | left; reflexivity]).
  - apply Z.leb_le in Hle. lia.
  - eapply spec_bind
      with (Q1 := fun r d =>
              silent d /\
              returns (fun o => match o with
                                | Some v => retried net text fromLang toLang v
                                | None => attempt <> maxRetries
                                end) r).
    + eapply spec_tryCatch
        with (Q1 := fun r d =>
                silent d /\
                halts (fun o => exists v, o = Some v
                                          /\ retried net text fromLang toLang v) r).
      * eapply spec_bind; [apply spec_pause | | |].
        -- intros [] d [Hd _].
           eapply spec_bind; [apply spec_translate | | |].
           ++ intros tr d' [Hd' E]. apply spec_ret. simpl.
              split; [auto with trace |].
              eexists; split; [reflexivity |]. right. eauto.
           ++ intros e d' [Hd' _]. simpl. auto with trace.
           ++ intros d' [_ []].
        -- intros e d [_ Habs]. discriminate.
        -- intros d [_ Habs]. discriminate.
      * intros o d [Hd (v & -> & Hv)]. simpl. auto.
      * intros e d [Hd _].
        destruct (attempt =? maxRetries) eqn:Heq.
        -- apply spec_ret. simpl. split; [auto with trace | left; reflexivity].
        -- eapply spec_bind; [apply spec_pause | | |].
           ++ intros [] d' [Hd' _]. apply spec_ret. simpl.
              split; [auto with trace |]. apply Z.eqb_neq. exact Heq.
           ++ intros e' d' [_ Habs]. discriminate.
           ++ intros d' [_ Habs]. discriminate.
      * intros d [_ []].
    + intros [v |] d [Hd Ho].
      * apply spec_ret. simpl. auto with trace.
      * eapply spec_weaken; [apply IH; lia |].
        intros r d' [Hd' Hr]. auto with trace.
    + intros e d [_ []].
    + intros d [_ []].
Qed.

Lemma translateTextWithRetry_returns text fromLang toLang maxRetries w :
  spec (Route.translateTextWithRetry net text fromLang toLang maxRetries) w
       (fun r d => silent d /\ returns (retried net text fromLang toLang) r).
Proof.
  unfold Route.translateTextWithRetry. destruct (Route.isBlank text).
  - apply spec_ret. split; [auto with trace | left; reflexivity].
  - apply retryLoop_returns. lia.
Qed.

Variable config : CSVTranslationConfig.

Lemma translateCell_spec colIndex cell w :
  spec (Route.translateCell net config colIndex cell) w
       (fun r d =>
          silent d /\
          match r with
          | Ok v => cellOutcome net config colIndex cell v
          | Throw _ => columnMappings config = None
          | Diverge => False
          end).
Proof.
  unfold Route.translateCell, Route.findMapping, cellOutcome, targetOf.
  destruct (columnMappings config) as [mappings |].
  - eapply spec_bind
      with (Q1 := fun r d =>
              d = [] /\
              r = Ok (find (fun mapping => columnIndex mapping =? colIndex) mappings)).
    + apply spec_ret. auto.
    + intros m d [-> Hm]. inversion Hm; subst. clear Hm.
      destruct (Route.translationTarget
                  (find (fun mapping => columnIndex mapping =? colIndex) mappings))
        as [toLang |] eqn:Ht.
      * eapply spec_tryCatch
          with (Q1 := fun r d =>
                  silent d /\
                  returns (fun v =>
                             v = str cell \/
                             Route.isBlank cell = false /\
                             retried net cell (sourceLanguage config) toLang v) r).
        -- destruct (Route.isBlank cell) eqn:Hb.
           ++ apply spec_ret. simpl. auto with trace.
           ++ eapply spec_weaken; [apply translateTextWithRetry_returns |].
              intros [v | e |] d [Hd Hr]; simpl in *; auto.
        -- intros v d [Hd Hv]. simpl in Hv. split; [auto with trace |].
           destruct Hv as [-> | [Hb [-> | (w1 & tr & w2 & E & ->)]]]; auto.
           right. exists toLang, w1, tr, w2. auto.
        -- intros e d [_ []].
        -- intros d [_ []].
      * apply spec_ret. auto with trace.
    + intros e d [_ Habs]. discriminate.
    + intros d [_ Habs]. discriminate.
  - eapply spec_bind with (Q1 := fun r d => d = [] /\ exists e, r = Throw e).
    + apply spec_throw. eauto.
    + intros a d [_ [e Habs]]. discriminate.
    + intros e d [-> _]. auto with trace.
    + intros d [_ [e Habs]]. discriminate.
Qed.

Lemma translateColumns_spec cells : forall colIndex acc w,
  spec (Route.translateColumns net config cells colIndex acc) w
       (fun r d =>
          silent d /\
          halts (fun out => exists outs,
                     out = acc ++ outs
                     /\ cellsOutcome net config colIndex cells outs) r).
Proof.
  induction cells as [| cell rest IH]; intros colIndex acc w; simpl.
  - apply spec_ret. simpl. split; [auto with trace |].
    exists []. rewrite app_nil_r. auto.
  - eapply spec_bind; [apply translateCell_spec | | |].
    + intros v d [Hd Hv].
      eapply spec_weaken; [apply IH |].
      intros [out | e |] d' [Hd' Hr]; simpl in *; split; auto with trace.
      destruct Hr as (outs & -> & Houts).
      exists (v :: outs). rewrite <- app_assoc. simpl. auto.
    + intros e d [Hd _]. simpl. auto.
    + intros d [_ []].
Qed.

Lemma cellsOutcome_refl cells : forall colIndex,
  cellsOutcome net config colIndex cells (plain cells).
Proof.
  induction cells as [| c cs IH]; intros colIndex; simpl; auto.
  split; [left; reflexivity | apply IH].
Qed.

Lemma cellsOutcome_length cells : forall colIndex outs,
  cellsOutcome net config colIndex cells outs ->
  List.length outs = List.length cells.
Proof.
  induction cells as [| c cs IH]; intros colIndex [| o os] H; simpl in *;
    try tauto.
  destruct H as [_ H]. f_equal. eapply IH; eauto.
Qed.

Lemma processRow_spec batchStartIndex rowIndex row st w :
  spec (Route.processRow net config batchStartIndex rowIndex row st) w
       (fun r d =>
          progressOnly d /\
          returns (fun st' => exists out,
                       Route.results st' = Route.results st ++ [out]
                       /\ rowOutcome net config row out) r).
Proof.
  unfold Route.processRow.
  eapply spec_bind
    with (Q1 := fun r d =>
            silent d /\
            returns (fun st' => exists out,
                         Route.results st' = Route.results st ++ [out]
                         /\ rowOutcome net config row out) r).
  - eapply spec_tryCatch
      with (Q1 := fun r d =>
              silent d /\
              halts (fun st' => exists out,
                         Route.results st' = Route.results st ++ [out]
                         /\ rowOutcome net config row out) r).
    + eapply spec_bind; [apply translateColumns_spec | | |].
      * intros out d [Hd (outs & -> & Houts)]. apply spec_ret. simpl.
        split; [auto with trace |]. exists outs. auto.
      * intros e d [Hd _]. simpl. auto.
      * intros d [_ []].
    + intros a d H. exact H.
    + intros e d [Hd _]. apply spec_ret. simpl. split; [auto with trace |].
      exists (plain row). split; [reflexivity | apply cellsOutcome_refl].
    + intros d [_ []].
  - intros st' d [Hd Hst].
    eapply spec_bind
      with (Q1 := fun r d => progressOnly d /\ r = Ok tt).
    + destruct ((rowIndex + 1) mod 10 =? 0).
      * apply spec_emit. auto with trace.
      * apply spec_ret. auto with trace.
    + intros [] d' [Hd' _]. apply spec_ret. simpl. auto 6 with trace.
    + intros e d' [_ Habs]. discriminate.
    + intros d' [_ Habs]. discriminate.
  - intros e d [_ []].
  - intros d [_ []].
Qed.

Lemma processRows_spec batchStartIndex rows : forall rowIndex st w,
  spec (Route.processRows net config batchStartIndex rows rowIndex st) w
       (fun r d =>
          progressOnly d /\
          returns (fun st' => exists outs,
                       Route.results st' = Route.results st ++ outs
                       /\ rowsOutcome net config rows outs) r).
Proof.
  induction rows as [| row rest IH]; intros rowIndex st w; simpl.
  - apply spec_ret. simpl. split; [auto with trace |].
    exists []. rewrite app_nil_r. split; [reflexivity | constructor].
  - eapply spec_bind; [apply processRow_spec | | |].
    + intros st1 d [Hd (out & E1 & Hout)].
      eapply spec_weaken; [apply IH |].
      intros [st2 | e |] d' [Hd' Hr]; simpl in *; try tauto.
      split; [auto with trace |].
      destruct Hr as (outs & E2 & Houts).
      exists (out :: outs). rewrite E2, E1, <- app_assoc.
      split; [reflexivity | constructor; assumption].
    + intros e d [_ []].
    + intros d [_ []].
Qed.

Lemma processBatchWithRecovery_spec batch batchStartIndex w :
  spec (Route.processBatchWithRecovery net batch batchStartIndex config) w
       (fun r d => progressOnly d /\ returns (rowsOutcome net config batch) r).
Proof.
  unfold Route.processBatchWithRecovery.
  eapply spec_bind; [apply processRows_spec | | |].
  - intros st d [Hd (outs & E & Houts)]. simpl in E. subst.
    eapply spec_bind with (Q1 := fun r d => progressOnly d /\ r = Ok tt).
    + destruct (0 <? Route.failedRows st).
      * apply spec_emit. auto with trace.
      * apply spec_ret. auto with trace.
    + intros [] d' [Hd' _]. apply spec_ret. simpl.
      auto with trace.
    + intros e d' [_ Habs]. discriminate.
    + intros d' [_ Habs]. discriminate.
  - intros e d [_ []].
  - intros d [_ []].
Qed.

End ExecutorFacts.

(* ===================================================================== *)
(** ** The batch loop as a pure iteration *)
(* ===================================================================== *)

Section LoopFacts.

Lemma ceilDiv_nonpos n b : n <= 0 -> 1 <= b -> ceilDiv n b <= 0.
Proof.
  intros Hn Hb. unfold ceilDiv.
  assert (0 <= (- n) / b) by (apply Z.div_pos; lia). lia.
Qed.

Lemma ceilDiv_zero b : ceilDiv 0 b = 0.
Proof. unfold ceilDiv. change (- 0) with 0. rewrite Zdiv_0_l. reflexivity. Qed.

Lemma ceilDiv_step n b : 1 <= b -> ceilDiv (n - b) b = ceilDiv n b - 1.
Proof.
  intros Hb. unfold ceilDiv.
  replace (- (n - b)) with (- n + 1 * b) by lia.
  rewrite Z.div_add by lia. lia.
Qed.

Lemma ceilDiv_pos n b : 0 < n -> 1 <= b -> 1 <= ceilDiv n b.
Proof.
  intros Hn Hb. unfold ceilDiv.
  assert ((- n) / b < 0) by (apply Z.div_lt_upper_bound; lia). lia.
Qed.

Lemma strides_succ i step count :
  strides i step (S count) = i :: strides (i + step) step count.
Proof.
  unfold strides. simpl. f_equal; [lia |].
  rewrite <- seq_shift, map_map. apply map_ext. intros k. lia.
Qed.

Lemma loopIndices_strides fuel : forall limit step i,
  1 <= step ->
  limit - i <= Z.of_nat fuel ->
  Route.loopIndices fuel limit step i
  = Some (strides i step (Z.to_nat (ceilDiv (limit - i) step))).
Proof.
  induction fuel as [| f IH]; intros limit step i Hstep Hfuel; simpl.
  - replace (i <? limit) with false by (symmetry; apply Z.ltb_ge; lia).
    pose proof (ceilDiv_nonpos (limit - i) step ltac:(lia) Hstep).
    replace (Z.to_nat (ceilDiv (limit - i) step)) with O by lia.
    reflexivity.
  - destruct (i <? limit) eqn:Hlt.
    + apply Z.ltb_lt in Hlt.
      rewrite IH by lia. simpl.
      replace (limit - (i + step)) with (limit - i - step) by lia.
      rewrite ceilDiv_step by lia.
      pose proof (ceilDiv_pos (limit - i) step ltac:(lia) Hstep).
      replace (Z.to_nat (ceilDiv (limit - i) step))
        with (S (Z.to_nat (ceilDiv (limit - i) step - 1))) by lia.
      rewrite strides_succ. reflexivity.
    + apply Z.ltb_ge in Hlt.
      pose proof (ceilDiv_nonpos (limit - i) step ltac:(lia) Hstep).
      replace (Z.to_nat (ceilDiv (limit - i) step)) with O by lia.
      reflexivity.
Qed.

(** With a step that is not positive the loop never ends once entered. *)
Lemma loopIndices_stuck fuel : forall limit step i,
  step <= 0 -> i < limit -> Route.loopIndices fuel limit step i = None.
Proof.
  induction fuel as [| f IH]; intros limit step i Hstep Hlt; simpl;
    replace (i <? limit) with true by (symmetry; apply Z.ltb_lt; lia).
  - reflexivity.
  - rewrite IH by lia. reflexivity.
Qed.

Context {A : Type}.

Lemma slice_inside (rows : list A) i b :
  0 <= i -> 1 <= b ->
  slice rows i (i + b)
  = firstn (Z.to_nat b) (skipn (Z.to_nat i) rows).
Proof.
  intros Hi Hb. unfold slice, relIndex.
  replace (i <? 0) with false by (symmetry; apply Z.ltb_ge; lia).
  replace (i + b <? 0) with false by (symmetry; apply Z.ltb_ge; lia).
  set (n := len rows).
  assert (Hn : 0 <= n) by (unfold n, len; lia).
  destruct (Z.le_gt_cases n i) as [Hge | Hlt].
  - rewrite !skipn_all2; [now rewrite !firstn_nil | |];
      unfold n, len in *; lia.
  - rewrite (Z.min_l i n) by lia.
    destruct (Z.le_gt_cases (i + b) n) as [Hfit | Hover].
    + rewrite Z.min_l by lia. f_equal. lia.
    + rewrite Z.min_r by lia.
      rewrite !firstn_all2; [reflexivity | |];
        rewrite length_skipn; unfold n, len in *; lia.
Qed.

Lemma slice_then_rest (rows : list A) i b :
  0 <= i -> 1 <= b ->
  slice rows i (i + b) ++ skipn (Z.to_nat (i + b)) rows
  = skipn (Z.to_nat i) rows.
Proof.
  intros Hi Hb. rewrite slice_inside by assumption.
  replace (Z.to_nat (i + b)) with (Z.to_nat b + Z.to_nat i)%nat by lia.
  rewrite <- skipn_skipn. apply firstn_skipn.
Qed.

Lemma strides_cover (rows : list A) b count : forall i,
  0 <= i -> 1 <= b ->
  len rows - i <= Z.of_nat count * b ->
  List.concat (List.map (fun j => slice rows j (j + b)) (strides i b count))
  = skipn (Z.to_nat i) rows.
Proof.
  induction count as [| c IH]; intros i Hi Hb Hcount.
  - simpl. rewrite skipn_all2; [reflexivity | unfold len in *; lia].
  - rewrite strides_succ. simpl. rewrite IH by lia.
    apply slice_then_rest; assumption.
Qed.

Lemma ceilDiv_covers n b : 1 <= b -> n <= ceilDiv n b * b.
Proof.
  intros Hb. unfold ceilDiv.
  pose proof (Z.div_mod (- n) b ltac:(lia)).
  pose proof (Z.mod_pos_bound (- n) b ltac:(lia)). nia.
Qed.


End LoopFacts.

(* ===================================================================== *)
(** ** The orchestrator *)
(* ===================================================================== *)

Section RulesSeq.

Context {A B : Type}.

Lemma spec_bind_ret (a : A) (k : A -> M B) w Q :
  spec (k a) w Q -> spec (bind (ret a) k) w Q.
Proof. unfold spec, bind, ret. auto. Qed.

Lemma spec_bind_throw e (k : A -> M B) w (Q : Res B -> World -> Prop) :
  Q (Throw e) [] -> spec (bind (throw e) k) w Q.
Proof. intros H. exists (Throw e), []. auto. Qed.

End RulesSeq.

Lemma spec_bind_emit {B} e (k : unit -> M B) w (Q : Res B -> World -> Prop) :
  spec (k tt) (e :: w) (fun r d => Q r (d ++ [e])) -> spec (bind (emit e) k) w Q.
Proof.
  intros (r & d & E & H). exists r, (d ++ [e]).
  unfold bind, emit. rewrite E, <- app_assoc. auto.
Qed.

Section OrchestratorFacts.

Variable net : Azure.Network.
Variable CSV_CONFIG : CsvConfig.

Lemma forLoop_follows {S} (Inv : list Z -> S -> Prop) body limit step :
  (forall i s w done,
      Inv done s ->
      spec (body i s) w
           (fun r d => progressOnly d /\ returns (Inv (done ++ [i])) r)) ->
  forall fuel i idx,
    Route.loopIndices fuel limit step i = Some idx ->
    forall s w done,
      Inv done s ->
      spec (Route.forLoop fuel limit step body i s) w
           (fun r d => progressOnly d /\ returns (Inv (done ++ idx)) r).
Proof.
  intros Hbody. induction fuel as [| f IH]; intros i idx Hidx s w done Hinv;
    simpl in *; destruct (i <? limit).
  - discriminate.
  - inversion Hidx; subst. apply spec_ret. simpl. rewrite app_nil_r.
    auto with trace.
  - destruct (Route.loopIndices f limit step (i + step)) as [rest |] eqn:Hrest;
      [| discriminate].
    inversion Hidx; subst. clear Hidx.
    eapply spec_bind; [apply Hbody; eassumption | | |].
    + intros s' d [Hd Hs'].
      eapply spec_weaken; [eapply IH; eassumption |].
      intros r d' [Hd' Hr]. split; [auto with trace |].
      rewrite <- app_assoc in Hr. exact Hr.
    + intros e d [_ []].
    + intros d [_ []].
  - inversion Hidx; subst. apply spec_ret. simpl. rewrite app_nil_r.
    auto with trace.
Qed.

Lemma forLoop_diverges {S} (body : Z -> S -> M S) limit step :
  (forall i s w,
      spec (body i s) w (fun r d => progressOnly d /\ returns (fun _ => True) r)) ->
  forall fuel i,
    Route.loopIndices fuel limit step i = None ->
    forall s w,
      spec (Route.forLoop fuel limit step body i s) w
           (fun r d => progressOnly d /\ r = Diverge).
Proof.
  intros Hbody. induction fuel as [| f IH]; intros i Hidx s w;
    simpl in *; destruct (i <? limit); try discriminate.
  - exists Diverge, []. auto with trace.
  - destruct (Route.loopIndices f limit step (i + step)) eqn:Hrest;
      [discriminate |].
    eapply spec_bind; [apply Hbody | | |].
    + intros s' d [Hd _].
      eapply spec_weaken; [apply IH; assumption |].
      intros r d' [Hd' Hr]. auto with trace.
    + intros e d [_ []].
    + intros d [_ []].
Qed.

Variable config : CSVTranslationConfig.

Lemma batchFailed_spec totalRows totalBatches batch current st e w :
  spec (Route.batchFailed totalRows totalBatches batch current st e) w
       (fun r d =>
          progressOnly d /\
          returns (fun st' =>
                     Route.translatedRows st'
                     = Route.translatedRows st ++ List.map plain batch
                     /\ Route.processedRows st' = Route.processedRows st + len batch
                     /\ Route.currentBatch st' = current
                     /\ Route.failedBatches st' = Route.failedBatches st ++ [current])
                  r).
Proof.
  unfold Route.batchFailed, Route.sendEvent.
  apply spec_bind_emit. apply spec_ret. cbv beta.
  split; [progress_trace | simpl; auto].
Qed.

Lemma runBatch_spec totalRows totalBatches batch i current st w :
  spec (Route.runBatch net config totalRows totalBatches batch i current st) w
       (fun r d =>
          progressOnly d /\
          returns (fun st' => exists outs,
                       Route.translatedRows st' = Route.translatedRows st ++ outs
                       /\ rowsOutcome net config batch outs
                       /\ Route.processedRows st' = Route.processedRows st + len batch
                       /\ Route.currentBatch st' = current
                       /\ Route.failedBatches st' = Route.failedBatches st) r).
Proof.
  unfold Route.runBatch, Route.sendEvent.
  apply spec_bind_emit.
  eapply spec_bind; [apply processBatchWithRecovery_spec | | |].
  - intros outs d [Hd Houts]. simpl in Houts.
    apply spec_bind_emit. apply spec_ret. cbv beta.
    split; [progress_trace | exists outs; simpl; auto].
  - intros e d [_ []].
  - intros d [_ []].
Qed.

Lemma rowsOutcome_refl rows :
  rowsOutcome net config rows (List.map plain rows).
Proof.
  induction rows; constructor; auto.
  apply cellsOutcome_refl.
Qed.

Lemma rowsOutcome_length rows outs :
  rowsOutcome net config rows outs -> sameShape rows outs.
Proof.
  unfold rowsOutcome, sameShape. apply Forall2_impl.
  intros row out H. eapply cellsOutcome_length. exact H.
Qed.

Lemma batchBody_spec csvRows totalRows batchSize totalBatches i st w done :
  loopInvariant net config csvRows batchSize done st ->
  spec (Route.batchBody net config csvRows totalRows batchSize totalBatches i st) w
       (fun r d =>
          progressOnly d /\
          returns (loopInvariant net config csvRows batchSize (done ++ [i])) r).
Proof.
  intros (Hrows & Hproc & Hcur). unfold Route.batchBody.
  eapply spec_bind; [apply spec_pause | | |].
  - intros [] d [Hd _]. unfold Route.sendEvent at 1. apply spec_bind_emit.
    eapply spec_tryCatch
      with (Q1 := fun r d =>
              progressOnly d /\
              returns (loopInvariant net config csvRows batchSize (done ++ [i])) r).
    + eapply spec_weaken; [apply runBatch_spec |].
      intros [st' | e |] d' [Hd' Hr]; simpl in *; try tauto.
      split; [assumption |].
      destruct Hr as (outs & Hout & Houts & Hp & Hc & _).
      unfold loopInvariant, batchesAt in *.
      rewrite map_app, concat_app. simpl. rewrite app_nil_r.
      rewrite Hout, Hp, Hc, Hproc, Hcur. unfold len.
      rewrite !length_app. simpl.
      split; [apply Forall2_app; assumption |]. lia.
    + intros st' d' [Hd' Hr]. split; [progress_trace | exact Hr].
    + intros e d' [_ []].
    + intros d' [_ []].
  - intros e d [_ Habs]. discriminate.
  - intros d [_ Habs]. discriminate.
Qed.

Lemma batchBody_returns csvRows totalRows batchSize totalBatches i st w :
  spec (Route.batchBody net config csvRows totalRows batchSize totalBatches i st) w
       (fun r d => progressOnly d /\ returns (fun _ => True) r).
Proof.
  unfold Route.batchBody.
  eapply spec_bind; [apply spec_pause | | |].
  - intros [] d [Hd _]. unfold Route.sendEvent at 1. apply spec_bind_emit.
    eapply spec_tryCatch
      with (Q1 := fun r d => progressOnly d /\ returns (fun _ => True) r).
    + eapply spec_weaken; [apply runBatch_spec |].
      intros [st' | e |] d' [Hd' Hr]; simpl in *; tauto.
    + intros st' d' [Hd' Hr]. split; [progress_trace | exact Hr].
    + intros e d' [_ []].
    + intros d' [_ []].
  - intros e d [_ Habs]. discriminate.
  - intros d [_ Habs]. discriminate.
Qed.

End OrchestratorFacts.

Section RunFacts.

Variable net : Azure.Network.
Variable CSV_CONFIG : CsvConfig.

Lemma len_nonneg {A} (l : list A) : 0 <= len l.
Proof. unfold len. lia. Qed.

Lemma ceilDiv_nonneg n b : 0 <= n -> 1 <= b -> 0 <= ceilDiv n b.
Proof.
  intros Hn Hb. destruct (Z.eq_dec n 0) as [-> | Hne].
  - rewrite ceilDiv_zero. lia.
  - pose proof (ceilDiv_pos n b ltac:(lia) Hb). lia.
Qed.

Lemma strides_length i step count : List.length (strides i step count) = count.
Proof. unfold strides. rewrite length_map, length_seq. reflexivity. Qed.

Lemma batchesAt_all (csvRows : list Row) b :
  1 <= b ->
  batchesAt csvRows b (strides 0 b (Z.to_nat (ceilDiv (len csvRows) b)))
  = csvRows.
Proof.
  intros Hb. unfold batchesAt.
  rewrite strides_cover; [reflexivity | lia | assumption |].
  pose proof (ceilDiv_covers (len csvRows) b Hb).
  pose proof (ceilDiv_nonneg (len csvRows) b (len_nonneg csvRows) Hb).
  rewrite Z2Nat.id by assumption. lia.
Qed.

Lemma batchLoop_spec fuel config (csvRows : list Row) b totalBatches w :
  1 <= b ->
  (List.length csvRows <= fuel)%nat ->
  spec (Route.batchLoop net fuel config csvRows (len csvRows) b totalBatches) w
       (fun r d =>
          progressOnly d /\
          returns (fun st =>
                     rowsOutcome net config csvRows (Route.translatedRows st)
                     /\ Route.processedRows st = len csvRows
                     /\ Route.currentBatch st = ceilDiv (len csvRows) b) r).
Proof.
  intros Hb Hfuel. unfold Route.batchLoop.
  eapply spec_weaken.
  - eapply forLoop_follows
      with (Inv := loopInvariant net config csvRows b) (done := []).
    + intros i s w0 done Hinv. apply batchBody_spec. exact Hinv.
    + apply loopIndices_strides; [assumption | unfold len; lia].
    + unfold loopInvariant, batchesAt. simpl. split; [constructor | auto].
  - intros [st | e |] d [Hd Hr]; simpl in *; try tauto.
    split; [assumption |].
    replace (len csvRows - 0) with (len csvRows) in Hr by lia.
    destruct Hr as (Hrows & Hproc & Hcur).
    rewrite batchesAt_all in * by assumption.
    repeat split; try assumption.
    rewrite Hcur. unfold len at 1. rewrite strides_length.
    apply Z2Nat.id. apply ceilDiv_nonneg; [apply len_nonneg | assumption].
Qed.

Lemma batchLoop_stuck fuel config (csvRows : list Row) b totalBatches w :
  b <= 0 ->
  csvRows <> [] ->
  spec (Route.batchLoop net fuel config csvRows (len csvRows) b totalBatches) w
       (fun r d => progressOnly d /\ r = Diverge).
Proof.
  intros Hb Hrows. unfold Route.batchLoop.
  apply forLoop_diverges.
  - intros. apply batchBody_returns.
  - apply loopIndices_stuck; [assumption |].
    destruct csvRows; [congruence | unfold len; simpl; lia].
Qed.

(** The run of an accepted request ends with the [complete] frame. *)
Lemma translationRun_accepted fuel request f config w :
  accepted CSV_CONFIG request f config ->
  1 <= Route.effectiveBatchSize CSV_CONFIG config ->
  (List.length (rowsOf f) <= fuel)%nat ->
  spec (Route.translationRun net CSV_CONFIG fuel request) w
       (fun r d =>
          r = Ok tt /\
          exists pre outs,
            d = Sent (Route.completeEvent (len (rowsOf f)) (len (rowsOf f))
                                          (plain (headersOf f) :: outs)) :: pre
            /\ progressOnly pre
            /\ rowsOutcome net config (rowsOf f) outs).
Proof.
  intros (Hwf & Hsize & Hparse) Hb Hfuel. unfold wellFormed in Hwf. subst request.
  unfold Route.translationRun. cbn [Route.file Route.configData].
  do 4 apply spec_bind_ret.
  replace (MAX_FILE_SIZE CSV_CONFIG <? Route.size f) with false
    by (symmetry; apply Z.ltb_ge; assumption).
  apply spec_bind_ret.
  eapply spec_bind
    with (Q1 := fun r d => progressOnly d /\ r = Ok tt).
  - destruct (50 * 1024 * 1024 <? Route.size f);
      [apply spec_emit; split; [progress_trace | reflexivity] |].
    destruct (10 * 1024 * 1024 <? Route.size f);
      [apply spec_emit | apply spec_ret]; split; (progress_trace || reflexivity).
  - intros [] d0 [Hd0 _].
    unfold Route.parsed. rewrite Hparse. apply spec_bind_ret.
    unfold rowsOf, headersOf in *.
    destruct (Route.readRecords (Route.records f)) as [headers csvRows].
    cbn [fst snd] in *.
    unfold Route.sendEvent at 1. apply spec_bind_emit.
    eapply spec_bind; [apply batchLoop_spec; assumption | | |].
    + intros st d1 [Hd1 (Hrows & Hproc & Hcur)].
      eapply spec_bind with (Q1 := fun r d => progressOnly d /\ r = Ok tt).
      * destruct (0 <? len (Route.failedBatches st));
          [apply spec_emit | apply spec_ret]; split; (progress_trace || reflexivity).
      * intros [] d2 [Hd2 _].
        unfold Route.sendEvent at 1. apply spec_bind_emit.
        unfold Route.sendEvent. apply spec_emit.
        split; [reflexivity |].
        eexists. exists (Route.translatedRows st).
        rewrite Hproc. cbn [app].
        split; [reflexivity |].
        split; [progress_trace | assumption].
      * intros e d2 [_ Habs]. discriminate.
      * intros d2 [_ Habs]. discriminate.
    + intros e d1 [_ []].
    + intros d1 [_ []].
  - intros e d0 [_ Habs]. discriminate.
  - intros d0 [_ Habs]. discriminate.
Qed.

(** A request without a file within the size limit and a configuration
    that parses is refused before anything is sent. *)
Lemma translationRun_rejected fuel request w :
  (forall f config, wellFormed request f config ->
                    MAX_FILE_SIZE CSV_CONFIG < Route.size f) ->
  spec (Route.translationRun net CSV_CONFIG fuel request) w
       (fun r d => d = [] /\ exists e, r = Throw e).
Proof.
  intros Hrej. unfold Route.translationRun.
  destruct request as [e | [[f |] [[e | config] |]]]; cbn [Route.file Route.configData];
    try (apply spec_bind_throw; eauto; fail);
    try (apply spec_bind_ret; apply spec_bind_throw; eauto; fail);
    try (do 2 apply spec_bind_ret; apply spec_bind_throw; eauto; fail);
    try (do 3 apply spec_bind_ret; apply spec_bind_throw; eauto; fail).
  do 4 apply spec_bind_ret.
  destruct (MAX_FILE_SIZE CSV_CONFIG <? Route.size f) eqn:Hsize.
  - apply spec_bind_throw. eauto.
  - exfalso. specialize (Hrej f config eq_refl).
    apply Z.ltb_ge in Hsize. lia.
Qed.

(** The run of a request whose file the parser refuses never ends: the
    frames sent before the parser starts are of type [progress], and no
    exception reaches the caller. *)
Lemma translationRun_unparsed fuel request f config w :
  wellFormed request f config ->
  Route.size f <= MAX_FILE_SIZE CSV_CONFIG ->
  Route.parseError f <> None ->
  spec (Route.translationRun net CSV_CONFIG fuel request) w
       (fun r d => r = Diverge /\ progressOnly d).
Proof.
  intros Hwf Hsize Hparse. unfold wellFormed in Hwf. subst request.
  unfold Route.translationRun. cbn [Route.file Route.configData].
  do 4 apply spec_bind_ret.
  replace (MAX_FILE_SIZE CSV_CONFIG <? Route.size f) with false
    by (symmetry; apply Z.ltb_ge; assumption).
  apply spec_bind_ret.
  eapply spec_bind
    with (Q1 := fun r d => progressOnly d /\ r = Ok tt).
  - destruct (50 * 1024 * 1024 <? Route.size f);
      [apply spec_emit; split; [progress_trace | reflexivity] |].
    destruct (10 * 1024 * 1024 <? Route.size f);
      [apply spec_emit | apply spec_ret]; split; (progress_trace || reflexivity).
  - intros [] d0 [Hd0 _].
    unfold Route.parsed.
    destruct (Route.parseError f) as [e |]; [| congruence].
    unfold spec, bind, diverge. exists Diverge, [].
    split; [reflexivity |]. split; [reflexivity | assumption].
  - intros e d0 [_ Habs]. discriminate.
  - intros d0 [_ Habs]. discriminate.
Qed.

(** The stream of a request whose file the parser refuses: frames of
    type [progress] at most, and the handler never gets to close it. *)
Lemma POST_unparsed fuel request f config :
  wellFormed request f config ->
  Route.size f <= MAX_FILE_SIZE CSV_CONFIG ->
  Route.parseError f <> None ->
  exists w,
    Route.POST net CSV_CONFIG fuel request [] = (Diverge, w)
    /\ progressOnly w.
Proof.
  intros Hwf Hsize Hparse.
  destruct (translationRun_unparsed fuel request f config [] Hwf Hsize Hparse)
    as (r & d & E & -> & Hd).
  rewrite app_nil_r in E. exists d. split; [| exact Hd].
  unfold Route.POST, Route.processTranslationRequest, tryCatch, bind.
  rewrite E. reflexivity.
Qed.

(** A request is accepted, or refused by the parser, or refused before
    the parser starts. *)
Lemma accepted_dec request :
  (exists f config, accepted CSV_CONFIG request f config)
  \/ (exists f config, wellFormed request f config
                       /\ Route.size f <= MAX_FILE_SIZE CSV_CONFIG
                       /\ Route.parseError f <> None)
  \/ (forall f config, wellFormed request f config ->
                       MAX_FILE_SIZE CSV_CONFIG < Route.size f).
Proof.
  destruct request as [e | [[f |] [[e | config] |]]];
    try (right; right; intros f0 c0 Hwf; unfold wellFormed in Hwf; discriminate).
  destruct (Z_le_gt_dec (Route.size f) (MAX_FILE_SIZE CSV_CONFIG)) as [Hle | Hgt].
  - destruct (Route.parseError f) as [e |] eqn:Hparse.
    + right; left. exists f, config. repeat split; [assumption | congruence].
    + left. exists f, config. repeat split; assumption.
  - right; right. intros f0 c0 Hwf. unfold wellFormed in Hwf.
    inversion Hwf; subst. lia.
Qed.

(** A request refused before the parser starts is not accepted. *)
Lemma refused_not_accepted request :
  (forall f config, wellFormed request f config ->
                    MAX_FILE_SIZE CSV_CONFIG < Route.size f) ->
  forall f config, ~ accepted CSV_CONFIG request f config.
Proof.
  intros Hrej f config (Hwf & Hsize & _). specialize (Hrej f config Hwf). lia.
Qed.

(** The stream of a request whose batch loop can run: frames of type
    [progress], then one terminal frame, then the stream is closed. *)
Lemma POST_spec fuel request w :
  runnable CSV_CONFIG fuel request ->
  spec (Route.POST net CSV_CONFIG fuel request) w
       (fun r d =>
          r = Ok tt /\
          exists pre t,
            d = Closed :: Sent t :: pre
            /\ progressOnly pre
            /\ ((forall f config, ~ accepted CSV_CONFIG request f config)
                  /\ pre = [] /\ ev_type t = error
                \/ exists f config outs,
                     accepted CSV_CONFIG request f config
                     /\ t = Route.completeEvent (len (rowsOf f)) (len (rowsOf f))
                                                (plain (headersOf f) :: outs)
                     /\ rowsOutcome net config (rowsOf f) outs)).
Proof.
  intros Hrun. unfold Route.POST, Route.processTranslationRequest.
  destruct (accepted_dec request)
    as [(f & config & Hacc) | [(f & config & Hwf & Hsize & Hparse) | Hrej]].
  2: { destruct (Hrun f config Hwf Hsize) as [Habs _]. contradiction. }
  - destruct Hacc as (Hwf & Hsize & Hparse).
    destruct (Hrun f config Hwf Hsize) as (_ & Hb & Hfuel).
    assert (Hacc : accepted CSV_CONFIG request f config) by (repeat split; assumption).
    eapply spec_tryCatch
      with (Q1 := fun r d =>
              r = Ok tt /\
              exists pre outs,
                d = Closed
                      :: Sent (Route.completeEvent (len (rowsOf f)) (len (rowsOf f))
                                                   (plain (headersOf f) :: outs)) :: pre
                /\ progressOnly pre
                /\ rowsOutcome net config (rowsOf f) outs).
    + eapply spec_bind
        with (Q1 := fun r d =>
                r = Ok tt /\
                exists pre outs,
                  d = Sent (Route.completeEvent (len (rowsOf f)) (len (rowsOf f))
                                                (plain (headersOf f) :: outs)) :: pre
                  /\ progressOnly pre
                  /\ rowsOutcome net config (rowsOf f) outs).
      * eapply spec_tryCatch; [eapply translationRun_accepted; eassumption | | |].
        -- intros a d H. exact H.
        -- intros e d [Habs _]. discriminate.
        -- intros d [Habs _]. discriminate.
      * intros [] d [_ (pre & outs & -> & Hpre & Houts)].
        apply spec_emit. split; [reflexivity |].
        exists pre, outs. auto.
      * intros e d [Habs _]. discriminate.
      * intros d [Habs _]. discriminate.
    + intros [] d [_ (pre & outs & -> & Hpre & Houts)].
      split; [reflexivity |].
      eexists pre, _. split; [reflexivity |]. split; [assumption |].
      right. exists f, config, outs. auto.
    + intros e d [Habs _]. discriminate.
    + intros d [Habs _]. discriminate.
  - eapply spec_tryCatch
      with (Q1 := fun r d => r = Ok tt /\ exists t, d = [Closed; Sent t]
                                                   /\ ev_type t = error).
    + eapply spec_bind
        with (Q1 := fun r d => r = Ok tt /\ exists t, d = [Sent t]
                                                     /\ ev_type t = error).
      * eapply spec_tryCatch; [eapply translationRun_rejected; eassumption | | |].
        -- intros a d [_ [e Habs]]. discriminate.
        -- intros e d [-> _]. unfold Route.sendEvent. apply spec_emit.
           split; [reflexivity |]. eexists. split; reflexivity.
        -- intros d [_ [e Habs]]. discriminate.
      * intros [] d [_ (t & -> & Ht)]. apply spec_emit.
        split; [reflexivity |]. exists t. auto.
      * intros e d [Habs _]. discriminate.
      * intros d [Habs _]. discriminate.
    + intros [] d [_ (t & -> & Ht)]. split; [reflexivity |].
      exists [], t. split; [reflexivity |]. split; [constructor |].
      left. split; [apply refused_not_accepted; assumption | auto].
    + intros e d [Habs _]. discriminate.
    + intros d [Habs _]. discriminate.
Qed.

End RunFacts.

(* ===================================================================== *)
(** ** Character-limit batching of the Azure client *)
(* ===================================================================== *)

Section CreateBatchesFacts.

Import CreateBatches.

Variable limit : Z.

Lemma totalChars_snoc batch t : totalChars (batch ++ [t]) = totalChars batch + len t.
Proof.
  unfold totalChars. induction batch as [| x xs IH]; simpl; [lia |].
  rewrite IH. lia.
Qed.

Lemma totalChars_ge batch t : In t batch -> len t <= totalChars batch.
Proof.
  unfold totalChars. induction batch as [| x xs IH]; simpl; [tauto |].
  intros [-> | Hin].
  - assert (0 <= fold_right (fun t0 acc => len t0 + acc) 0 xs).
    { clear. induction xs; simpl; unfold len in *; lia. }
    lia.
  - specialize (IH Hin). unfold len in *. lia.
Qed.

Lemma len_pos_nonempty {A} (l : list A) : (0 <? len l) = true <-> l <> [].
Proof.
  destruct l as [| x l]; unfold len; simpl.
  - split; [discriminate | congruence].
  - split; [discriminate | reflexivity].
Qed.

Lemma flush_inv st : loopInv limit st -> loopInv limit (flush st).
Proof.
  intros (Hc & Hb & Hall). unfold flush.
  destruct (0 <? len (currentBatch st)) eqn:Hne; [| repeat split; assumption].
  apply len_pos_nonempty in Hne.
  repeat split; simpl; auto.
  apply Forall_app. split; [assumption |]. constructor; [| constructor].
  split; [assumption |]. right. tauto.
Qed.

Lemma flush_concat st :
  List.concat (batches (flush st)) ++ currentBatch (flush st)
  = List.concat (batches st) ++ currentBatch st.
Proof.
  unfold flush. destruct (0 <? len (currentBatch st)); [| reflexivity].
  simpl. rewrite concat_app. simpl. rewrite !app_nil_r. reflexivity.
Qed.

Lemma flush_empty st : currentBatch (flush st) <> [] -> False.
Proof.
  unfold flush. destruct (0 <? len (currentBatch st)) eqn:Hne; simpl.
  - congruence.
  - intros H. apply len_pos_nonempty in H. congruence.
Qed.

Lemma step_inv st text : loopInv limit st -> loopInv limit (step limit st text).
Proof.
  intros Hinv. unfold step.
  destruct (limit <? len text) eqn:Hbig.
  - pose proof (flush_inv _ Hinv) as (Hc & Hb & Hall).
    repeat split; simpl; auto.
    apply Forall_app. split; [assumption |]. constructor; [| constructor].
    split; [discriminate | left; eauto].
  - apply Z.ltb_ge in Hbig. destruct Hinv as (Hc & Hb & Hall).
    destruct ((limit <? currentCharacterCount st + len text)
              && (0 <? len (currentBatch st))) eqn:Hfull.
    + apply andb_prop in Hfull. destruct Hfull as [_ Hne].
      apply len_pos_nonempty in Hne.
      repeat split; simpl.
      * unfold totalChars. simpl. lia.
      * right. unfold totalChars. simpl. lia.
      * apply Forall_app. split; [assumption |]. constructor; [| constructor].
        split; [assumption | right; tauto].
    + repeat split; simpl; auto.
      * rewrite totalChars_snoc. lia.
      * right. rewrite totalChars_snoc.
        apply andb_false_iff in Hfull. destruct Hfull as [Hfit | Hempty].
        -- apply Z.ltb_ge in Hfit. lia.
        -- destruct (currentBatch st) eqn:Hcur;
             [unfold totalChars; simpl; lia |].
           unfold len in Hempty. simpl in Hempty.
           apply Z.ltb_ge in Hempty. lia.
Qed.

Lemma step_concat st text :
  List.concat (batches (step limit st text)) ++ currentBatch (step limit st text)
  = (List.concat (batches st) ++ currentBatch st) ++ [text].
Proof.
  unfold step. destruct (limit <? len text).
  - simpl. rewrite concat_app. simpl.
    rewrite <- (flush_concat st).
    destruct (currentBatch (flush st)) eqn:Hcur.
    + rewrite !app_nil_r. reflexivity.
    + exfalso. apply (@flush_empty st). rewrite Hcur. discriminate.
  - destruct ((limit <? currentCharacterCount st + len text)
              && (0 <? len (currentBatch st))); simpl.
    + rewrite concat_app. simpl. rewrite !app_nil_r. reflexivity.
    + rewrite app_assoc. reflexivity.
Qed.

Lemma loop_inv texts : forall st, loopInv limit st -> loopInv limit (loop limit texts st).
Proof.
  unfold loop. induction texts as [| t ts IH]; intros st Hinv; simpl; auto.
  apply IH. apply step_inv. exact Hinv.
Qed.

Lemma loop_concat texts : forall st,
  List.concat (batches (loop limit texts st)) ++ currentBatch (loop limit texts st)
  = (List.concat (batches st) ++ currentBatch st) ++ texts.
Proof.
  unfold loop. induction texts as [| t ts IH]; intros st; simpl.
  - rewrite app_nil_r. reflexivity.
  - rewrite IH, step_concat, <- app_assoc. reflexivity.
Qed.

(** C9. [createBatches] splits the list of texts into consecutive
    batches: concatenated in order they give back exactly the texts;
    no batch is empty; a batch of two or more texts holds at most
    [batchCharacterLimit] characters; and a text longer than the limit
    is alone in its batch. *)
Theorem createBatches_invariant (texts : list JsString) :
  List.concat (createBatches limit texts) = texts
  /\ forall batch,
       In batch (createBatches limit texts) ->
       batch <> []
       /\ ((2 <= List.length batch)%nat -> totalChars batch <= limit)
       /\ (forall t, In t batch -> limit < len t -> batch = [t]).
Proof.
  unfold createBatches.
  set (st := loop limit texts (mkLoop [] [] 0)).
  assert (Hinv : loopInv limit (flush st)).
  { apply flush_inv, loop_inv. repeat split; simpl; auto. }
  split.
  - pose proof (flush_concat st) as Hc.
    unfold st in Hc at 3 4. rewrite loop_concat in Hc. simpl in Hc.
    destruct (currentBatch (flush st)) eqn:Hcur.
    + rewrite app_nil_r in Hc. exact Hc.
    + exfalso. apply (@flush_empty st). rewrite Hcur. discriminate.
  - intros batch Hin. destruct Hinv as (_ & _ & Hall).
    rewrite Forall_forall in Hall.
    destruct (Hall batch Hin) as [Hne [[t ->] | Hfit]].
    + split; [discriminate |]. split; [simpl; lia |].
      intros t' [-> | []] _. reflexivity.
    + split; [assumption |]. split; [auto |].
      intros t Ht Hlong. pose proof (totalChars_ge _ _ Ht). lia.
Qed.

End CreateBatchesFacts.

(* ===================================================================== *)
(** ** Partitioning and the batch loop *)
(* ===================================================================== *)

Section PartitionFacts.

Lemma strides_nth i step count k :
  (k < count)%nat ->
  nth_error (strides i step count) k = Some (i + Z.of_nat k * step).
Proof.
  intros Hk. unfold strides. rewrite nth_error_map, nth_error_seq.
  replace (k <? count)%nat with true by (symmetry; apply Nat.ltb_lt; exact Hk).
  reflexivity.
Qed.

Lemma strides_nth_inv i step count k v :
  nth_error (strides i step count) k = Some v ->
  (k < count)%nat /\ v = i + Z.of_nat k * step.
Proof.
  intros H. assert (Hk : (k < count)%nat).
  { rewrite <- (strides_length i step count). apply nth_error_Some. congruence. }
  split; [exact Hk |]. rewrite strides_nth in H by exact Hk. congruence.
Qed.



End PartitionFacts.

Section BatchLoopFacts.

Variable net : Azure.Network.
Variable CSV_CONFIG : CsvConfig.

(** C10. When the batch size in force is at least 1, the batch loop of
    the orchestrator ends, for any number of rows (fuel for one
    iteration per row is enough), after exactly
    [ceil(totalRows / batchSize)] iterations: that many indices are
    visited, and [currentBatch], incremented once per iteration, ends
    at that value. *)
Theorem batch_loop_terminates (config : CSVTranslationConfig)
  (csvRows : list Row) (fuel : nat) (totalBatches : Z) (w : World) :
  1 <= Route.effectiveBatchSize CSV_CONFIG config ->
  (List.length csvRows <= fuel)%nat ->
  exists indices st w',
    Route.loopIndices fuel (len csvRows)
                      (Route.effectiveBatchSize CSV_CONFIG config) 0
    = Some indices
    /\ len indices
       = ceilDiv (len csvRows) (Route.effectiveBatchSize CSV_CONFIG config)
    /\ Route.batchLoop net fuel config csvRows (len csvRows)
                       (Route.effectiveBatchSize CSV_CONFIG config)
                       totalBatches w
       = (Ok st, w')
    /\ Route.currentBatch st
       = ceilDiv (len csvRows) (Route.effectiveBatchSize CSV_CONFIG config).
Proof.
  intros Hb Hfuel.
  set (b := Route.effectiveBatchSize CSV_CONFIG config) in *.
  destruct (batchLoop_spec net fuel config csvRows b totalBatches w Hb Hfuel)
    as (r & d & E & _ & Hr).
  destruct r as [st | e |]; simpl in Hr; try tauto.
  destruct Hr as (_ & _ & Hcur).
  exists (strides 0 b (Z.to_nat (ceilDiv (len csvRows) b))), st, (d ++ w).
  split; [| split; [| split]].
  - rewrite loopIndices_strides by (unfold len; lia).
    replace (len csvRows - 0) with (len csvRows) by lia. reflexivity.
  - unfold len at 1. rewrite strides_length.
    apply Z2Nat.id. apply ceilDiv_nonneg; [apply len_nonneg | assumption].
  - exact E.
  - exact Hcur.
Qed.

(** A batch size of zero is falsy and gives way to the default. *)
Lemma zero_batch_size_defaults mappings sourceLang :
  Route.effectiveBatchSize CSV_CONFIG (mkCsvConfig mappings sourceLang (Some 0))
  = DEFAULT_BATCH_SIZE CSV_CONFIG.
Proof. reflexivity. Qed.

(** Positivity is needed: with a batch size in force that is not
    positive and at least one row, the loop never ends, whatever the
    fuel. *)
Lemma batch_loop_diverges (config : CSVTranslationConfig)
  (csvRows : list Row) (fuel : nat) (totalBatches : Z) (w : World) :
  Route.effectiveBatchSize CSV_CONFIG config <= 0 ->
  csvRows <> [] ->
  fst (Route.batchLoop net fuel config csvRows (len csvRows)
                       (Route.effectiveBatchSize CSV_CONFIG config)
                       totalBatches w)
  = Diverge.
Proof.
  intros Hb Hrows.
  destruct (batchLoop_stuck net fuel config csvRows _ totalBatches w Hb Hrows)
    as (r & d & E & _ & ->).
  rewrite E. reflexivity.
Qed.

End BatchLoopFacts.

Lemma batch_loop_terminates_witness :
  exists indices st w',
    Route.loopIndices 3 3 2 0 = Some indices
    /\ len indices = 2
    /\ Route.batchLoop timeoutNet 3
                       (mkCsvConfig (Some []) (lit "en") (Some 2))
                       [[lit "a"]; [lit "b"]; [lit "c"]] 3 2 2 []
       = (Ok st, w')
    /\ Route.currentBatch st = 2.
Proof.
  apply (batch_loop_terminates
           timeoutNet
           CSV_CONFIG_third
           (mkCsvConfig (Some []) (lit "en") (Some 2))
           [[lit "a"]; [lit "b"]; [lit "c"]] 3 2 []).
  - unfold Route.effectiveBatchSize, num_or. simpl. lia.
  - simpl. lia.
Defined.

(* ===================================================================== *)
(** ** Failing translators *)
(* ===================================================================== *)

Section FailureFacts.

Variable net : Azure.Network.

Lemma makeRequestFrom_fails config n : forall req attempt w,
  neverOk net ->
  forall a w', Azure.makeRequestFrom net config n req attempt w <> (Ok a, w').
Proof.
  induction n as [| n IH]; intros req attempt w Hnet a w'; simpl;
    unfold tryCatch, bind, Azure.fetch; pose proof (Hnet w req) as Hw;
    destruct (net w req) as [e | r].
  - destruct (str_eqb (name e) (lit "AbortError")); [discriminate |].
    destruct (Azure.isRetryableError e && (attempt <? Azure.maxRetries config));
      [discriminate |].
    destruct (isAzure e); discriminate.
  - rewrite Hw. simpl.
    set (e := Azure.parseErrorResponse r).
    destruct (str_eqb (name e) (lit "AbortError")); [discriminate |].
    destruct (Azure.isRetryableError e && (attempt <? Azure.maxRetries config));
      [discriminate |].
    destruct (isAzure e); discriminate.
  - destruct (str_eqb (name e) (lit "AbortError")); [discriminate |].
    destruct (Azure.isRetryableError e && (attempt <? Azure.maxRetries config)).
    + unfold sleep, emit. apply IH. exact Hnet.
    + destruct (isAzure e); discriminate.
  - rewrite Hw. simpl.
    set (e := Azure.parseErrorResponse r).
    destruct (str_eqb (name e) (lit "AbortError")); [discriminate |].
    destruct (Azure.isRetryableError e && (attempt <? Azure.maxRetries config)).
    + unfold sleep, emit. apply IH. exact Hnet.
    + destruct (isAzure e); discriminate.
Qed.

Lemma neverOk_alwaysFails : neverOk net -> alwaysFails net.
Proof.
  intros Hnet text toLang fromLang w.
  destruct (translateText_halts net Azure.defaultConfig text toLang fromLang w)
    as (r & d & E & _ & Hr).
  unfold Route.azureTranslator_translateText.
  destruct r as [tr | e |]; [exfalso | eauto | destruct Hr].
  unfold Azure.translateText, bind, emit in E.
  destruct (negb (truthy (trim text))); [discriminate |].
  destruct (negb (truthy toLang)); [discriminate |].
  destruct (Azure.batchCharacterLimit Azure.defaultConfig <? len text);
    [discriminate |].
  rewrite encodeLanguages_run in E.
  destruct (Measures.encodableLanguages toLang fromLang); [| discriminate].
  unfold tryCatch, Azure.makeRequest in E.
  match type of E with
  | context [Azure.makeRequestFrom ?n ?c ?k ?req ?a ?w0] =>
      destruct (Azure.makeRequestFrom n c k req a w0) as [[resp | e |] w1] eqn:Em
  end.
  - eapply makeRequestFrom_fails; eauto.
  - destruct (isAzure e); discriminate.
  - discriminate.
Qed.

Lemma refusesAll_neverOk : refusesAll net -> neverOk net.
Proof.
  intros Hnet w req. destruct (Hnet w req) as (r & -> & Hs).
  unfold Azure.ok. destruct Hs as [-> | [-> | ->]]; reflexivity.
Qed.

Variable config : CSVTranslationConfig.

Lemma cellOutcome_failing colIndex cell out :
  alwaysFails net -> cellOutcome net config colIndex cell out -> out = str cell.
Proof.
  intros Hfail [-> | (toLang & w & tr & w' & _ & _ & E & _)]; [reflexivity |].
  destruct (Hfail cell toLang (sourceLanguage config) w) as (e & w1 & E1).
  rewrite E1 in E. discriminate.
Qed.

Lemma cellsOutcome_failing cells : forall colIndex outs,
  alwaysFails net -> cellsOutcome net config colIndex cells outs -> outs = plain cells.
Proof.
  induction cells as [| c cs IH]; intros colIndex [| o os] Hfail H;
    simpl in H; try tauto.
  destruct H as [Hc Hcs]. unfold plain. cbn [List.map]. f_equal.
  - eapply cellOutcome_failing; eauto.
  - eapply IH; eauto.
Qed.

Lemma rowsOutcome_failing rows outs :
  alwaysFails net -> rowsOutcome net config rows outs -> outs = List.map plain rows.
Proof.
  intros Hfail H. induction H as [| row out rows outs Hrow _ IH]; [reflexivity |].
  cbn [List.map]. f_equal; [eapply cellsOutcome_failing; eauto | exact IH].
Qed.

Lemma passThrough_targetOf colIndex :
  passThrough config colIndex -> targetOf config colIndex = None.
Proof.
  unfold passThrough, targetOf. intros Hpass.
  destruct (columnMappings config) as [mappings |]; [| reflexivity].
  destruct (find (fun mapping => columnIndex mapping =? colIndex) mappings)
    as [m |] eqn:Hfind; [| reflexivity].
  apply find_some in Hfind. destruct Hfind as [Hin Hidx].
  apply Z.eqb_eq in Hidx. simpl.
  destruct (shouldTranslate m) eqn:Hshould; [| reflexivity].
  destruct (targetLanguage m) as [toLang |] eqn:Hlang; [| reflexivity].
  rewrite (Hpass mappings m eq_refl Hin Hidx Hshould toLang Hlang).
  reflexivity.
Qed.

Lemma cellOutcome_passThrough colIndex cell out :
  targetOf config colIndex = None ->
  cellOutcome net config colIndex cell out -> out = str cell.
Proof.
  intros Hnone [-> | (toLang & w & tr & w' & Ht & _)]; [reflexivity |].
  congruence.
Qed.

Lemma cellOutcome_blank colIndex cell out :
  Route.isBlank cell = true ->
  cellOutcome net config colIndex cell out -> out = str cell.
Proof.
  intros Hb [-> | (toLang & w & tr & w' & _ & Hnb & _)]; [reflexivity |].
  congruence.
Qed.

Lemma cellsOutcome_unmapped cells : forall colIndex outs,
  (forall j, targetOf config j = None) ->
  cellsOutcome net config colIndex cells outs -> outs = plain cells.
Proof.
  induction cells as [| c cs IH]; intros colIndex [| o os] Hnone H;
    simpl in H; try tauto.
  destruct H as [Hc Hcs]. unfold plain. cbn [List.map]. f_equal.
  - eapply cellOutcome_passThrough; [apply Hnone | exact Hc].
  - eapply IH; eauto.
Qed.

Lemma rowsOutcome_unmapped rows outs :
  (forall j, targetOf config j = None) ->
  rowsOutcome net config rows outs -> outs = List.map plain rows.
Proof.
  intros Hnone H. induction H as [| row out rows outs Hrow _ IH]; [reflexivity |].
  cbn [List.map]. f_equal; [eapply cellsOutcome_unmapped; eauto | exact IH].
Qed.

(** A cell of an output row, seen from the input row. *)
Lemma cellsOutcome_nth cells : forall colIndex outs j cell,
  cellsOutcome net config colIndex cells outs ->
  nth_error cells j = Some cell ->
  exists out,
    nth_error outs j = Some out
    /\ cellOutcome net config (colIndex + Z.of_nat j) cell out.
Proof.
  induction cells as [| c cs IH]; intros colIndex [| o os] j cell H Hj;
    simpl in H; try tauto.
  - destruct j; discriminate.
  - destruct H as [Hc Hcs]. destruct j as [| j]; simpl in *.
    + inversion Hj; subst. exists o. rewrite Z.add_0_r. auto.
    + destruct (IH (colIndex + 1) os j cell Hcs Hj) as (out & Hout & Hcell).
      exists out. split; [exact Hout |].
      replace (colIndex + Z.pos (Pos.of_succ_nat j))
        with (colIndex + 1 + Z.of_nat j) by lia.
      exact Hcell.
Qed.

Lemma rowsOutcome_nth rows outs i row :
  rowsOutcome net config rows outs ->
  nth_error rows i = Some row ->
  exists out, nth_error outs i = Some out /\ rowOutcome net config row out.
Proof.
  intros H. revert i row.
  induction H as [| r o rs os Hro _ IH]; intros i row Hi.
  - destruct i; discriminate.
  - destruct i as [| i]; simpl in *.
    + inversion Hi; subst. eauto.
    + apply IH. exact Hi.
Qed.

End FailureFacts.

(* ===================================================================== *)
(** ** Properties of a run *)
(* ===================================================================== *)

Section RunProperties.

Variable net : Azure.Network.
Variable CSV_CONFIG : CsvConfig.

Lemma accepted_runnable fuel request f config :
  accepted CSV_CONFIG request f config ->
  1 <= Route.effectiveBatchSize CSV_CONFIG config ->
  (List.length (rowsOf f) <= fuel)%nat ->
  runnable CSV_CONFIG fuel request.
Proof.
  intros (Hwf & _ & Hparse) Hb Hfuel f' config' Hwf' _.
  unfold wellFormed in *. rewrite Hwf in Hwf'. inversion Hwf'; subst. auto.
Qed.

(** The stream of an accepted request: frames of type [progress], the
    [complete] frame with the header line and the output rows, and the
    stream is closed. *)
Lemma POST_completes fuel request f config :
  accepted CSV_CONFIG request f config ->
  1 <= Route.effectiveBatchSize CSV_CONFIG config ->
  (List.length (rowsOf f) <= fuel)%nat ->
  exists pre outs,
    Route.POST net CSV_CONFIG fuel request []
    = (Ok tt,
       Closed
         :: Sent (Route.completeEvent (len (rowsOf f)) (len (rowsOf f))
                                      (plain (headersOf f) :: outs))
         :: pre)
    /\ progressOnly pre
    /\ rowsOutcome net config (rowsOf f) outs.
Proof.
  intros Hacc Hb Hfuel.
  destruct (POST_spec net CSV_CONFIG fuel request []
                      (accepted_runnable fuel request f config Hacc Hb Hfuel))
    as (r & d & E & -> & pre & t & -> & Hpre & Hcase).
  rewrite app_nil_r in E.
  destruct Hcase as [(Hrej & _) | (f' & config' & outs & Hacc' & -> & Houts)].
  - exfalso. exact (Hrej f config Hacc).
  - destruct Hacc as [Hwf _]. destruct Hacc' as [Hwf' _].
    unfold wellFormed in *. rewrite Hwf in Hwf'. inversion Hwf'; subst.
    exists pre, outs. auto.
Qed.

Lemma progressOnly_events pre :
  progressOnly pre -> Forall (fun ev => isTerminal ev = false) (events pre).
Proof.
  intros H. unfold events. apply Forall_rev.
  induction H as [| e pre He _ IH]; simpl; [constructor |].
  destruct e as [ev | | a b c | req | ms]; simpl in *;
    [| contradiction | assumption | assumption | assumption].
  constructor; [| assumption].
  unfold isTerminal. rewrite He. reflexivity.
Qed.

(** C1. Shape invariant. For every accepted request whose batch size
    in force is at least 1 (fuel for one iteration per row), whatever the
    column mapping and whatever the translator does, the run ends with
    a [complete] frame whose matrix has as many rows as the input, and
    the output row at each index has as many cells as the input row at
    that index. Cells that fail keep their text and rows that fail are
    replaced by the original row, inside the same matrix; and the
    handler of a failed batch appends the original rows of the batch. *)
Theorem shape_invariant (fuel : nat) (request : Route.Request)
  (f : Route.CsvFile) (config : CSVTranslationConfig) :
  accepted CSV_CONFIG request f config ->
  1 <= Route.effectiveBatchSize CSV_CONFIG config ->
  (List.length (rowsOf f) <= fuel)%nat ->
  (exists pre outs,
      Route.POST net CSV_CONFIG fuel request []
      = (Ok tt,
         Closed
           :: Sent (Route.completeEvent (len (rowsOf f)) (len (rowsOf f))
                                        (plain (headersOf f) :: outs))
           :: pre)
      /\ List.length outs = List.length (rowsOf f)
      /\ forall i row out,
           nth_error (rowsOf f) i = Some row ->
           nth_error outs i = Some out ->
           List.length out = List.length row)
  /\ (forall totalRows totalBatches batch current st e w,
      exists st' w',
        Route.batchFailed totalRows totalBatches batch current st e w
        = (Ok st', w')
        /\ Route.translatedRows st'
           = Route.translatedRows st ++ List.map plain batch).
Proof.
  intros Hacc Hb Hfuel. split.
  - destruct (POST_completes fuel request f config Hacc Hb Hfuel) as (pre & outs & E & _ & Houts).
    exists pre, outs. split; [exact E |].
    split; [symmetry; eapply Forall2_length; exact Houts |].
    intros i row out Hrow Hout.
    destruct (rowsOutcome_nth net config _ _ i _ Houts Hrow) as (out' & Hout' & Hcells).
    rewrite Hout in Hout'. inversion Hout'; subst.
    eapply cellsOutcome_length. exact Hcells.
  - intros totalRows totalBatches batch current st e w.
    destruct (batchFailed_spec totalRows totalBatches batch current st e w)
      as (r & d & E & _ & Hr).
    destruct r as [st' | |]; simpl in Hr; try tauto.
    exists st', (d ++ w). split; [exact E | tauto].
Qed.

(** C6. Pass-through frame. In the output of every accepted request
    whose batch size in force is at least 1, a
    cell whose column index has no mapping with [shouldTranslate] set
    and a target language equals the input cell; and when no mapping
    has [shouldTranslate] set, the output rows are the input rows. *)
Theorem pass_through (fuel : nat) (request : Route.Request)
  (f : Route.CsvFile) (config : CSVTranslationConfig) :
  accepted CSV_CONFIG request f config ->
  1 <= Route.effectiveBatchSize CSV_CONFIG config ->
  (List.length (rowsOf f) <= fuel)%nat ->
  exists pre outs,
    Route.POST net CSV_CONFIG fuel request []
    = (Ok tt,
       Closed
         :: Sent (Route.completeEvent (len (rowsOf f)) (len (rowsOf f))
                                      (plain (headersOf f) :: outs))
         :: pre)
    /\ (forall i j row cell,
           nth_error (rowsOf f) i = Some row ->
           nth_error row j = Some cell ->
           passThrough config (Z.of_nat j) ->
           exists out,
             nth_error outs i = Some out /\ nth_error out j = Some (str cell))
    /\ ((forall mappings m,
            columnMappings config = Some mappings ->
            In m mappings -> shouldTranslate m = false) ->
        outs = List.map plain (rowsOf f)).
Proof.
  intros Hacc Hb Hfuel.
  destruct (POST_completes fuel request f config Hacc Hb Hfuel) as (pre & outs & E & _ & Houts).
  exists pre, outs. split; [exact E |]. split.
  - intros i j row cell Hrow Hcell Hpass.
    destruct (rowsOutcome_nth net config _ _ i _ Houts Hrow) as (out & Hout & Hcells).
    exists out. split; [exact Hout |].
    destruct (cellsOutcome_nth net config _ _ _ _ _ Hcells Hcell) as (o & Ho & Hoc).
    rewrite Ho. f_equal.
    eapply cellOutcome_passThrough; [| exact Hoc].
    apply passThrough_targetOf. exact Hpass.
  - intros Hnone.
    assert (Hall : forall colIndex, passThrough config colIndex).
    { intros colIndex mappings m Hm Hin _ Hshould.
      rewrite (Hnone mappings m Hm Hin) in Hshould. discriminate. }
    eapply rowsOutcome_unmapped; [| exact Houts].
    intros j. apply passThrough_targetOf. apply Hall.
Qed.

(** C7, as the code has it. Terminal-event uniqueness. Every run
    whose batch loop can run (when the request passes the checks, the
    parser reads its file and the batch size in force is at least 1)
    sends frames of type [progress], then exactly one terminal frame,
    [complete] or [error], and nothing after it: the stream is closed
    next. *)
Theorem terminal_event_unique (fuel : nat) (request : Route.Request) :
  runnable CSV_CONFIG fuel request ->
  exists pre t,
    Route.POST net CSV_CONFIG fuel request [] = (Ok tt, Closed :: Sent t :: pre)
    /\ isTerminal t = true
    /\ progressOnly pre
    /\ events (Closed :: Sent t :: pre) = events pre ++ [t]
    /\ Forall (fun ev => isTerminal ev = false) (events pre).
Proof.
  intros Hrun.
  destruct (POST_spec net CSV_CONFIG fuel request [] Hrun)
    as (r & d & E & -> & pre & t & -> & Hpre & Hcase).
  rewrite app_nil_r in E.
  exists pre, t. split; [exact E |].
  split.
  - destruct Hcase as [(_ & _ & Ht) | (f & config & outs & _ & -> & _)].
    + unfold isTerminal. rewrite Ht. reflexivity.
    + reflexivity.
  - split; [exact Hpre |]. split; [reflexivity |].
    apply progressOnly_events. exact Hpre.
Qed.

End RunProperties.

(* ===================================================================== *)
(** ** The batch size the loop cuts with, seen through the frames *)
(* ===================================================================== *)

Section FrameFacts.

Variable net : Azure.Network.
Variable CSV_CONFIG : CsvConfig.
Variable config : CSVTranslationConfig.

Lemma batchFramesNewestFirst_app d d' :
  batchFramesNewestFirst (d ++ d')
  = batchFramesNewestFirst d ++ batchFramesNewestFirst d'.
Proof.
  induction d as [| e d IH]; simpl; [reflexivity |].
  destruct (batchFrame e); rewrite IH; reflexivity.
Qed.

Lemma batchFrames_app d d' :
  batchFrames (d ++ d') = batchFrames d' ++ batchFrames d.
Proof.
  unfold batchFrames. rewrite batchFramesNewestFirst_app. apply rev_app_distr.
Qed.

Lemma batchFrames_cons e d :
  batchFrame e = None -> batchFrames (e :: d) = batchFrames d.
Proof. intros H. unfold batchFrames. simpl. rewrite H. reflexivity. Qed.

Lemma uncounted_frames d : uncounted d -> batchFrames d = [].
Proof.
  unfold batchFrames. intros H. induction H as [| e d He _ IH]; simpl;
    [reflexivity |].
  rewrite He. exact IH.
Qed.

Lemma silent_uncounted d : silent d -> uncounted d.
Proof.
  unfold silent, uncounted. apply Forall_impl.
  intros [ev | | | |]; simpl; tauto.
Qed.

Lemma uncounted_app d d' : uncounted d -> uncounted d' -> uncounted (d ++ d').
Proof. unfold uncounted. intros. apply Forall_app; auto. Qed.

Lemma spec_note (b : bool) m w :
  spec (if b then Route.sendEvent (Route.progressMessage m) else ret tt) w
       (fun r d => uncounted d /\ r = Ok tt).
Proof.
  destruct b; [apply spec_emit | apply spec_ret]; split; try reflexivity;
    repeat constructor.
Qed.

Lemma processRow_uncounted batchStartIndex rowIndex row st w :
  spec (Route.processRow net config batchStartIndex rowIndex row st) w
       (fun r d => uncounted d).
Proof.
  unfold Route.processRow.
  eapply spec_bind with (Q1 := fun r d => uncounted d).
  - eapply spec_tryCatch with (Q1 := fun r d => silent d).
    + eapply spec_bind; [apply translateColumns_spec | | |].
      * intros out d [Hd _]. apply spec_ret. exact Hd.
      * intros e d [Hd _]. exact Hd.
      * intros d [Hd _]. exact Hd.
    + intros a d Hd. apply silent_uncounted. exact Hd.
    + intros e d Hd. apply spec_ret. apply silent_uncounted. exact Hd.
    + intros d Hd. apply silent_uncounted. exact Hd.
  - intros st' d Hd.
    eapply spec_bind; [apply spec_note | | |].
    + intros [] d' [Hd' _]. apply spec_ret. cbn [app].
      apply uncounted_app; assumption.
    + intros e d' [_ Habs]. discriminate.
    + intros d' [_ Habs]. discriminate.
  - intros e d Hd. exact Hd.
  - intros d Hd. exact Hd.
Qed.

Lemma processRows_uncounted batchStartIndex rows : forall rowIndex st w,
  spec (Route.processRows net config batchStartIndex rows rowIndex st) w
       (fun r d => uncounted d).
Proof.
  induction rows as [| row rest IH]; intros rowIndex st w;
    cbn [Route.processRows].
  - apply spec_ret. constructor.
  - eapply spec_bind; [apply processRow_uncounted | | |].
    + intros st1 d Hd. eapply spec_weaken; [apply IH |].
      intros r d' Hd'. apply uncounted_app; assumption.
    + intros e d Hd. exact Hd.
    + intros d Hd. exact Hd.
Qed.

(** The rows of a batch are worked through without a frame that
    counts batches, and the work returns. *)
Lemma processBatchWithRecovery_uncounted batch batchStartIndex w :
  spec (Route.processBatchWithRecovery net batch batchStartIndex config) w
       (fun r d => uncounted d /\ returns (fun _ => True) r).
Proof.
  apply spec_and.
  - unfold Route.processBatchWithRecovery.
    eapply spec_bind; [apply processRows_uncounted | | |].
    + intros st d Hd.
      eapply spec_bind; [apply spec_note | | |].
      * intros [] d' [Hd' _]. apply spec_ret. cbn [app].
        apply uncounted_app; assumption.
      * intros e d' [_ Habs]. discriminate.
      * intros d' [_ Habs]. discriminate.
    + intros e d Hd. exact Hd.
    + intros d Hd. exact Hd.
  - eapply spec_weaken; [apply processBatchWithRecovery_spec |].
    intros [outs | e |] d [_ Hr]; simpl in *; tauto.
Qed.

(** One iteration of the batch loop sends the three frames of its
    batch and moves the counters on. *)
Lemma batchBody_frames csvRows totalRows batchSize totalBatches i st w :
  spec (Route.batchBody net config csvRows totalRows batchSize totalBatches i st) w
       (fun r d =>
          batchFrames d
          = announcedFrom totalBatches (Route.currentBatch st + 1)
                          (Route.processedRows st)
                          [(i, slice csvRows i (i + batchSize))]
          /\ returns (fun st' =>
                        Route.currentBatch st' = Route.currentBatch st + 1
                        /\ Route.processedRows st'
                           = Route.processedRows st
                             + len (slice csvRows i (i + batchSize))) r).
Proof.
  unfold Route.batchBody.
  eapply spec_bind; [apply spec_pause | | |].
  - intros [] d [Hd _]. unfold Route.sendEvent at 1. apply spec_bind_emit.
    eapply spec_tryCatch
      with (Q1 := fun r d =>
              batchFrames d
              = [(Route.currentBatch st + 1, totalBatches, Route.processedRows st);
                 (Route.currentBatch st + 1, totalBatches,
                  Route.processedRows st + len (slice csvRows i (i + batchSize)))]
              /\ returns (fun st' =>
                            Route.currentBatch st' = Route.currentBatch st + 1
                            /\ Route.processedRows st'
                               = Route.processedRows st
                                 + len (slice csvRows i (i + batchSize))) r).
    + unfold Route.runBatch, Route.sendEvent. apply spec_bind_emit.
      eapply spec_bind; [apply processBatchWithRecovery_uncounted | | |].
      * intros outs d' [Hd' _].
        apply spec_bind_emit. apply spec_ret. cbn [app].
        split; [| split; reflexivity].
        change (Sent ?ev :: d' ++ [Sent ?ev'])
          with ([Sent ev] ++ d' ++ [Sent ev']).
        rewrite !batchFrames_app, (uncounted_frames d' Hd'). reflexivity.
      * intros e d' [_ []].
      * intros d' [_ []].
    + intros st' d' [Hd' Hr]. split; [| exact Hr].
      rewrite !batchFrames_app, Hd'.
      rewrite (uncounted_frames d (silent_uncounted d Hd)). reflexivity.
    + intros e d' [_ []].
    + intros d' [_ []].
  - intros e d [_ Habs]. discriminate.
  - intros d [_ Habs]. discriminate.
Qed.

(** The batch loop sends the frames of the batches it cuts, in their
    order. *)
Lemma forLoop_frames csvRows totalRows batchSize totalBatches :
  forall fuel i idx,
    Route.loopIndices fuel totalRows batchSize i = Some idx ->
    forall st w,
      spec (Route.forLoop
              fuel totalRows batchSize
              (Route.batchBody net config csvRows totalRows batchSize totalBatches)
              i st) w
           (fun r d =>
              batchFrames d
              = announcedFrom
                  totalBatches (Route.currentBatch st + 1) (Route.processedRows st)
                  (List.map (fun i => (i, slice csvRows i (i + batchSize))) idx)
              /\ returns (fun _ => True) r).
Proof.
  induction fuel as [| fuel IH]; intros i idx Hidx st w;
    simpl in *; destruct (i <? totalRows).
  - discriminate.
  - inversion Hidx; subst. apply spec_ret. split; [reflexivity | exact I].
  - destruct (Route.loopIndices fuel totalRows batchSize (i + batchSize))
      as [rest |] eqn:Hrest; [| discriminate].
    inversion Hidx; subst. clear Hidx.
    eapply spec_bind; [apply batchBody_frames | | |].
    + intros st' d [Hd [Hcur Hproc]].
      eapply spec_weaken; [apply (IH _ _ Hrest) |].
      intros r d' [Hd' Hr]. split; [| exact Hr].
      rewrite batchFrames_app, Hd, Hd', Hcur, Hproc. reflexivity.
    + intros e d [_ []].
    + intros d [_ []].
  - inversion Hidx; subst. apply spec_ret. split; [reflexivity | exact I].
Qed.

Lemma spec_sent_uncounted ev w :
  ev_currentBatch ev = None ->
  spec (Route.sendEvent ev) w (fun r d => uncounted d /\ r = Ok tt).
Proof.
  intros H. apply spec_emit. split; [| reflexivity].
  repeat constructor. simpl. rewrite H. reflexivity.
Qed.

(** The run of an accepted request sends the frames of the batches
    that [partition] cuts with the batch size in force. *)
Lemma translationRun_frames fuel request f batches w :
  accepted CSV_CONFIG request f config ->
  Route.partition fuel (rowsOf f) (Route.effectiveBatchSize CSV_CONFIG config)
  = Some batches ->
  spec (Route.translationRun net CSV_CONFIG fuel request) w
       (fun r d =>
          batchFrames d
          = announcedFrom
              (ceilDiv (len (rowsOf f))
                       (Route.effectiveBatchSize CSV_CONFIG config))
              1 0 batches).
Proof.
  intros (Hwf & Hsize & Hparse) Hpart. unfold wellFormed in Hwf. subst request.
  unfold Route.translationRun. cbn [Route.file Route.configData].
  do 4 apply spec_bind_ret.
  replace (MAX_FILE_SIZE CSV_CONFIG <? Route.size f) with false
    by (symmetry; apply Z.ltb_ge; assumption).
  apply spec_bind_ret.
  eapply spec_bind with (Q1 := fun r d => uncounted d /\ r = Ok tt).
  - destruct (50 * 1024 * 1024 <? Route.size f);
      [apply spec_sent_uncounted; reflexivity |].
    apply spec_note.
  - intros [] d0 [Hd0 _].
    unfold Route.parsed. rewrite Hparse. apply spec_bind_ret.
    unfold rowsOf, Route.partition in *.
    destruct (Route.readRecords (Route.records f)) as [headers csvRows].
    cbn [fst snd] in *.
    destruct (Route.loopIndices fuel (len csvRows)
                                (Route.effectiveBatchSize CSV_CONFIG config) 0)
      as [idx |] eqn:Hidx; [| discriminate].
    simpl in Hpart. inversion Hpart; subst batches. clear Hpart.
    unfold Route.sendEvent at 1. apply spec_bind_emit.
    eapply spec_bind;
      [unfold Route.batchLoop; apply (forLoop_frames _ _ _ _ _ _ _ Hidx) | | |].
    + intros st d1 [Hd1 _].
      eapply spec_bind; [apply spec_note | | |].
      * intros [] d2 [Hd2 _].
        unfold Route.sendEvent at 1. apply spec_bind_emit.
        unfold Route.sendEvent. apply spec_emit.
        cbn [app].
        rewrite !batchFrames_cons by reflexivity.
        rewrite !batchFrames_app, Hd1.
        rewrite batchFrames_cons by reflexivity.
        rewrite (uncounted_frames d2 Hd2), (uncounted_frames d0 Hd0).
        cbn [Route.currentBatch Route.processedRows].
        rewrite app_nil_r. reflexivity.
      * intros e d2 [_ Habs]. discriminate.
      * intros d2 [_ Habs]. discriminate.
    + intros e d1 [_ []].
    + intros d1 [_ []].
  - intros e d0 [_ Habs]. discriminate.
  - intros d0 [_ Habs]. discriminate.
Qed.

(** C5, as the code has it. The route of the first document of
    route.ts cuts the rows with [config.batchSize || DEFAULT_BATCH_SIZE]
    as it is: the run of an accepted request whose batch size in force
    is at least 1 ends, and the frames that count batches are those of
    the batches [partition] cuts with that value, announced as
    [ceil(totalRows / batchSize)] batches: three frames per batch, the
    last one counting its rows. That value is [config.batchSize] when
    it is set and not zero, whatever the bounds, and the default
    otherwise. The editions that clamp (the second document of
    route.ts and the copy of the route at the end of column-picker.tsx)
    cut with [clampedBatchSize], which lies within the bounds. *)
Theorem batch_size_in_force (fuel : nat) (request : Route.Request)
  (f : Route.CsvFile) :
  accepted CSV_CONFIG request f config ->
  1 <= Route.effectiveBatchSize CSV_CONFIG config ->
  (List.length (rowsOf f) <= fuel)%nat ->
  (exists batches w,
      Route.partition fuel (rowsOf f) (Route.effectiveBatchSize CSV_CONFIG config)
      = Some batches
      /\ Route.POST net CSV_CONFIG fuel request [] = (Ok tt, w)
      /\ batchFrames w
         = announcedFrom
             (ceilDiv (len (rowsOf f))
                      (Route.effectiveBatchSize CSV_CONFIG config))
             1 0 batches)
  /\ (forall v, batchSize config = Some v -> v <> 0 ->
                Route.effectiveBatchSize CSV_CONFIG config = v)
  /\ (batchSize config = None \/ batchSize config = Some 0 ->
      Route.effectiveBatchSize CSV_CONFIG config = DEFAULT_BATCH_SIZE CSV_CONFIG)
  /\ Route.clampedBatchSize CSV_CONFIG config
     = Z.min (Z.max (Route.effectiveBatchSize CSV_CONFIG config)
                    (MIN_BATCH_SIZE CSV_CONFIG))
             (MAX_BATCH_SIZE CSV_CONFIG)
  /\ (MIN_BATCH_SIZE CSV_CONFIG <= MAX_BATCH_SIZE CSV_CONFIG ->
      MIN_BATCH_SIZE CSV_CONFIG <= Route.clampedBatchSize CSV_CONFIG config
      <= MAX_BATCH_SIZE CSV_CONFIG).
Proof.
  intros Hacc Hb Hfuel. split.
  - assert (Hpart :
              exists batches,
                Route.partition fuel (rowsOf f)
                                (Route.effectiveBatchSize CSV_CONFIG config)
                = Some batches).
    { unfold Route.partition.
      rewrite loopIndices_strides by (unfold len; lia).
      eexists. reflexivity. }
    destruct Hpart as [batches Hpart].
    destruct (POST_completes net CSV_CONFIG fuel request f config Hacc Hb Hfuel)
      as (pre & outs & E & _ & _).
    destruct (translationRun_frames fuel request f batches [] Hacc Hpart)
      as (r & d & Erun & Hd).
    rewrite app_nil_r in Erun.
    exists batches. eexists. split; [exact Hpart |]. split; [exact E |].
    unfold Route.POST, Route.processTranslationRequest in E.
    unfold tryCatch at 1 in E. unfold bind at 1 in E. unfold tryCatch at 1 in E.
    rewrite Erun in E. destruct r as [[] | e |].
    + unfold emit in E. inversion E as [Hw].
      rewrite batchFrames_cons by reflexivity.
      rewrite <- Hw. exact Hd.
    + unfold Route.sendEvent, emit in E. cbn in E. inversion E.
    + discriminate.
  - unfold Route.effectiveBatchSize, Route.clampedBatchSize, num_or.
    split; [| split; [| split]].
    + intros v -> Hv. destruct (v =? 0) eqn:E; [| reflexivity].
      apply Z.eqb_eq in E. contradiction.
    + intros [-> | ->]; reflexivity.
    + reflexivity.
    + intros Hbounds. lia.
Qed.

End FrameFacts.

(** C5 as stated fails. With the constants whose maximum is 200, a
    request for batches of 200000 rows over a file of 201 rows is
    served with 200000 as it is: the run announces one batch and works
    through the 201 rows in it, where the clamped size, 200, cuts two
    batches and would have the run announce them. A size below the
    minimum is taken as it is too. *)
Lemma batch_size_not_clamped :
  MAX_BATCH_SIZE CSV_CONFIG_second = 200
  /\ Route.effectiveBatchSize CSV_CONFIG_second hugeBatchConfig = 200000
  /\ Route.clampedBatchSize CSV_CONFIG_second hugeBatchConfig = 200
  /\ batchFrames (snd (Route.POST upperNet CSV_CONFIG_second 201 longRequest []))
     = [(1, 1, 0); (1, 1, 0); (1, 1, 201)]
  /\ option_map (List.map (fun b => len (snd b)))
                (Route.partition 201 (rowsOf longFile)
                   (Route.effectiveBatchSize CSV_CONFIG_second hugeBatchConfig))
     = Some [201]
  /\ option_map (List.map (fun b => len (snd b)))
                (Route.partition 201 (rowsOf longFile)
                   (Route.clampedBatchSize CSV_CONFIG_second hugeBatchConfig))
     = Some [200; 1]
  /\ option_map
       (announcedFrom
          (ceilDiv (len (rowsOf longFile))
                   (Route.clampedBatchSize CSV_CONFIG_second hugeBatchConfig))
          1 0)
       (Route.partition 201 (rowsOf longFile)
          (Route.clampedBatchSize CSV_CONFIG_second hugeBatchConfig))
     = Some [(1, 2, 0); (1, 2, 0); (1, 2, 200);
             (2, 2, 200); (2, 2, 200); (2, 2, 201)]
  /\ Route.effectiveBatchSize CSV_CONFIG_second negativeBatchConfig = -5
  /\ MIN_BATCH_SIZE CSV_CONFIG_second = 1.
Proof. repeat split; vm_compute; reflexivity. Qed.

Lemma batch_size_in_force_witness :
  exists w,
    Route.POST upperNet CSV_CONFIG_third 3 (smallRequest (Some 2)) [] = (Ok tt, w)
    /\ batchFrames w
       = [(1, 2, 0); (1, 2, 0); (1, 2, 2); (2, 2, 2); (2, 2, 2); (2, 2, 3)].
Proof.
  destruct (batch_size_in_force upperNet CSV_CONFIG_third
              (firstColumnConfig (Some 2)) 3 (smallRequest (Some 2)) smallFile)
    as ((batches & w & Hpart & E & Hframes) & _).
  - split; [reflexivity | split; [simpl; lia | reflexivity]].
  - unfold Route.effectiveBatchSize, num_or. simpl. lia.
  - simpl. lia.
  - exists w. split; [exact E |]. rewrite Hframes.
    vm_compute in Hpart. inversion Hpart. reflexivity.
Defined.

Lemma smallRequest_accepted size :
  accepted CSV_CONFIG_third (smallRequest size) smallFile (firstColumnConfig size).
Proof. split; [reflexivity | split; [simpl; lia | reflexivity]]. Qed.

Lemma shape_invariant_witness :
  exists pre outs,
    Route.POST upperNet CSV_CONFIG_third 3 (smallRequest (Some 2)) []
    = (Ok tt,
       Closed :: Sent (Route.completeEvent 3 3 (plain (headersOf smallFile) :: outs)) :: pre)
    /\ List.length outs = 3%nat.
Proof.
  destruct (shape_invariant upperNet CSV_CONFIG_third 3 (smallRequest (Some 2))
                            smallFile (firstColumnConfig (Some 2)))
    as [(pre & outs & E & Hlen & _) _].
  - split; [reflexivity | split; [simpl; lia | reflexivity]].
  - unfold Route.effectiveBatchSize, num_or. simpl. lia.
  - simpl. lia.
  - exists pre, outs. split; [exact E | exact Hlen].
Defined.

Lemma pass_through_witness :
  exists pre outs,
    Route.POST upperNet CSV_CONFIG_third 3 (smallRequest (Some 2)) []
    = (Ok tt,
       Closed :: Sent (Route.completeEvent 3 3 (plain (headersOf smallFile) :: outs)) :: pre)
    /\ exists out, nth_error outs 1 = Some out
                   /\ nth_error out 1 = Some (str (lit "2")).
Proof.
  destruct (pass_through upperNet CSV_CONFIG_third 3 (smallRequest (Some 2))
                         smallFile (firstColumnConfig (Some 2)))
    as (pre & outs & E & Hcell & _).
  - split; [reflexivity | split; [simpl; lia | reflexivity]].
  - unfold Route.effectiveBatchSize, num_or. simpl. lia.
  - simpl. lia.
  - exists pre, outs. split; [exact E |].
    apply (Hcell 1%nat 1%nat [lit "dog"; lit "2"] (lit "2")).
    + reflexivity.
    + reflexivity.
    + intros mappings m Hm Hin Hidx Hshould toLang Hlang.
      simpl in Hm. inversion Hm; subst mappings. clear Hm.
      simpl in Hin. destruct Hin as [<- | [<- | []]]; simpl in *; discriminate.
Defined.

Lemma terminal_event_unique_witness :
  exists pre t,
    Route.POST upperNet CSV_CONFIG_third 3 (smallRequest (Some 2)) []
    = (Ok tt, Closed :: Sent t :: pre)
    /\ isTerminal t = true.
Proof.
  destruct (terminal_event_unique upperNet CSV_CONFIG_third 3 (smallRequest (Some 2)))
    as (pre & t & E & Ht & _).
  - intros f config Hwf _. unfold wellFormed, smallRequest in Hwf.
    inversion Hwf; subst.
    split; [reflexivity |].
    split; [unfold Route.effectiveBatchSize, num_or; simpl; lia | simpl; lia].
  - exists pre, t. split; [exact E | exact Ht].
Defined.

(* ===================================================================== *)
(** ** Blank cells *)
(* ===================================================================== *)

Section BlankFacts.

Lemma trimStart_whitespace s :
  forallb isWhiteSpace s = true -> trimStart s = [].
Proof.
  induction s as [| c r IH]; simpl; [reflexivity |].
  intros H. apply andb_prop in H. destruct H as [Hc Hr].
  rewrite Hc. apply IH. exact Hr.
Qed.

(** A text made of white space only, the empty text included, passes
    the test [!text || text.trim() === ''] of the route. *)
Lemma whitespace_isBlank s :
  forallb isWhiteSpace s = true -> Route.isBlank s = true.
Proof.
  intros H. unfold Route.isBlank, trim, trimEnd.
  rewrite (trimStart_whitespace s H). simpl. apply orb_true_r.
Qed.

Lemma whitespace_trim s : forallb isWhiteSpace s = true -> trim s = [].
Proof.
  intros H. unfold trim, trimEnd. rewrite (trimStart_whitespace s H). reflexivity.
Qed.

Variable net : Azure.Network.

(** C8. Empty-text short-circuit. For a cell whose text is empty or
    made of white space only, the translation operations of the route
    ([translateTextWithRetry], [translateText], and the cell step of
    [processBatchWithRecovery]) return the text unchanged and leave
    the world as it was: the translator is not invoked and no request
    is issued. The Azure client itself, if called with such a text,
    refuses it without issuing a request. *)
Theorem blank_short_circuit (text : JsString) :
  forallb isWhiteSpace text = true ->
  (forall fromLang toLang maxRetries w,
      Route.translateTextWithRetry net text fromLang toLang maxRetries w
      = (Ok (str text), w))
  /\ (forall fromLang toLang w,
         Route.translateText net text fromLang toLang w = (Ok (str text), w))
  /\ (forall config colIndex w,
         columnMappings config <> None ->
         Route.translateCell net config colIndex text w = (Ok (str text), w))
  /\ (forall config colIndex out,
         cellOutcome net config colIndex text out -> out = str text)
  /\ (forall config toLang fromLang w,
      exists e w',
        Azure.translateText net config text toLang fromLang w = (Throw e, w')
        /\ fetches w' = fetches w).
Proof.
  intros Hws. pose proof (whitespace_isBlank text Hws) as Hblank.
  split; [| split; [| split; [| split]]].
  - intros. unfold Route.translateTextWithRetry. rewrite Hblank. reflexivity.
  - intros. unfold Route.translateText. rewrite Hblank. reflexivity.
  - intros config colIndex w Hmap.
    unfold Route.translateCell, Route.findMapping.
    destruct (columnMappings config) as [mappings |]; [| congruence].
    unfold bind, ret.
    destruct (Route.translationTarget
                (find (fun mapping => columnIndex mapping =? colIndex) mappings));
      [| reflexivity].
    unfold tryCatch. rewrite Hblank. reflexivity.
  - intros config colIndex out. apply cellOutcome_blank. exact Hblank.
  - intros config toLang fromLang w.
    unfold Azure.translateText, bind, emit.
    rewrite (whitespace_trim text Hws). simpl.
    eexists. eexists. split; reflexivity.
Qed.

End BlankFacts.

Lemma blank_short_circuit_witness :
  Route.translateTextWithRetry upperNet (lit "  ") (lit "en") (lit "es") 2 []
  = (Ok (str (lit "  ")), []).
Proof.
  destruct (blank_short_circuit upperNet (lit "  ")) as [H _].
  - reflexivity.
  - apply H.
Defined.

(* ===================================================================== *)
(** ** Degrading to the original text *)
(* ===================================================================== *)

Section DegradeFacts.

Variable net : Azure.Network.

(** C2. Degrade invariant. If every invocation of the translator for
    the text of a cell fails, the per-cell retry wrapper returns that
    text as it is, for every retry budget, without raising; and the run
    of an accepted request ends with the [complete] frame after frames
    of type [progress] only, no [error] frame, with every cell of that
    text left as it was. If the translator fails on every call, the
    output rows are the input rows. *)
Theorem degrade_to_original (text : JsString) :
  failsOn net text ->
  (forall fromLang toLang maxRetries w,
    exists w',
      Route.translateTextWithRetry net text fromLang toLang maxRetries w
      = (Ok (str text), w'))
  /\ (forall CSV_CONFIG fuel request f config,
         accepted CSV_CONFIG request f config ->
         1 <= Route.effectiveBatchSize CSV_CONFIG config ->
         (List.length (rowsOf f) <= fuel)%nat ->
         exists pre outs,
           Route.POST net CSV_CONFIG fuel request []
           = (Ok tt,
              Closed
                :: Sent (Route.completeEvent (len (rowsOf f)) (len (rowsOf f))
                                             (plain (headersOf f) :: outs))
                :: pre)
           /\ progressOnly pre
           /\ (forall i j row,
                  nth_error (rowsOf f) i = Some row ->
                  nth_error row j = Some text ->
                  exists out,
                    nth_error outs i = Some out
                    /\ nth_error out j = Some (str text))
           /\ (alwaysFails net -> outs = List.map plain (rowsOf f))).
Proof.
  intros Hfail. split.
  - intros fromLang toLang maxRetries w.
    destruct (translateTextWithRetry_returns net text fromLang toLang maxRetries w)
      as (r & d & E & _ & Hr).
    destruct r as [v | |]; simpl in Hr; try tauto.
    exists (d ++ w). rewrite E. f_equal. f_equal.
    destruct Hr as [-> | (w1 & tr & w2 & E1 & _)]; [reflexivity |].
    destruct (Hfail toLang fromLang w1) as (e & w3 & E3).
    rewrite E3 in E1. discriminate.
  - intros CSV_CONFIG fuel request f config Hacc Hb Hfuel.
    destruct (POST_completes net CSV_CONFIG fuel request f config Hacc Hb Hfuel)
      as (pre & outs & E & Hpre & Houts).
    exists pre, outs. split; [exact E |]. split; [exact Hpre |]. split.
    + intros i j row Hrow Hcell.
      destruct (rowsOutcome_nth net config _ _ i _ Houts Hrow)
        as (out & Hout & Hcells).
      exists out. split; [exact Hout |].
      destruct (cellsOutcome_nth net config _ _ _ _ _ Hcells Hcell)
        as (o & Ho & Hoc).
      rewrite Ho. f_equal.
      destruct Hoc as [-> | (toLang & w & tr & w' & _ & _ & E1 & _)];
        [reflexivity |].
      destruct (Hfail toLang (sourceLanguage config) w) as (e & w3 & E3).
      rewrite E3 in E1. discriminate.
    + intros Hall. eapply rowsOutcome_failing; eauto.
Qed.

End DegradeFacts.

Lemma timeoutNet_neverOk : neverOk timeoutNet.
Proof. intros w req. exact I. Qed.

Lemma degrade_to_original_witness :
  failsOn timeoutNet (lit "cat")
  /\ exists w',
       Route.translateTextWithRetry timeoutNet (lit "cat") (lit "en") (lit "es") 2 []
       = (Ok (str (lit "cat")), w').
Proof.
  assert (Hfail : failsOn timeoutNet (lit "cat")).
  { intros toLang fromLang w.
    apply (neverOk_alwaysFails timeoutNet timeoutNet_neverOk). }
  split; [exact Hfail |].
  destruct (degrade_to_original timeoutNet (lit "cat") Hfail) as [Hcell _].
  apply Hcell.
Defined.

(* ===================================================================== *)
(** ** Errors of the translator and the fate of the run *)
(* ===================================================================== *)

Section ErrorClasses.

Variable net : Azure.Network.

(** How [parseErrorResponse] classifies the statuses that are not
    retried; for 400, when the message of the body can be read. *)
Lemma parseErrorResponse_classes (r : Azure.Response) :
  (Azure.status r = 401 -> Azure.parseErrorResponse r = Azure.AuthenticationError)
  /\ (Azure.status r = 403 -> Azure.parseErrorResponse r = Azure.QuotaExceededError)
  /\ (Azure.status r = 400 ->
      forall m,
        Azure.detailsMessage (Azure.readErrorDetails r) (lit "Invalid request")
        = inr m ->
        statusCode (Azure.parseErrorResponse r) = Some 400
        /\ errorCode (Azure.parseErrorResponse r) = str (lit "BAD_REQUEST")).
Proof.
  unfold Azure.parseErrorResponse.
  split; [| split]; intros ->; [reflexivity | reflexivity |].
  intros m ->. split; reflexivity.
Qed.

(** An authentication or quota failure reaches the caller of the
    client at once: one request, no retry by the client. *)
Lemma refusal_is_raised config text toLang fromLang w r :
  truthy (trim text) = true ->
  truthy toLang = true ->
  len text <= Azure.batchCharacterLimit config ->
  Measures.encodableLanguages toLang fromLang = true ->
  net (Invoked text toLang fromLang :: w)
      (mkRequest toLang (if truthy fromLang then Some fromLang else None) [text])
  = Azure.Responds r ->
  Azure.status r = 401 \/ Azure.status r = 403 ->
  Azure.translateText net config text toLang fromLang w
  = (Throw (if Azure.status r =? 401
            then Azure.AuthenticationError
            else Azure.QuotaExceededError),
     Fetched (mkRequest toLang (if truthy fromLang then Some fromLang else None)
                        [text])
       :: Invoked text toLang fromLang :: w).
Proof.
  intros Htext Hto Hlen Henc Hnet Hstatus.
  unfold Azure.translateText, bind, emit.
  rewrite Htext, Hto. simpl.
  replace (Azure.batchCharacterLimit config <? len text) with false
    by (symmetry; apply Z.ltb_ge; exact Hlen).
  rewrite encodeLanguages_run, Henc.
  unfold tryCatch, Azure.makeRequest.
  assert (Hreq :
            Azure.makeRequestFrom
              net config (Z.to_nat (Azure.maxRetries config))
              (mkRequest toLang (if truthy fromLang then Some fromLang else None)
                         [text])
              0 (Invoked text toLang fromLang :: w)
            = (Throw (if Azure.status r =? 401
                      then Azure.AuthenticationError
                      else Azure.QuotaExceededError),
               Fetched (mkRequest toLang
                                  (if truthy fromLang then Some fromLang else None)
                                  [text])
                 :: Invoked text toLang fromLang :: w)).
  { destruct (Z.to_nat (Azure.maxRetries config)); simpl;
      unfold tryCatch, bind, Azure.fetch; rewrite Hnet;
      unfold Azure.ok, Azure.parseErrorResponse;
      destruct Hstatus as [-> | ->]; reflexivity. }
  rewrite Hreq. destruct Hstatus as [-> | ->]; reflexivity.
Qed.

Variable CSV_CONFIG : CsvConfig.

(** C3, as the code has it. An error of the translator, of whatever
    class, does not end the run: [translateTextWithRetry] catches it
    and returns a value, the original text or a translation of a later
    attempt; the run of an accepted request ends with one [complete]
    frame after frames of type [progress] only, no [error] frame; and
    when every request is answered 401, 403 or 400 the output rows are
    the input rows. *)
Theorem translator_errors_absorbed (fuel : nat) (request : Route.Request)
  (f : Route.CsvFile) (config : CSVTranslationConfig) :
  accepted CSV_CONFIG request f config ->
  1 <= Route.effectiveBatchSize CSV_CONFIG config ->
  (List.length (rowsOf f) <= fuel)%nat ->
  (forall text fromLang toLang maxRetries w,
    exists v w',
      Route.translateTextWithRetry net text fromLang toLang maxRetries w
      = (Ok v, w')
      /\ retried net text fromLang toLang v)
  /\ exists pre outs,
       Route.POST net CSV_CONFIG fuel request []
       = (Ok tt,
          Closed
            :: Sent (Route.completeEvent (len (rowsOf f)) (len (rowsOf f))
                                         (plain (headersOf f) :: outs))
            :: pre)
       /\ progressOnly pre
       /\ (refusesAll net -> outs = List.map plain (rowsOf f)).
Proof.
  intros Hacc Hb Hfuel. split.
  - intros text fromLang toLang maxRetries w.
    destruct (translateTextWithRetry_returns net text fromLang toLang maxRetries w)
      as (r & d & E & _ & Hr).
    destruct r as [v | |]; simpl in Hr; try tauto.
    exists v, (d ++ w). auto.
  - destruct (POST_completes net CSV_CONFIG fuel request f config Hacc Hb Hfuel)
      as (pre & outs & E & Hpre & Houts).
    exists pre, outs. split; [exact E |]. split; [exact Hpre |].
    intros Hrefuse.
    eapply rowsOutcome_failing; [| exact Houts].
    apply neverOk_alwaysFails, refusesAll_neverOk. exact Hrefuse.
Qed.

(** Without a positive batch size the run of an accepted request with
    at least one row never ends, and no terminal frame is ever sent. *)
Lemma POST_diverges (fuel : nat) (request : Route.Request)
  (f : Route.CsvFile) (config : CSVTranslationConfig) :
  accepted CSV_CONFIG request f config ->
  Route.effectiveBatchSize CSV_CONFIG config <= 0 ->
  rowsOf f <> [] ->
  exists w,
    Route.POST net CSV_CONFIG fuel request [] = (Diverge, w)
    /\ progressOnly w.
Proof.
  intros (Hwf & Hsize & Hparse) Hb Hrows. unfold wellFormed in Hwf. subst request.
  assert (Hrun :
            spec (Route.translationRun
                    net CSV_CONFIG fuel
                    (Route.Multipart
                       (Route.mkForm (Some f) (Some (Route.Parsed config)))))
                 [] (fun r d => progressOnly d /\ r = Diverge)).
  { unfold Route.translationRun. cbn [Route.file Route.configData].
    do 4 apply spec_bind_ret.
    replace (MAX_FILE_SIZE CSV_CONFIG <? Route.size f) with false
      by (symmetry; apply Z.ltb_ge; assumption).
    apply spec_bind_ret.
    eapply spec_bind with (Q1 := fun r d => progressOnly d /\ r = Ok tt).
    - destruct (50 * 1024 * 1024 <? Route.size f);
        [apply spec_emit; split; [progress_trace | reflexivity] |].
      destruct (10 * 1024 * 1024 <? Route.size f);
        [apply spec_emit | apply spec_ret]; split; (progress_trace || reflexivity).
    - intros [] d0 [Hd0 _].
      unfold Route.parsed. rewrite Hparse. apply spec_bind_ret.
      unfold rowsOf in Hrows.
      destruct (Route.readRecords (Route.records f)) as [headers csvRows].
      cbn [snd] in Hrows.
      unfold Route.sendEvent at 1. apply spec_bind_emit.
      eapply spec_bind; [apply batchLoop_stuck; assumption | | |].
      + intros st d [_ Habs]. discriminate.
      + intros e d [_ Habs]. discriminate.
      + intros d [Hd _]. split; [progress_trace | reflexivity].
    - intros e d0 [_ Habs]. discriminate.
    - intros d0 [_ Habs]. discriminate. }
  destruct Hrun as (r & d & E & Hd & ->). rewrite app_nil_r in E.
  exists d. split; [| exact Hd].
  unfold Route.POST, Route.processTranslationRequest, tryCatch, bind.
  rewrite E. reflexivity.
Qed.

End ErrorClasses.

Lemma progressOnly_open w :
  progressOnly w -> filter isTerminal (events w) = [] /\ ~ In Closed w.
Proof.
  intros H. split.
  - pose proof (progressOnly_events w H) as Hev.
    induction Hev as [| ev evs Hx _ IH]; simpl; [reflexivity |].
    rewrite Hx. exact IH.
  - intros Hin. unfold progressOnly in H. rewrite Forall_forall in H.
    exact (H Closed Hin).
Qed.

(** C7 as stated fails. A request for batches of -5 rows over a file
    of three rows passes every check, and its run never ends: however
    long it is watched, the stream has carried frames of type
    [progress] only, no terminal frame, and has not been closed. The
    run of a request whose file the parser refuses stops for good
    before the first frame, with the stream open. *)
Lemma negative_batch_size_never_ends :
  accepted CSV_CONFIG_third (smallRequest (Some (-5))) smallFile
           (firstColumnConfig (Some (-5)))
  /\ (forall fuel,
        exists w,
          Route.POST upperNet CSV_CONFIG_third fuel (smallRequest (Some (-5))) []
          = (Diverge, w)
          /\ filter isTerminal (events w) = []
          /\ ~ In Closed w)
  /\ List.map ev_type
               (events (snd (Route.POST upperNet CSV_CONFIG_third 2
                                        (smallRequest (Some (-5))) [])))
     = [progress; progress; progress; progress; progress; progress; progress]
  /\ (forall fuel,
        exists w,
          Route.POST upperNet CSV_CONFIG_third fuel unparsedRequest []
          = (Diverge, w)
          /\ filter isTerminal (events w) = []
          /\ ~ In Closed w).
Proof.
  split; [split; [reflexivity | split; [simpl; lia | reflexivity]] |].
  split; [| split].
  - intros fuel.
    destruct (POST_diverges upperNet CSV_CONFIG_third fuel
                (smallRequest (Some (-5))) smallFile
                (firstColumnConfig (Some (-5))))
      as (w & E & Hw).
    + split; [reflexivity | split; [simpl; lia | reflexivity]].
    + unfold Route.effectiveBatchSize, num_or. simpl. lia.
    + discriminate.
    + exists w. split; [exact E | apply progressOnly_open; exact Hw].
  - vm_compute. reflexivity.
  - intros fuel.
    destruct (POST_unparsed upperNet CSV_CONFIG_third fuel unparsedRequest
                unparsedFile (firstColumnConfig (Some 2)))
      as (w & E & Hw).
    + reflexivity.
    + simpl. lia.
    + discriminate.
    + exists w. split; [exact E | apply progressOnly_open; exact Hw].
Qed.

Lemma unauthorizedNet_refusesAll : refusesAll unauthorizedNet.
Proof. intros w req. eexists. split; [reflexivity | left; reflexivity]. Qed.

(** C3 as stated fails. On a service that answers 401 to every call the
    translator raises [AuthenticationError], four times in this run, and
    yet the run sends eight [progress] frames and then a [complete]
    frame with the untranslated rows: no [error] frame. *)
Lemma fatal_error_does_not_end_run :
  fst (Route.azureTranslator_translateText unauthorizedNet
         (lit "cat") (lit "es") (lit "en") [])
  = Throw Azure.AuthenticationError
  /\ (let (r, w) :=
        Route.POST unauthorizedNet CSV_CONFIG_third 3 (smallRequest (Some 2)) [] in
      r = Ok tt
      /\ invocations w = 4%nat
      /\ List.map ev_type (events w)
         = [progress; progress; progress; progress; progress; progress;
            progress; progress; complete]
      /\ List.map ev_data (filter isTerminal (events w))
         = [Some (List.map plain (Route.records smallFile))]).
Proof. vm_compute. repeat split. Qed.

Lemma translator_errors_absorbed_witness :
  exists pre,
    Route.POST unauthorizedNet CSV_CONFIG_third 3 (smallRequest (Some 2)) []
    = (Ok tt,
       Closed
         :: Sent (Route.completeEvent 3 3 (plain (headersOf smallFile) :: List.map plain (rowsOf smallFile)))
         :: pre)
    /\ progressOnly pre.
Proof.
  destruct (translator_errors_absorbed
              unauthorizedNet CSV_CONFIG_third 3 (smallRequest (Some 2))
              smallFile (firstColumnConfig (Some 2)))
    as (_ & pre & outs & E & Hpre & Hrows).
  - split; [reflexivity | split; [simpl; lia | reflexivity]].
  - unfold Route.effectiveBatchSize, num_or. simpl. lia.
  - simpl. lia.
  - exists pre. rewrite (Hrows unauthorizedNet_refusesAll) in E.
    split; [exact E | exact Hpre].
Defined.

(* ===================================================================== *)
(** ** The batch loop follows the partition; the scenarios of the design *)
(* ===================================================================== *)

Section Scenarios.

Variable net : Azure.Network.

(** Whenever the partition exists, the batch loop ends after one
    iteration per batch of it, and its output rows stand to the rows of
    those batches, taken in order, as outcomes to inputs. *)
Lemma batchLoop_follows_partition fuel config (csvRows : list Row) b totalBatches w
      batches :
  Route.partition fuel csvRows b = Some batches ->
  exists st w',
    Route.batchLoop net fuel config csvRows (len csvRows) b totalBatches w
    = (Ok st, w')
    /\ rowsOutcome net config (List.concat (List.map snd batches))
                   (Route.translatedRows st)
    /\ Route.currentBatch st = len batches.
Proof.
  unfold Route.partition. intros Hp.
  destruct (Route.loopIndices fuel (len csvRows) b 0) as [indices |] eqn:Hidx;
    [| discriminate].
  simpl in Hp. inversion Hp; subst batches. clear Hp.
  destruct (forLoop_follows
              (loopInvariant net config csvRows b)
              (Route.batchBody net config csvRows (len csvRows) b totalBatches)
              (len csvRows) b
              (fun i s w0 done Hinv =>
                 batchBody_spec net config csvRows (len csvRows) b totalBatches
                                i s w0 done Hinv)
              fuel 0 indices Hidx (Route.mkRun [] 0 0 []) w [])
    as (r & d & E & _ & Hr).
  - unfold loopInvariant, batchesAt. simpl. split; [constructor | auto].
  - destruct r as [st | |]; simpl in Hr; try tauto.
    destruct Hr as (Hrows & _ & Hcur).
    exists st, (d ++ w). split; [exact E |].
    rewrite map_map. simpl. split; [exact Hrows |].
    rewrite Hcur. unfold len. rewrite length_map. reflexivity.
Qed.

End Scenarios.

(** Scenario A: five rows, two columns, batches of two, the first
    column translated by a service that upper-cases. Three batches of
    2, 2 and 1 rows; the first column comes back in upper case, the
    second untouched, in the original order. *)
Example scenario_upper_case :
  option_map (List.map (fun b => len (snd b)))
             (Route.partition 5 (rowsOf fiveRowFile) 2)
  = Some [2; 2; 1]
  /\ completions (snd (Route.POST upperNet CSV_CONFIG_third 5
                                  (requestFor fiveRowFile (Some 2)) []))
     = [(Some 5, Some 5,
         Some (List.map plain
                 [[lit "name"; lit "id"];
                  [lit "ANT"; lit "a1"];
                  [lit "BEE"; lit "b2"];
                  [lit "CAT"; lit "c3"];
                  [lit "DOG"; lit "d4"];
                  [lit "EEL"; lit "e5"]]))].
Proof. split; vm_compute; reflexivity. Qed.

(** Scenario D: no row. One [complete] frame with no row announced, no
    row processed and the header line alone. *)
Example scenario_no_rows :
  Route.partition 0 (rowsOf headerOnlyFile) 2 = Some []
  /\ completions (snd (Route.POST upperNet CSV_CONFIG_third 0
                                  (requestFor headerOnlyFile (Some 2)) []))
     = [(Some 0, Some 0, Some [plain [lit "name"; lit "id"]])].
Proof. split; vm_compute; reflexivity. Qed.

(** Scenario E: a batch size above the number of rows. One batch, and
    every frame that counts batches says batch 1 of 1. *)
Example scenario_single_batch :
  option_map (List.map (fun b => len (snd b)))
             (Route.partition 5 (rowsOf fiveRowFile) 10)
  = Some [5]
  /\ filter (fun c => match fst c with Some _ => true | None => false end)
            (batchCounters (snd (Route.POST upperNet CSV_CONFIG_third 5
                                            (requestFor fiveRowFile (Some 10)) [])))
     = [(Some 1, Some 1); (Some 1, Some 1); (Some 1, Some 1)].
Proof. split; vm_compute; reflexivity. Qed.

(** A configuration without [columnMappings] makes every row fail: the
    rows are replaced by the originals, the failures are announced, and
    the run completes. *)
Example scenario_rows_fail :
  completions (snd (Route.POST upperNet CSV_CONFIG_third 3 bareRequest []))
  = [(Some 3, Some 3, Some (List.map plain (Route.records smallFile)))]
  /\ announced (lit "2 rows failed in this batch")
               (snd (Route.POST upperNet CSV_CONFIG_third 3 bareRequest []))
     = true.
Proof. split; vm_compute; reflexivity. Qed.

(* ===================================================================== *)
(** ** Counting effects *)
(* ===================================================================== *)

Section Counting.

Lemma invocations_app d d' :
  invocations (d ++ d') = (invocations d + invocations d')%nat.
Proof. unfold invocations. rewrite filter_app, length_app. reflexivity. Qed.

Lemma fetches_app d d' : fetches (d ++ d') = (fetches d + fetches d')%nat.
Proof. unfold fetches. rewrite filter_app, length_app. reflexivity. Qed.

Lemma sleeps_app d d' :
  Measures.sleeps (d ++ d') = (Measures.sleeps d + Measures.sleeps d')%nat.
Proof. unfold Measures.sleeps. rewrite filter_app, length_app. reflexivity. Qed.

Lemma delays_app d d' :
  Measures.delays (d ++ d') = Measures.delays d' ++ Measures.delays d.
Proof.
  unfold Measures.delays. rewrite <- rev_app_distr. f_equal.
  induction d as [| e d IH]; simpl; [reflexivity |].
  destruct e; simpl; rewrite IH; reflexivity.
Qed.

Lemma invocations_additive : Measures.Additive invocations.
Proof. split; [apply invocations_app | reflexivity | reflexivity | reflexivity]. Qed.

Lemma fetches_additive : Measures.Additive fetches.
Proof. split; [apply fetches_app | reflexivity | reflexivity | reflexivity]. Qed.

Lemma str_eqb_eq a : forall b, str_eqb a b = true <-> a = b.
Proof.
  induction a as [| x a IH]; intros [| y b]; simpl; split; intros H;
    try reflexivity; try discriminate.
  - apply andb_prop in H. destruct H as [Hx Hab].
    apply N.eqb_eq in Hx. apply IH in Hab. subst. reflexivity.
  - inversion H; subst. rewrite N.eqb_refl. simpl. apply IH. reflexivity.
Qed.

Lemma str_eqb_refl a : str_eqb a a = true.
Proof. apply str_eqb_eq. reflexivity. Qed.

Lemma str_eqb_neq a b : a <> b -> str_eqb a b = false.
Proof.
  intros H. destruct (str_eqb a b) eqn:E; [| reflexivity].
  apply str_eqb_eq in E. contradiction.
Qed.

End Counting.

(* ===================================================================== *)
(** ** The Azure client: requests, retries and errors *)
(* ===================================================================== *)

Section ClientFacts.

Variable net : Azure.Network.
Variable config : Azure.AzureTranslatorConfig.

(** X1. The backoff delay never exceeds [maxRetryDelay], never
    decreases from one attempt to the next, and is
    [initialRetryDelay * 2 ^ attempt] as long as that stays under the
    cap. *)
Theorem backoff_bounded_monotone (attempt : Z) :
  0 <= attempt ->
  0 <= Azure.initialRetryDelay config ->
  Azure.calculateBackoffDelay config attempt <= Azure.maxRetryDelay config
  /\ Azure.calculateBackoffDelay config attempt
     <= Azure.calculateBackoffDelay config (attempt + 1)
  /\ (Azure.initialRetryDelay config * 2 ^ attempt <= Azure.maxRetryDelay config ->
      Azure.calculateBackoffDelay config attempt
      = Azure.initialRetryDelay config * 2 ^ attempt).
Proof.
  intros Ha Hi. unfold Azure.calculateBackoffDelay.
  rewrite Z.pow_add_r by lia. change (2 ^ 1) with 2.
  assert (0 < 2 ^ attempt) by (apply Z.pow_pos_nonneg; lia).
  repeat split; lia.
Qed.

(** What a read throws is a [TypeError]. *)
Lemma read_throws v key e : read v key = inl e -> exists m, e = typeError m.
Proof.
  destruct v as [j |]; [destruct j |]; simpl; intros H; inversion H;
    eexists; reflexivity.
Qed.

(** What a conversion to a string throws is the [TypeError] of a value
    without a primitive. *)
Lemma toStr_throws : forall v e, toStr v = inl e -> e = cannotConvert.
Proof.
  fix IH 1. intros v e. destruct v as [| b | n | s | items | fields]; simpl.
  - discriminate.
  - destruct b; discriminate.
  - discriminate.
  - discriminate.
  - revert items e. fix IHrest 1. intros items e.
    destruct items as [| x rest]; [discriminate |].
    pose proof (IH x) as Hx.
    destruct (match x with JNull => inr [] | _ => toStr x end)
      as [e0 | first] eqn:Ex.
    + intros H. inversion H; subst e0.
      destruct x; try discriminate; exact (Hx _ Ex).
    + pose proof (IHrest rest) as Hrest.
      destruct rest as [| y rest']; [discriminate |].
      match goal with
      | |- context [match ?j with inl _ => _ | inr _ => _ end] =>
          destruct j as [e1 | others] eqn:Ej
      end; [| discriminate].
      intros H. exact (Hrest _ H).
  - destruct (lookup (lit "toString") fields); [| discriminate].
    intros H. inversion H. reflexivity.
Qed.

Lemma toStrValue_throws v e : toStrValue v = inl e -> exists m, e = typeError m.
Proof.
  destruct v as [j |]; simpl; [| discriminate].
  intros H. apply toStr_throws in H. subst e. eexists. reflexivity.
Qed.

Lemma detailsMessage_throws errorDetails fallback e :
  Azure.detailsMessage errorDetails fallback = inl e ->
  exists m, e = typeError m.
Proof.
  unfold Azure.detailsMessage, andThen.
  destruct (read (Some errorDetails) kError) as [e0 | error] eqn:Eerr.
  { intros H. inversion H; subst e0. eapply read_throws. exact Eerr. }
  destruct (truthyValue (optionalProperty error kMessage)).
  { apply toStrValue_throws. }
  destruct (read (Some errorDetails) kMessage) as [e0 | own] eqn:Eown.
  { intros H. inversion H; subst e0. eapply read_throws. exact Eown. }
  apply toStrValue_throws.
Qed.

Lemma detailsCode_throws errorDetails e :
  Azure.detailsCode errorDetails = inl e -> exists m, e = typeError m.
Proof.
  unfold Azure.detailsCode, andThen.
  destruct (read (Some errorDetails) kError) as [e0 | error] eqn:Eerr;
    [| discriminate].
  intros H. inversion H; subst e0. eapply read_throws. exact Eerr.
Qed.

Ltac by_status r :=
  unfold Azure.parseErrorResponse;
  destruct (Azure.status r) as [| p | p];
  repeat match goal with
         | |- context [match ?q with xI _ => _ | xO _ => _ | xH => _ end] =>
             destruct q
         end.

(** What [parseErrorResponse] throws: an [AzureTranslatorError] with
    the status of the response, or the [TypeError] of a read of the
    body. Never an abort error. *)
Lemma parseErrorResponse_kinds (r : Azure.Response) :
  str_eqb (name (Azure.parseErrorResponse r)) (lit "AbortError") = false
  /\ (isAzure (Azure.parseErrorResponse r) = true
      /\ statusCode (Azure.parseErrorResponse r) = Some (Azure.status r)
      \/ exists m, Azure.parseErrorResponse r = typeError m).
Proof.
  by_status r;
    try (split; [reflexivity | left; split; reflexivity]);
    (destruct (Azure.detailsMessage (Azure.readErrorDetails r) _)
      as [e | m] eqn:Em;
     [destruct (detailsMessage_throws _ _ _ Em) as [m ->];
      split; [reflexivity | right; eexists; reflexivity] |]);
    try (split; [reflexivity | left; split; reflexivity]);
    (destruct (Azure.detailsCode (Azure.readErrorDetails r)) as [e | code] eqn:Ec;
     [destruct (detailsCode_throws _ _ Ec) as [m' ->];
      split; [reflexivity | right; eexists; reflexivity]
     | split; [reflexivity | left; split; reflexivity]]).
Qed.

Lemma parseErrorResponse_name r :
  str_eqb (name (Azure.parseErrorResponse r)) (lit "AbortError") = false.
Proof. apply parseErrorResponse_kinds. Qed.

(** An error of [parseErrorResponse] that is not retried is an
    [AzureTranslatorError]. *)
Lemma parseErrorResponse_azure (r : Azure.Response) :
  Azure.isRetryableError (Azure.parseErrorResponse r) = false ->
  isAzure (Azure.parseErrorResponse r) = true.
Proof.
  destruct (parseErrorResponse_kinds r) as [_ [[H _] | [m ->]]]; [auto |].
  discriminate.
Qed.

Lemma fixedMessage_typed r :
  Measures.fixedMessageStatus (Azure.status r) ->
  isAzure (Azure.parseErrorResponse r) = true
  /\ statusCode (Azure.parseErrorResponse r) = Some (Azure.status r)
  /\ Azure.isRetryableError (Azure.parseErrorResponse r) = false.
Proof.
  unfold Measures.fixedMessageStatus, Azure.parseErrorResponse.
  intros [-> | [-> | [-> | ->]]]; repeat split; reflexivity.
Qed.

(** The details of a body that is not announced as JSON: the text
    under [message], or the fixed message. *)
Lemma textual_details r :
  Measures.textual r ->
  exists t, Azure.readErrorDetails r = JObj [(lit "message", JStr t)].
Proof.
  unfold Measures.textual, Azure.readErrorDetails. intros H.
  assert (E : match Azure.contentType r with
              | Some ct => includes ct (lit "application/json")
              | None => false
              end = false)
    by (destruct (Azure.contentType r); auto).
  rewrite E. destruct (Azure.textBody r); eexists; reflexivity.
Qed.

Lemma textual_message t fallback :
  exists m,
    Azure.detailsMessage (JObj [(lit "message", JStr t)]) fallback = inr m
    /\ Azure.detailsCode (JObj [(lit "message", JStr t)])
       = inr (str (lit "UNKNOWN_ERROR")).
Proof.
  unfold Azure.detailsMessage, Azure.detailsCode, andThen. cbn.
  destruct (truthy t); eexists; split; reflexivity.
Qed.

(** Outside the four statuses with a fixed message, a body that reads
    as [null] makes the reading of the message throw. *)
Lemma parseErrorResponse_null (r : Azure.Response) :
  ~ Measures.fixedMessageStatus (Azure.status r) ->
  Measures.nullDetails r ->
  Azure.parseErrorResponse r = cannotRead (lit "null") kError.
Proof.
  unfold Measures.nullDetails, Measures.fixedMessageStatus.
  intros Hfixed Hnull. revert Hfixed.
  by_status r; intros Hfixed;
    try (exfalso; apply Hfixed; auto; fail);
    rewrite Hnull; reflexivity.
Qed.

(** X2. The error [parseErrorResponse] raises. For the statuses 401,
    403, 404 and 429 it is an [AzureTranslatorError] that carries the
    status of the response, whatever the body. For every other status
    it is such an error too, or the [TypeError] of a read of the body:
    it is typed when the body is not announced as JSON, and it is the
    [TypeError] "Cannot read properties of null (reading 'error')"
    when the body, read as JSON, is [null]. *)
Theorem parseErrorResponse_typed (r : Azure.Response) :
  (Measures.fixedMessageStatus (Azure.status r) ->
   isAzure (Azure.parseErrorResponse r) = true
   /\ statusCode (Azure.parseErrorResponse r) = Some (Azure.status r))
  /\ (isAzure (Azure.parseErrorResponse r) = true
      /\ statusCode (Azure.parseErrorResponse r) = Some (Azure.status r)
      \/ exists m, Azure.parseErrorResponse r = typeError m)
  /\ (Measures.textual r ->
      isAzure (Azure.parseErrorResponse r) = true
      /\ statusCode (Azure.parseErrorResponse r) = Some (Azure.status r))
  /\ (~ Measures.fixedMessageStatus (Azure.status r) ->
      Measures.nullDetails r ->
      Azure.parseErrorResponse r = cannotRead (lit "null") kError).
Proof.
  split; [| split; [| split]].
  - intros H. destruct (fixedMessage_typed r H) as (Ha & Hs & _). auto.
  - apply parseErrorResponse_kinds.
  - intros Ht. destruct (textual_details r Ht) as [t Et].
    destruct (textual_message t (lit "Invalid request")) as (m1 & E1 & _).
    destruct (textual_message t (lit "Unknown error")) as (m2 & E2 & Ec).
    revert E1 E2 Ec. rewrite <- Et.
    by_status r; intros E1 E2 Ec; try (split; reflexivity);
      rewrite ?E1, ?E2, ?Ec; split; reflexivity.
  - apply parseErrorResponse_null.
Qed.

(** One attempt of [makeRequest] and what follows it, counted: from
    attempt [attempt] on, with [n] retries left. *)
Lemma makeRequestFrom_budget n : forall req attempt w,
  Azure.maxRetries config - attempt <= Z.of_nat n ->
  spec (Azure.makeRequestFrom net config n req attempt) w
       (fun r d =>
          halts (fun _ => True) r
          /\ (1 <= fetches d <= S n)%nat
          /\ (Measures.sleeps d + 1 = fetches d)%nat
          /\ invocations d = 0%nat
          /\ Measures.delays d
             = List.map (fun k => Azure.calculateBackoffDelay
                                    config (attempt + Z.of_nat k))
                        (seq 0 (Measures.sleeps d))).
Proof.
  induction n as [| n IH]; intros req attempt w Hn; simpl.
  - eapply spec_tryCatch
      with (Q1 := fun r d => d = [Fetched req] /\ halts (fun _ => True) r).
    + eapply spec_bind; [apply spec_fetch | | |].
      * intros r d [-> _]. destruct (negb (Azure.ok r)).
        -- apply spec_throw. simpl. auto.
        -- apply spec_ret. simpl. auto.
      * intros e d [-> _]. simpl. auto.
      * intros d [_ []].
    + intros a d [-> _]. simpl. repeat split; auto.
    + intros e d [-> _].
      destruct (str_eqb (name e) (lit "AbortError")).
      { apply spec_throw. simpl. repeat split; auto. }
      replace (attempt <? Azure.maxRetries config) with false
        by (symmetry; apply Z.ltb_ge; lia).
      rewrite andb_false_r.
      destruct (isAzure e); apply spec_throw; simpl; repeat split; auto.
    + intros d [_ []].
  - eapply spec_tryCatch
      with (Q1 := fun r d => d = [Fetched req] /\ halts (fun _ => True) r).
    + eapply spec_bind; [apply spec_fetch | | |].
      * intros r d [-> _]. destruct (negb (Azure.ok r)).
        -- apply spec_throw. simpl. auto.
        -- apply spec_ret. simpl. auto.
      * intros e d [-> _]. simpl. auto.
      * intros d [_ []].
    + intros a d [-> _]. simpl. repeat split; auto. unfold fetches. simpl. lia.
    + intros e d [-> _].
      destruct (str_eqb (name e) (lit "AbortError")).
      { apply spec_throw. simpl. repeat split; auto. unfold fetches. simpl. lia. }
      destruct (Azure.isRetryableError e && (attempt <? Azure.maxRetries config)).
      * apply spec_bind_emit.
        eapply spec_weaken; [apply IH; lia |].
        intros r d (Hr & Hf & Hs & Hi & Hd).
        rewrite <- !app_assoc.
        rewrite !fetches_app, !sleeps_app, !invocations_app, !delays_app.
        change (fetches [Fetched req]) with 1%nat.
        change (fetches [Slept (Azure.calculateBackoffDelay config attempt)])
          with 0%nat.
        change (Measures.sleeps [Fetched req]) with 0%nat.
        change (Measures.sleeps [Slept (Azure.calculateBackoffDelay config attempt)])
          with 1%nat.
        change (invocations [Fetched req]) with 0%nat.
        change (invocations [Slept (Azure.calculateBackoffDelay config attempt)])
          with 0%nat.
        change (Measures.delays [Fetched req]) with (@nil Z).
        change (Measures.delays [Slept (Azure.calculateBackoffDelay config attempt)])
          with [Azure.calculateBackoffDelay config attempt].
        split; [exact Hr |].
        split; [lia |]. split; [lia |]. split; [lia |].
        rewrite Hd.
        replace (Measures.sleeps d + (1 + 0))%nat with (S (Measures.sleeps d)) by lia.
        simpl. rewrite Z.add_0_r. f_equal.
        rewrite <- seq_shift, map_map. apply map_ext. intros k. f_equal. lia.
      * destruct (isAzure e); apply spec_throw; simpl; repeat split; auto;
          unfold fetches; simpl; lia.
    + intros d [_ []].
Qed.

(** X3. [makeRequest] always ends, after at least one request and at
    most [maxRetries + 1]; it awaits one timer before every request but
    the first, and the delays are the backoff delays of attempts 0, 1,
    2, ... in this order. *)
Theorem makeRequest_budget (req : FetchRequest) (w : World) :
  exists r d,
    Azure.makeRequest net config req w = (r, d ++ w)
    /\ r <> Diverge
    /\ (1 <= fetches d <= Z.to_nat (Azure.maxRetries config) + 1)%nat
    /\ (Measures.sleeps d + 1 = fetches d)%nat
    /\ Measures.delays d
       = List.map (fun k => Azure.calculateBackoffDelay config (Z.of_nat k))
                  (seq 0 (Measures.sleeps d)).
Proof.
  unfold Azure.makeRequest.
  destruct (makeRequestFrom_budget (Z.to_nat (Azure.maxRetries config)) req 0 w)
    as (r & d & E & Hr & Hf & Hs & _ & Hd); [lia |].
  exists r, d. split; [exact E |].
  split; [destruct r; simpl in Hr; congruence || tauto |].
  split; [lia |]. split; [exact Hs | exact Hd].
Qed.

(** X4. The errors that leave [translateText]. When the language
    codes can go into the endpoint, every error that leaves it is an
    [AzureTranslatorError]: errors of other kinds are wrapped in a
    [NetworkError]. When a code holds a lone surrogate, a call that
    passes the three checks raises the [URIError] of
    [encodeURIComponent] as it is, before any request. *)
Theorem translateText_errors_typed text toLang fromLang w :
  (Measures.encodableLanguages toLang fromLang = true ->
   forall e w',
     Azure.translateText net config text toLang fromLang w = (Throw e, w') ->
     isAzure e = true)
  /\ (Measures.encodableLanguages toLang fromLang = false ->
      truthy (trim text) = true ->
      truthy toLang = true ->
      len text <= Azure.batchCharacterLimit config ->
      Azure.translateText net config text toLang fromLang w
      = (Throw uriMalformed, Invoked text toLang fromLang :: w)
      /\ isAzure uriMalformed = false).
Proof.
  split.
  - intros Henc e w'.
    unfold Azure.translateText. unfold bind at 1. unfold emit.
    destruct (negb (truthy (trim text)));
      [intros H; inversion H; reflexivity |].
    destruct (negb (truthy toLang));
      [intros H; inversion H; reflexivity |].
    destruct (Azure.batchCharacterLimit config <? len text);
      [intros H; inversion H; reflexivity |].
    unfold bind at 1. rewrite encodeLanguages_run, Henc.
    unfold tryCatch.
    match goal with
    | |- context [let (_, _) := ?m in _] => destruct m as [[a | e0 |] w0]
    end.
    + discriminate.
    + destruct (isAzure e0) eqn:Ha; intros H; inversion H; subst;
        [exact Ha | reflexivity].
    + discriminate.
  - intros Henc Ht Hl Hlen.
    unfold Azure.translateText. unfold bind at 1. unfold emit.
    rewrite Ht, Hl. cbn [negb].
    replace (Azure.batchCharacterLimit config <? len text) with false
      by (symmetry; apply Z.ltb_ge; exact Hlen).
    cbv beta iota. unfold bind at 1. rewrite encodeLanguages_run, Henc.
    split; reflexivity.
Qed.

(** X5. A text that is blank, a missing target language and a text
    over the character limit are refused, in this order of precedence,
    with an error of status 400 and without any request. *)
Theorem translateText_guards text toLang fromLang w :
  truthy (trim text) = false
  \/ truthy toLang = false
  \/ Azure.batchCharacterLimit config < len text ->
  exists e,
    Azure.translateText net config text toLang fromLang w
    = (Throw e, Invoked text toLang fromLang :: w)
    /\ statusCode e = Some 400
    /\ errorCode e
       = str (if negb (truthy (trim text)) then lit "EMPTY_TEXT"
              else if negb (truthy toLang) then lit "MISSING_TARGET_LANGUAGE"
              else lit "TEXT_TOO_LONG").
Proof.
  intros H. unfold Azure.translateText, bind, emit.
  destruct (truthy (trim text)) eqn:Ht; simpl;
    [| eexists; repeat split].
  destruct (truthy toLang) eqn:Hl; simpl;
    [| eexists; repeat split].
  destruct H as [H | [H | H]]; try discriminate.
  replace (Azure.batchCharacterLimit config <? len text) with true
    by (symmetry; apply Z.ltb_lt; exact H).
  eexists; repeat split.
Qed.

(** One attempt of [makeRequest], by what the network answers. *)
Lemma makeRequestFrom_ok n req attempt w r :
  net w req = Azure.Responds r ->
  Azure.ok r = true ->
  Azure.makeRequestFrom net config n req attempt w = (Ok r, Fetched req :: w).
Proof.
  intros Hnet Hok.
  destruct n; simpl; unfold tryCatch, bind, Azure.fetch;
    rewrite Hnet, Hok; reflexivity.
Qed.

Lemma makeRequestFrom_abort n req attempt w e :
  net w req = Azure.Rejects e ->
  str_eqb (name e) (lit "AbortError") = true ->
  Azure.makeRequestFrom net config n req attempt w
  = (Throw (Azure.NetworkError (lit "Request timeout")), Fetched req :: w).
Proof.
  intros Hnet Hname.
  destruct n; simpl; unfold tryCatch, bind, Azure.fetch;
    rewrite Hnet, Hname; reflexivity.
Qed.

Lemma makeRequestFrom_refused n req attempt w r :
  net w req = Azure.Responds r ->
  Azure.ok r = false ->
  Azure.isRetryableError (Azure.parseErrorResponse r) = false ->
  Azure.makeRequestFrom net config n req attempt w
  = (Throw (Azure.parseErrorResponse r), Fetched req :: w).
Proof.
  intros Hnet Hok Hretry.
  pose proof (parseErrorResponse_azure r Hretry) as Hazure.
  destruct n; simpl; unfold tryCatch, bind, Azure.fetch;
    rewrite Hnet, Hok; simpl;
    rewrite parseErrorResponse_name, Hretry, Hazure; reflexivity.
Qed.

Lemma makeRequestFrom_retry n req attempt w e :
  net w req = Azure.Rejects e ->
  str_eqb (name e) (lit "AbortError") = false ->
  Azure.isRetryableError e = true ->
  attempt < Azure.maxRetries config ->
  Azure.makeRequestFrom net config (S n) req attempt w
  = Azure.makeRequestFrom
      net config n req (attempt + 1)
      (Slept (Azure.calculateBackoffDelay config attempt) :: Fetched req :: w).
Proof.
  intros Hnet Hname Hretry Hlt.
  simpl. unfold tryCatch at 1. unfold bind at 1. unfold Azure.fetch at 1.
  rewrite Hnet, Hname, Hretry.
  replace (attempt <? Azure.maxRetries config) with true
    by (symmetry; apply Z.ltb_lt; exact Hlt).
  reflexivity.
Qed.

(** A failure answer whose reading throws a [TypeError] is retried as
    a failed fetch is: when every answer is that one, [makeRequest]
    uses up its retries and wraps the [TypeError] of the last
    attempt. *)
Lemma makeRequestFrom_unreadable req r m : forall n attempt w,
  (forall w', net w' req = Azure.Responds r) ->
  Azure.ok r = false ->
  Azure.parseErrorResponse r = typeError m ->
  n = Z.to_nat (Azure.maxRetries config - attempt) ->
  exists d,
    Azure.makeRequestFrom net config n req attempt w
    = (Throw (Azure.NetworkError (lit "Request failed: " ++ m)), d ++ w)
    /\ fetches d = S n
    /\ Measures.sleeps d = n.
Proof.
  induction n as [| n IH]; intros attempt w Hnet Hok Hper Hn.
  - exists [Fetched req]. simpl.
    unfold tryCatch, bind, Azure.fetch. rewrite Hnet, Hok. simpl.
    rewrite Hper. simpl.
    replace (attempt <? Azure.maxRetries config) with false
      by (symmetry; apply Z.ltb_ge; lia).
    auto.
  - destruct (IH (attempt + 1)
                 (Slept (Azure.calculateBackoffDelay config attempt)
                    :: Fetched req :: w)
                 Hnet Hok Hper ltac:(lia)) as (d & E & Hf & Hs).
    exists (d ++ [Slept (Azure.calculateBackoffDelay config attempt); Fetched req]).
    rewrite <- app_assoc. cbn [app].
    split; [| split].
    + cbn [Azure.makeRequestFrom].
      unfold tryCatch at 1. unfold bind at 1. unfold Azure.fetch at 1.
      rewrite Hnet, Hok. simpl negb. cbv iota. unfold throw at 1.
      rewrite Hper. simpl.
      replace (attempt <? Azure.maxRetries config) with true
        by (symmetry; apply Z.ltb_lt; lia).
      unfold bind at 1, sleep, emit. exact E.
    + rewrite fetches_app, Hf. unfold fetches. simpl. lia.
    + rewrite sleeps_app, Hs. unfold Measures.sleeps. simpl. lia.
Qed.

(** The guards of [translateText] once passed, what is left is the
    request and the reading of the answer. *)
Lemma translateText_guarded text toLang fromLang w :
  Measures.passesGuards config text toLang fromLang ->
  Azure.translateText net config text toLang fromLang w
  = tryCatch
      (response <- Azure.makeRequest
                     net config (Measures.requestOf text toLang fromLang) ;;
       data <- Azure.responseJson response ;;
       lift (Azure.readTranslation data))
      (fun error =>
         if isAzure error
         then throw error
         else throw (Azure.NetworkError (lit "Translation failed: " ++ msg error)))
      (Invoked text toLang fromLang :: w).
Proof.
  intros (Ht & Hl & Hlen & Henc).
  unfold Azure.translateText. unfold bind at 1. unfold emit.
  rewrite Ht, Hl. cbn [negb].
  replace (Azure.batchCharacterLimit config <? len text) with false
    by (symmetry; apply Z.ltb_ge; exact Hlen).
  cbv beta iota. unfold bind at 1. rewrite encodeLanguages_run, Henc.
  reflexivity.
Qed.

(** The translation read off a body whose first element has a
    translation. *)
Lemma readTranslation_first fields rest t ts :
  lookup (lit "translations") fields = Some (JArr (t :: ts)) ->
  t <> JNull ->
  Azure.readTranslation (JArr (JObj fields :: rest))
  = inr (Measures.translationOf fields t).
Proof.
  intros Htr Ht.
  assert (Hlen : (len (t :: ts) =? 0) = false)
    by (apply Z.eqb_neq; unfold len; simpl; lia).
  unfold Azure.readTranslation, Azure.invalidData, andThen, read.
  cbn [property hd_error]. change (keyName kTranslations) with (lit "translations").
  rewrite Htr.
  cbn [optionalProperty property truthyValue numberOf isZero negb hd_error].
  rewrite Hlen. cbn [negb].
  destruct t; try congruence; reflexivity.
Qed.

(** X6. A request that times out is not retried: [translateText]
    raises the [NetworkError] "Request timeout" after that single
    request, whatever the retry budget of the client. *)
Theorem timeout_not_retried text toLang fromLang w e :
  Measures.passesGuards config text toLang fromLang ->
  net (Invoked text toLang fromLang :: w)
      (Measures.requestOf text toLang fromLang)
  = Azure.Rejects e ->
  name e = lit "AbortError" ->
  Azure.translateText net config text toLang fromLang w
  = (Throw (Azure.NetworkError (lit "Request timeout")),
     Fetched (Measures.requestOf text toLang fromLang)
       :: Invoked text toLang fromLang :: w).
Proof.
  intros Hg Hnet Hname.
  rewrite translateText_guarded by exact Hg.
  unfold tryCatch, bind, Azure.makeRequest.
  rewrite (makeRequestFrom_abort _ _ _ _ e Hnet)
    by (rewrite Hname; apply str_eqb_refl).
  reflexivity.
Qed.

(** X7. An answer of status 401, 403, 404 or 429, and any other
    failure answer whose error is not one the client retries (it is
    not a [TypeError] and its message does not mention "fetch"), is
    raised to the caller after that single request: rate limits and
    server errors are not retried. A failure answer of another status
    whose JSON body is [null] is retried: reading it throws a
    [TypeError], and when every answer is that one the client sends
    [maxRetries + 1] requests and raises a [NetworkError] with the
    message of the [TypeError]. *)
Theorem failure_status_not_retried text toLang fromLang w r :
  Measures.passesGuards config text toLang fromLang ->
  net (Invoked text toLang fromLang :: w)
      (Measures.requestOf text toLang fromLang)
  = Azure.Responds r ->
  (Measures.fixedMessageStatus (Azure.status r)
   \/ (Azure.ok r = false
       /\ Azure.isRetryableError (Azure.parseErrorResponse r) = false) ->
   Azure.translateText net config text toLang fromLang w
   = (Throw (Azure.parseErrorResponse r),
      Fetched (Measures.requestOf text toLang fromLang)
        :: Invoked text toLang fromLang :: w))
  /\ (Azure.ok r = false ->
      ~ Measures.fixedMessageStatus (Azure.status r) ->
      Measures.nullDetails r ->
      (forall w', net w' (Measures.requestOf text toLang fromLang)
                  = Azure.Responds r) ->
      exists d,
        Azure.translateText net config text toLang fromLang w
        = (Throw (Azure.NetworkError
                    (lit "Request failed: "
                       ++ msg (cannotRead (lit "null") kError))),
           d ++ Invoked text toLang fromLang :: w)
        /\ fetches d = (Z.to_nat (Azure.maxRetries config) + 1)%nat
        /\ Measures.sleeps d = Z.to_nat (Azure.maxRetries config)).
Proof.
  intros Hg Hnet. split.
  - intros Hr.
    assert (Hno : Azure.ok r = false
                  /\ Azure.isRetryableError (Azure.parseErrorResponse r) = false).
    { destruct Hr as [Hs | Hno]; [| exact Hno].
      destruct (fixedMessage_typed r Hs) as (_ & _ & Hretry).
      split; [| exact Hretry].
      unfold Measures.fixedMessageStatus, Azure.ok in *.
      destruct Hs as [-> | [-> | [-> | ->]]]; reflexivity. }
    destruct Hno as [Hok Hretry].
    rewrite translateText_guarded by exact Hg.
    unfold tryCatch, bind, Azure.makeRequest.
    rewrite (makeRequestFrom_refused _ _ _ _ r Hnet Hok Hretry).
    rewrite (parseErrorResponse_azure r Hretry). reflexivity.
  - intros Hok Hfixed Hnull Hall.
    assert (Hper : Azure.parseErrorResponse r
                   = typeError (msg (cannotRead (lit "null") kError))).
    { rewrite (parseErrorResponse_null r Hfixed Hnull). reflexivity. }
    destruct (makeRequestFrom_unreadable
                (Measures.requestOf text toLang fromLang) r _
                (Z.to_nat (Azure.maxRetries config)) 0
                (Invoked text toLang fromLang :: w) Hall Hok Hper
                ltac:(f_equal; lia))
      as (d & E & Hf & Hs).
    exists d.
    rewrite translateText_guarded by exact Hg.
    unfold tryCatch, bind, Azure.makeRequest. rewrite E.
    split; [reflexivity |]. split; [lia | exact Hs].
Qed.

(** X8. When the first answer is a success whose body is an array
    with a translation in its first element, [translateText] returns
    the [text] of that translation, with the detected language and its
    score, after one request. *)
Theorem translateText_success text toLang fromLang w r fields rest t ts :
  Measures.passesGuards config text toLang fromLang ->
  net (Invoked text toLang fromLang :: w)
      (Measures.requestOf text toLang fromLang)
  = Azure.Responds r ->
  Azure.ok r = true ->
  Azure.jsonBody r = inr (JArr (JObj fields :: rest)) ->
  lookup (lit "translations") fields = Some (JArr (t :: ts)) ->
  t <> JNull ->
  Azure.translateText net config text toLang fromLang w
  = (Ok (Measures.translationOf fields t),
     Fetched (Measures.requestOf text toLang fromLang)
       :: Invoked text toLang fromLang :: w).
Proof.
  intros Hg Hnet Hok Hjson Htr Ht.
  rewrite translateText_guarded by exact Hg.
  unfold tryCatch, bind, Azure.makeRequest.
  rewrite (makeRequestFrom_ok _ _ _ _ r Hnet Hok).
  unfold Azure.responseJson. rewrite Hjson.
  cbn [lift]. unfold ret at 1.
  rewrite (readTranslation_first fields rest t ts Htr Ht).
  reflexivity.
Qed.

(** X9. A success answer whose body is not an array, is an empty
    array, or has no translation in its first element makes
    [translateText] raise INVALID_RESPONSE, status 500, after that one
    request. A body that is not JSON is raised as a [NetworkError]
    unless the parser's error is already an [AzureTranslatorError], and
    so is a body whose first element is [null]: the test of the body
    throws a [TypeError] on it. *)
Theorem translateText_invalid_body text toLang fromLang w r :
  Measures.passesGuards config text toLang fromLang ->
  net (Invoked text toLang fromLang :: w)
      (Measures.requestOf text toLang fromLang)
  = Azure.Responds r ->
  Azure.ok r = true ->
  (Measures.invalidBody r ->
   Azure.translateText net config text toLang fromLang w
   = (Throw Azure.invalidResponse,
      Fetched (Measures.requestOf text toLang fromLang)
        :: Invoked text toLang fromLang :: w))
  /\ (forall e,
        Azure.jsonBody r = inl e ->
        isAzure e = false ->
        Azure.translateText net config text toLang fromLang w
        = (Throw (Azure.NetworkError (lit "Translation failed: " ++ msg e)),
           Fetched (Measures.requestOf text toLang fromLang)
             :: Invoked text toLang fromLang :: w))
  /\ (forall rest,
        Azure.jsonBody r = inr (JArr (JNull :: rest)) ->
        Azure.translateText net config text toLang fromLang w
        = (Throw (Azure.NetworkError
                    (lit "Translation failed: "
                       ++ msg (cannotRead (lit "null") kTranslations))),
           Fetched (Measures.requestOf text toLang fromLang)
             :: Invoked text toLang fromLang :: w)).
Proof.
  intros Hg Hnet Hok.
  rewrite translateText_guarded by exact Hg.
  unfold tryCatch, bind, Azure.makeRequest.
  rewrite (makeRequestFrom_ok _ _ _ _ r Hnet Hok).
  unfold Azure.responseJson, Measures.invalidBody.
  split; [| split].
  - intros (data & -> & Hinv). simpl.
    unfold Azure.readTranslation, andThen. rewrite Hinv. reflexivity.
  - intros e -> He. simpl. rewrite He. reflexivity.
  - intros rest ->. reflexivity.
Qed.

(** X10. A network failure on the first request is retried after the
    first backoff delay, and a success then is returned: two requests
    and one timer. *)
Theorem network_failure_retried text toLang fromLang w e r fields rest t ts :
  Measures.passesGuards config text toLang fromLang ->
  0 < Azure.maxRetries config ->
  net (Invoked text toLang fromLang :: w)
      (Measures.requestOf text toLang fromLang)
  = Azure.Rejects e ->
  str_eqb (name e) (lit "AbortError") = false ->
  Azure.isRetryableError e = true ->
  net (Slept (Azure.calculateBackoffDelay config 0)
         :: Fetched (Measures.requestOf text toLang fromLang)
         :: Invoked text toLang fromLang :: w)
      (Measures.requestOf text toLang fromLang)
  = Azure.Responds r ->
  Azure.ok r = true ->
  Azure.jsonBody r = inr (JArr (JObj fields :: rest)) ->
  lookup (lit "translations") fields = Some (JArr (t :: ts)) ->
  t <> JNull ->
  Azure.translateText net config text toLang fromLang w
  = (Ok (Measures.translationOf fields t),
     Fetched (Measures.requestOf text toLang fromLang)
       :: Slept (Azure.calculateBackoffDelay config 0)
       :: Fetched (Measures.requestOf text toLang fromLang)
       :: Invoked text toLang fromLang :: w).
Proof.
  intros Hg Hmax Hnet1 Hname Hretry Hnet2 Hok Hjson Htr Ht.
  rewrite translateText_guarded by exact Hg.
  unfold tryCatch, bind, Azure.makeRequest.
  destruct (Z.to_nat (Azure.maxRetries config)) as [| n] eqn:Hn; [lia |].
  rewrite (makeRequestFrom_retry n _ 0 _ e Hnet1 Hname Hretry Hmax).
  rewrite (makeRequestFrom_ok _ _ _ _ r Hnet2 Hok).
  unfold Azure.responseJson. rewrite Hjson.
  cbn [lift]. unfold ret at 1.
  rewrite (readTranslation_first fields rest t ts Htr Ht).
  reflexivity.
Qed.

End ClientFacts.

(* ===================================================================== *)
(** ** [translateBatch], [testConnection] and more on [createBatches] *)
(* ===================================================================== *)

Section BatchFacts.

Variable net : Azure.Network.
Variable config : Azure.AzureTranslatorConfig.

(** Two reads in a row leave the world alone and end. *)
Lemma spec_reads {A B} (m : Read A) (k : A -> Read B) w :
  spec (a <- lift m ;; lift (k a)) w
       (fun r d => d = [] /\ halts (fun _ => True) r
                   /\ r = match andThen m k with
                          | inl e => Throw e
                          | inr b => Ok b
                          end).
Proof.
  unfold spec, bind, andThen.
  destruct m as [e | a]; simpl.
  - exists (Throw e), []. simpl. auto.
  - destruct (k a) as [e | b]; simpl.
    + exists (Throw e), []. simpl. auto.
    + exists (Ok b), []. simpl. auto.
Qed.

Lemma translateText_budget text toLang fromLang w :
  spec (Azure.translateText net config text toLang fromLang) w
       (fun r d =>
          halts (fun _ => True) r
          /\ invocations d = 1%nat
          /\ (fetches d <= Z.to_nat (Azure.maxRetries config) + 1)%nat).
Proof.
  unfold Azure.translateText.
  apply spec_bind_emit.
  destruct (negb (truthy (trim text)));
    [apply spec_throw; simpl; repeat split; auto; unfold fetches; simpl; lia |].
  destruct (negb (truthy toLang));
    [apply spec_throw; simpl; repeat split; auto; unfold fetches; simpl; lia |].
  destruct (Azure.batchCharacterLimit config <? len text);
    [apply spec_throw; simpl; repeat split; auto; unfold fetches; simpl; lia |].
  eapply spec_bind; [apply spec_encodeLanguages | | |].
  2: { intros e d [-> _]. simpl. repeat split; auto. unfold fetches. simpl. lia. }
  2: { intros d [_ []]. }
  intros [] d0 [-> _]. cbn [app].
  eapply spec_weaken
    with (Q := fun r d =>
            halts (fun _ => True) r
            /\ invocations d = 0%nat
            /\ (fetches d <= Z.to_nat (Azure.maxRetries config) + 1)%nat).
  2: { intros r d (Hr & Hi & Hf). rewrite app_nil_r.
       rewrite invocations_app, fetches_app. rewrite Hi.
       change (fetches [Invoked text toLang fromLang]) with 0%nat.
       split; [exact Hr |]. split; [reflexivity | lia]. }
  eapply spec_tryCatch
    with (Q1 := fun r d =>
            halts (fun _ => True) r
            /\ invocations d = 0%nat
            /\ (fetches d <= Z.to_nat (Azure.maxRetries config) + 1)%nat).
  - eapply spec_bind.
    + apply makeRequestFrom_budget. lia.
    + intros resp d (_ & Hf & _ & Hi & _).
      unfold Azure.responseJson.
      eapply spec_weaken; [apply spec_reads |].
      intros r d' (-> & Hr & _). simpl. repeat split; auto; lia.
    + intros e d (_ & Hf & _ & Hi & _). simpl. repeat split; auto; lia.
    + intros d ([] & _).
  - intros a d H. exact H.
  - intros e d (_ & Hi & Hf).
    destruct (isAzure e); apply spec_throw; simpl; repeat split; auto.
  - intros d ([] & _).
Qed.

(** [data.map] yields one text per item. *)
Lemma extractTranslations_length i data : forall ts,
  AzureMore.extractTranslations i data = inr ts ->
  List.length ts = List.length data.
Proof.
  induction data as [| item rest IH]; intros ts; simpl.
  - intros H. inversion H. reflexivity.
  - unfold andThen.
    destruct (AzureMore.extractTranslation i item) as [e | t]; [discriminate |].
    destruct (AzureMore.extractTranslations i rest) as [e | ts']; [discriminate |].
    intros H. inversion H. simpl. rewrite (IH ts' eq_refl). reflexivity.
Qed.

Lemma readBatch_length i batch data ts :
  AzureMore.readBatch i batch data = inr ts ->
  List.length ts = List.length batch.
Proof.
  unfold AzureMore.readBatch.
  destruct data as [| b | n | s | items | fields]; try discriminate.
  destruct (len items =? len batch) eqn:Hlen; simpl; [| discriminate].
  intros H. apply extractTranslations_length in H.
  apply Z.eqb_eq in Hlen. unfold len in Hlen. lia.
Qed.

Lemma sendBatches_spec toLang fromLang count batches : forall i acc w,
  spec (AzureMore.sendBatches net config toLang fromLang count i batches acc) w
       (fun r d =>
          (fetches d
           <= List.length batches * (Z.to_nat (Azure.maxRetries config) + 1))%nat
          /\ match r with
             | Ok all =>
                 List.length all
                 = (List.length acc + List.length (List.concat batches))%nat
             | Throw _ => True
             | Diverge => False
             end).
Proof.
  induction batches as [| batch rest IH]; intros i acc w; simpl.
  - apply spec_ret. unfold fetches. simpl. split; lia.
  - eapply spec_bind.
    + unfold Azure.makeRequest. apply makeRequestFrom_budget. lia.
    + intros resp d (_ & Hf & _).
      unfold Azure.responseJson.
      eapply spec_bind; [apply spec_lift | | |].
      * intros data d0 [-> _].
        eapply spec_bind; [apply spec_lift | | |].
        -- intros ts d1 [-> Hts].
           destruct (AzureMore.readBatch i batch data) as [e | ts0] eqn:Eb;
             [discriminate |].
           inversion Hts; subst ts0. apply readBatch_length in Eb.
           eapply spec_bind with (Q1 := fun r d => fetches d = 0%nat /\ r = Ok tt).
           ++ destruct (i <? count - 1);
                [apply spec_emit | apply spec_ret]; split; reflexivity.
           ++ intros [] d' [Hd' _].
              eapply spec_weaken; [apply IH |].
              intros r d'' [Hf' Hr].
              rewrite !fetches_app. change (fetches []) with 0%nat.
              rewrite Hd'. split; [lia |].
              destruct r as [all | |]; auto.
              rewrite Hr, !length_app. lia.
           ++ intros e d' [_ Habs]. discriminate.
           ++ intros d' [_ Habs]. discriminate.
        -- intros e d1 [-> _]. simpl. split; [lia | exact I].
        -- intros d1 [_ Habs].
           destruct (AzureMore.readBatch i batch data); discriminate.
      * intros e d0 [-> _]. simpl. split; [lia | exact I].
      * intros d0 [_ Habs]. destruct (Azure.jsonBody resp); discriminate.
    + intros e d (_ & Hf & _). simpl. split; [lia | exact I].
    + intros d ([] & _).
Qed.

Lemma createBatches_covers limit texts :
  List.concat (CreateBatches.createBatches limit texts) = texts.
Proof.
  unfold CreateBatches.createBatches.
  set (st := CreateBatches.loop limit texts (CreateBatches.mkLoop [] [] 0)).
  pose proof (flush_concat st) as Hc.
  unfold st in Hc at 3 4. rewrite loop_concat in Hc. simpl in Hc.
  destruct (CreateBatches.currentBatch (CreateBatches.flush st)) eqn:Hcur.
  - rewrite app_nil_r in Hc. exact Hc.
  - exfalso. apply (flush_empty st). rewrite Hcur. discriminate.
Qed.

Lemma createBatches_nonempty limit texts batch :
  In batch (CreateBatches.createBatches limit texts) -> batch <> [].
Proof.
  unfold CreateBatches.createBatches. intros Hin.
  assert (Hinv : CreateBatches.loopInv
                   limit
                   (CreateBatches.flush
                      (CreateBatches.loop limit texts (CreateBatches.mkLoop [] [] 0)))).
  { apply flush_inv, loop_inv. repeat split; simpl; auto. }
  destruct Hinv as (_ & _ & Hall). rewrite Forall_forall in Hall.
  apply (Hall batch Hin).
Qed.

Lemma concat_length_nonempty {A} (l : list (list A)) :
  (forall x, In x l -> x <> []) ->
  (List.length l <= List.length (List.concat l))%nat.
Proof.
  induction l as [| x l IH]; intros H; simpl; [lia |].
  rewrite length_app.
  assert (x <> []) by (apply H; left; reflexivity).
  assert (List.length l <= List.length (List.concat l))%nat
    by (apply IH; intros y Hy; apply H; right; exact Hy).
  destruct x; [congruence | simpl; lia].
Qed.

Lemma createBatches_count (limit : Z) (texts : list JsString) :
  (List.length (CreateBatches.createBatches limit texts) <= List.length texts)%nat.
Proof.
  rewrite <- (createBatches_covers limit texts) at 2.
  apply concat_length_nonempty. intros x. apply createBatches_nonempty.
Qed.

(** X11. [createBatches] never makes more batches than there are
    texts, and when the texts together fit the character limit they
    form a single batch. *)
Theorem createBatches_economy (limit : Z) (texts : list JsString) :
  (List.length (CreateBatches.createBatches limit texts) <= List.length texts)%nat
  /\ (texts <> [] ->
      CreateBatches.totalChars texts <= limit ->
      CreateBatches.createBatches limit texts = [texts]).
Proof.
  split.
  - apply createBatches_count.
  - intros Hne Hfit.
    assert (Hloop : forall ts cur,
               CreateBatches.totalChars cur + CreateBatches.totalChars ts <= limit ->
               CreateBatches.loop
                 limit ts (CreateBatches.mkLoop [] cur (CreateBatches.totalChars cur))
               = CreateBatches.mkLoop [] (cur ++ ts)
                                      (CreateBatches.totalChars (cur ++ ts))).
    { unfold CreateBatches.loop.
      induction ts as [| t ts IH]; intros cur Hsum; simpl.
      - rewrite app_nil_r. reflexivity.
      - assert (Ht : 0 <= CreateBatches.totalChars ts).
        { clear. unfold CreateBatches.totalChars.
          induction ts; simpl; unfold len in *; lia. }
        assert (Hc : 0 <= CreateBatches.totalChars cur).
        { clear. unfold CreateBatches.totalChars.
          induction cur; simpl; unfold len in *; lia. }
        change (CreateBatches.totalChars (t :: ts))
          with (len t + CreateBatches.totalChars ts) in Hsum.
        unfold CreateBatches.step at 2. simpl.
        replace (limit <? len t) with false
          by (symmetry; apply Z.ltb_ge; lia).
        replace (limit <? CreateBatches.totalChars cur + len t) with false
          by (symmetry; apply Z.ltb_ge; lia).
        simpl. rewrite <- totalChars_snoc.
        rewrite IH by (rewrite totalChars_snoc; lia).
        rewrite <- app_assoc. reflexivity. }
    unfold CreateBatches.createBatches.
    change 0 with (CreateBatches.totalChars []) at 1.
    rewrite Hloop by (simpl; exact Hfit). simpl.
    unfold CreateBatches.flush. simpl.
    destruct texts; [congruence | reflexivity].
Qed.

Lemma sum_lengths texts : forall acc,
  fold_left (fun sum text => sum + len text) texts acc
  = acc + CreateBatches.totalChars texts.
Proof.
  unfold CreateBatches.totalChars.
  induction texts as [| t ts IH]; intros acc; simpl; [lia |].
  rewrite IH. lia.
Qed.

(** X12. When [translateBatch] returns, it returns exactly one
    translation per text; [totalBatches] is the number of batches
    [createBatches] cut and [totalCharacters] the number of characters
    of the texts. *)
Theorem translateBatch_shape texts toLang fromLang w result w' :
  AzureMore.translateBatch net config texts toLang fromLang w = (Ok result, w') ->
  List.length (AzureMore.translations result) = List.length texts
  /\ AzureMore.totalBatches result
     = len (CreateBatches.createBatches (Azure.batchCharacterLimit config) texts)
  /\ AzureMore.totalCharacters result = CreateBatches.totalChars texts.
Proof.
  unfold AzureMore.translateBatch.
  destruct (len texts =? 0); [discriminate |].
  destruct (negb (truthy toLang)); [discriminate |].
  unfold bind at 1. rewrite encodeLanguages_run.
  destruct (Measures.encodableLanguages toLang fromLang); [| discriminate].
  unfold tryCatch, bind.
  match goal with
  | |- context [AzureMore.sendBatches ?n ?c ?t ?f ?k ?i ?b ?a ?w0] =>
      destruct (sendBatches_spec t f k b i a w0) as (r & d & E & _ & Hr);
      rewrite E
  end.
  destruct r as [all | e |].
  - intros H. inversion H; subst. simpl.
    rewrite Hr, createBatches_covers, sum_lengths. simpl. auto with zarith.
  - destruct (isAzure e); discriminate.
  - discriminate.
Qed.

(** X13. [translateBatch] refuses an empty list of texts and a missing
    target language without sending anything; it always ends and sends
    at most [maxRetries + 1] requests per text. When the language
    codes can go into the endpoint, every error that leaves it is an
    [AzureTranslatorError]; when a code holds a lone surrogate, the
    [URIError] of [encodeURIComponent] leaves it as it is, before any
    request. *)
Theorem translateBatch_bounded texts toLang fromLang w :
  (texts = [] ->
   AzureMore.translateBatch net config texts toLang fromLang w
   = (Throw AzureMore.emptyTexts, w))
  /\ (texts <> [] -> truthy toLang = false ->
      AzureMore.translateBatch net config texts toLang fromLang w
      = (Throw AzureMore.missingTarget, w))
  /\ (texts <> [] -> truthy toLang = true ->
      Measures.encodableLanguages toLang fromLang = false ->
      AzureMore.translateBatch net config texts toLang fromLang w
      = (Throw uriMalformed, w)
      /\ isAzure uriMalformed = false)
  /\ exists r d,
       AzureMore.translateBatch net config texts toLang fromLang w = (r, d ++ w)
       /\ r <> Diverge
       /\ (fetches d
           <= List.length texts * (Z.to_nat (Azure.maxRetries config) + 1))%nat
       /\ (Measures.encodableLanguages toLang fromLang = true ->
           forall e, r = Throw e -> isAzure e = true).
Proof.
  split; [| split; [| split]].
  - intros ->. reflexivity.
  - intros Hne Hl. unfold AzureMore.translateBatch.
    destruct texts; [congruence |]. rewrite Hl. reflexivity.
  - intros Hne Hl Henc. unfold AzureMore.translateBatch.
    destruct texts as [| t ts]; [congruence |]. rewrite Hl.
    replace (len (t :: ts) =? 0) with false
      by (symmetry; apply Z.eqb_neq; unfold len; simpl; lia).
    cbn [negb]. cbv beta iota.
    unfold bind at 1. rewrite encodeLanguages_run, Henc. split; reflexivity.
  - unfold AzureMore.translateBatch.
    destruct (len texts =? 0).
    { exists (Throw AzureMore.emptyTexts), []. simpl.
      split; [reflexivity |]. split; [congruence |].
      split; [unfold fetches; simpl; lia |].
      intros _ e H. inversion H. reflexivity. }
    destruct (negb (truthy toLang)).
    { exists (Throw AzureMore.missingTarget), []. simpl.
      split; [reflexivity |]. split; [congruence |].
      split; [unfold fetches; simpl; lia |].
      intros _ e H. inversion H. reflexivity. }
    unfold bind at 1. rewrite encodeLanguages_run.
    destruct (Measures.encodableLanguages toLang fromLang).
    2: { exists (Throw uriMalformed), []. simpl.
         split; [reflexivity |]. split; [congruence |].
         split; [unfold fetches; simpl; lia |].
         intros Habs. discriminate. }
    unfold tryCatch, bind.
    match goal with
    | |- context [AzureMore.sendBatches ?n ?c ?t ?f ?k ?i ?b ?a ?w0] =>
        destruct (sendBatches_spec t f k b i a w0) as (r & d & E & Hf & Hr);
        rewrite E
    end.
    assert (Hcount :
              (List.length (CreateBatches.createBatches
                              (Azure.batchCharacterLimit config) texts)
               <= List.length texts)%nat)
      by apply createBatches_count.
    assert (Hbound :
              (fetches d
               <= List.length texts * (Z.to_nat (Azure.maxRetries config) + 1))%nat)
      by nia.
    destruct r as [all | e |].
    + eexists (Ok _), d. split; [reflexivity |]. split; [congruence |].
      split; [exact Hbound |]. intros _ e H. discriminate.
    + destruct (isAzure e) eqn:Ha.
      * exists (Throw e), d. split; [reflexivity |]. split; [congruence |].
        split; [exact Hbound |].
        intros _ e0 H. inversion H; subst. exact Ha.
      * eexists (Throw _), d. split; [reflexivity |]. split; [congruence |].
        split; [exact Hbound |].
        intros _ e0 H. inversion H; subst. reflexivity.
    + destruct Hr.
Qed.

(** X14. [testConnection] sends "Hello" for translation: at least one
    request and at most [maxRetries + 1], when the character limit
    allows five characters. It reports success, or raises
    CONNECTION_TEST_FAILED, an error without status, whatever went
    wrong. *)
Theorem testConnection_outcome (w : World) :
  5 <= Azure.batchCharacterLimit config ->
  exists r d,
    AzureMore.testConnection net config w = (r, d ++ w)
    /\ (1 <= fetches d <= Z.to_nat (Azure.maxRetries config) + 1)%nat
    /\ match r with
       | Ok c => AzureMore.success c = true
       | Throw e =>
           errorCode e = str (lit "CONNECTION_TEST_FAILED")
           /\ statusCode e = None
       | Diverge => False
       end.
Proof.
  intros Hlimit. unfold AzureMore.testConnection, tryCatch, bind.
  assert (Hg : Measures.passesGuards config (lit "Hello") (lit "es") []).
  { split; [reflexivity | split; [reflexivity | split; [exact Hlimit | reflexivity]]]. }
  rewrite (translateText_guarded net config (lit "Hello") (lit "es") [] w Hg).
  unfold tryCatch, bind, Azure.makeRequest.
  destruct (makeRequestFrom_budget
              net config (Z.to_nat (Azure.maxRetries config))
              (Measures.requestOf (lit "Hello") (lit "es") []) 0
              (Invoked (lit "Hello") (lit "es") [] :: w))
    as (r & d & E & Hr & Hf & _); [lia |].
  rewrite E.
  assert (Hd : d ++ Invoked (lit "Hello") (lit "es") [] :: w
               = (d ++ [Invoked (lit "Hello") (lit "es") []]) ++ w)
    by (rewrite <- app_assoc; reflexivity).
  assert (Hfd : (1 <= fetches (d ++ [Invoked (lit "Hello") (lit "es") []])
                 <= Z.to_nat (Azure.maxRetries config) + 1)%nat).
  { rewrite fetches_app.
    change (fetches [Invoked (lit "Hello") (lit "es") []]) with 0%nat. lia. }
  destruct r as [resp | e |]; [| | destruct Hr].
  - unfold Azure.responseJson.
    destruct (Azure.jsonBody resp) as [e | data]; cbn [lift]; unfold throw, ret.
    + destruct (isAzure e); eexists (Throw _), _; (split; [rewrite Hd; reflexivity |]);
        (split; [exact Hfd | split; reflexivity]).
    + destruct (Azure.readTranslation data) as [e | tr]; cbn [lift];
        unfold throw, ret.
      * destruct (isAzure e); eexists (Throw _), _;
          (split; [rewrite Hd; reflexivity |]);
          (split; [exact Hfd | split; reflexivity]).
      * eexists (Ok _), _; (split; [rewrite Hd; reflexivity |]);
          (split; [exact Hfd | reflexivity]).
  - destruct (isAzure e); simpl; eexists (Throw _), _;
      (split; [rewrite Hd; reflexivity |]);
      (split; [exact Hfd | split; reflexivity]).
Qed.

End BatchFacts.

(* ===================================================================== *)
(** ** The client on sample networks *)
(* ===================================================================== *)

Ltac guards_ok :=
  split; [reflexivity
         | split; [reflexivity
                  | split; [vm_compute; discriminate | reflexivity]]].

Lemma backoff_bounded_monotone_witness :
  Azure.calculateBackoffDelay Azure.defaultConfig 3
  = Azure.initialRetryDelay Azure.defaultConfig * 2 ^ 3.
Proof.
  refine (proj2 (proj2 (backoff_bounded_monotone Azure.defaultConfig 3 _ _)) _);
    vm_compute; discriminate.
Defined.

Lemma parseErrorResponse_typed_witness :
  Azure.parseErrorResponse (jsonAnswer 500 JNull)
  = typeError (lit "Cannot read properties of null (reading 'error')")
  /\ Azure.isRetryableError (Azure.parseErrorResponse (jsonAnswer 500 JNull))
     = true.
Proof.
  assert (H : Azure.parseErrorResponse (jsonAnswer 500 JNull)
              = cannotRead (lit "null") kError).
  { refine (proj2 (proj2 (proj2 (parseErrorResponse_typed (jsonAnswer 500 JNull))))
              _ _).
    - intros [H | [H | [H | H]]]; discriminate.
    - reflexivity. }
  rewrite H. split; reflexivity.
Defined.

Lemma translateText_errors_typed_witness :
  (exists e w',
      Azure.translateText unauthorizedNet Azure.defaultConfig
                          (lit "cat") (lit "es") [] [] = (Throw e, w')
      /\ isAzure e = true)
  /\ Azure.translateText upperNet Azure.defaultConfig
                         (lit "cat") [55357%N] [] []
     = (Throw uriMalformed, [Invoked (lit "cat") [55357%N] []]).
Proof.
  split.
  - eexists. eexists. split; [vm_compute; reflexivity |].
    refine (proj1 (translateText_errors_typed unauthorizedNet Azure.defaultConfig
                     (lit "cat") (lit "es") [] [])
              eq_refl _
              [Fetched (Measures.requestOf (lit "cat") (lit "es") []);
               Invoked (lit "cat") (lit "es") []] _).
    vm_compute. reflexivity.
  - refine (proj1 (proj2 (translateText_errors_typed upperNet Azure.defaultConfig
                            (lit "cat") [55357%N] [] [])
                     eq_refl eq_refl eq_refl _)).
    vm_compute. discriminate.
Defined.

Lemma translateText_guards_witness :
  exists e,
    Azure.translateText upperNet Azure.defaultConfig (lit "  ") (lit "es") [] []
    = (Throw e, [Invoked (lit "  ") (lit "es") []])
    /\ errorCode e = str (lit "EMPTY_TEXT").
Proof.
  destruct (translateText_guards upperNet Azure.defaultConfig
              (lit "  ") (lit "es") [] [] (or_introl eq_refl))
    as (e & E & _ & Hcode).
  exists e. split; [exact E | exact Hcode].
Defined.

Lemma timeout_not_retried_witness :
  Azure.translateText timeoutNet Azure.defaultConfig
                      (lit "cat") (lit "es") (lit "en") []
  = (Throw (Azure.NetworkError (lit "Request timeout")),
     [Fetched (Measures.requestOf (lit "cat") (lit "es") (lit "en"));
      Invoked (lit "cat") (lit "es") (lit "en")]).
Proof.
  eapply (timeout_not_retried timeoutNet Azure.defaultConfig
            (lit "cat") (lit "es") (lit "en") []);
    [guards_ok | reflexivity | reflexivity].
Defined.

Lemma failure_status_not_retried_witness :
  (exists e,
      Azure.translateText Measures.throttledNet Azure.defaultConfig
                          (lit "cat") (lit "es") (lit "en") []
      = (Throw e,
         [Fetched (Measures.requestOf (lit "cat") (lit "es") (lit "en"));
          Invoked (lit "cat") (lit "es") (lit "en")])
      /\ name e = lit "RateLimitError")
  /\ (exists d,
         Azure.translateText Measures.nullBodyNet Azure.defaultConfig
                             (lit "cat") (lit "es") (lit "en") []
         = (Throw (Azure.NetworkError
                     (lit "Request failed: Cannot read properties of null (reading 'error')")),
            d ++ [Invoked (lit "cat") (lit "es") (lit "en")])
         /\ fetches d = 6%nat
         /\ Measures.sleeps d = 5%nat).
Proof.
  split.
  - eexists. split.
    + refine (proj1 (failure_status_not_retried
                       Measures.throttledNet Azure.defaultConfig
                       (lit "cat") (lit "es") (lit "en") [] _ _ _) _);
        [guards_ok | reflexivity | left; right; right; right; reflexivity].
    + reflexivity.
  - refine (proj2 (failure_status_not_retried
                     Measures.nullBodyNet Azure.defaultConfig
                     (lit "cat") (lit "es") (lit "en") []
                     (jsonAnswer 500 JNull) _ _) _ _ _ _).
    + guards_ok.
    + reflexivity.
    + reflexivity.
    + intros [H | [H | [H | H]]]; discriminate.
    + reflexivity.
    + intros w'. reflexivity.
Defined.

Lemma translateText_success_witness :
  Azure.translateText upperNet Azure.defaultConfig
                      (lit "cat") (lit "es") (lit "en") []
  = (Ok (Azure.mkTranslation (str (lit "CAT")) None None),
     [Fetched (Measures.requestOf (lit "cat") (lit "es") (lit "en"));
      Invoked (lit "cat") (lit "es") (lit "en")]).
Proof.
  refine (translateText_success upperNet Azure.defaultConfig
            (lit "cat") (lit "es") (lit "en") [] _
            [(lit "translations",
              JArr [JObj [(lit "text", JStr (lit "CAT"));
                          (lit "to", JStr (lit "es"))]])]
            []
            (JObj [(lit "text", JStr (lit "CAT")); (lit "to", JStr (lit "es"))])
            [] _ _ _ _ _ _);
    [guards_ok | reflexivity | reflexivity | reflexivity | reflexivity
     | discriminate].
Defined.

Lemma translateText_invalid_body_witness :
  Azure.translateText Measures.emptyBodyNet Azure.defaultConfig
                      (lit "cat") (lit "es") (lit "en") []
  = (Throw Azure.invalidResponse,
     [Fetched (Measures.requestOf (lit "cat") (lit "es") (lit "en"));
      Invoked (lit "cat") (lit "es") (lit "en")])
  /\ Azure.translateText Measures.nullItemNet Azure.defaultConfig
                         (lit "cat") (lit "es") (lit "en") []
     = (Throw (Azure.NetworkError
                 (lit "Translation failed: Cannot read properties of null (reading 'translations')")),
        [Fetched (Measures.requestOf (lit "cat") (lit "es") (lit "en"));
         Invoked (lit "cat") (lit "es") (lit "en")]).
Proof.
  split.
  - refine (proj1 (translateText_invalid_body
                     Measures.emptyBodyNet Azure.defaultConfig
                     (lit "cat") (lit "es") (lit "en") []
                     (jsonAnswer 200 (JArr [])) _ _ _) _).
    + guards_ok.
    + reflexivity.
    + reflexivity.
    + exists (JArr []). split; reflexivity.
  - refine (proj2 (proj2 (translateText_invalid_body
                            Measures.nullItemNet Azure.defaultConfig
                            (lit "cat") (lit "es") (lit "en") []
                            (jsonAnswer 200 (JArr [JNull])) _ _ _)) [] _).
    + guards_ok.
    + reflexivity.
    + reflexivity.
    + reflexivity.
Defined.

Lemma network_failure_retried_witness :
  Azure.translateText Measures.flakyNet Azure.defaultConfig
                      (lit "cat") (lit "es") (lit "en") []
  = (Ok (Azure.mkTranslation (str (lit "CAT")) None None),
     [Fetched (Measures.requestOf (lit "cat") (lit "es") (lit "en"));
      Slept 2000;
      Fetched (Measures.requestOf (lit "cat") (lit "es") (lit "en"));
      Invoked (lit "cat") (lit "es") (lit "en")]).
Proof.
  refine (network_failure_retried Measures.flakyNet Azure.defaultConfig
            (lit "cat") (lit "es") (lit "en") [] _ _
            [(lit "translations",
              JArr [JObj [(lit "text", JStr (lit "CAT"));
                          (lit "to", JStr (lit "es"))]])]
            []
            (JObj [(lit "text", JStr (lit "CAT")); (lit "to", JStr (lit "es"))])
            [] _ _ _ _ _ _ _ _ _ _);
    [guards_ok | vm_compute; reflexivity | reflexivity | reflexivity
     | reflexivity | reflexivity | reflexivity | reflexivity | reflexivity
     | discriminate].
Defined.

Lemma translateBatch_shape_witness :
  exists result w',
    AzureMore.translateBatch upperNet Azure.defaultConfig
                             [lit "cat"; lit "dog"] (lit "es") [] []
    = (Ok result, w')
    /\ List.length (AzureMore.translations result) = 2%nat.
Proof.
  eexists. eexists. split; [vm_compute; reflexivity |].
  refine (proj1 (translateBatch_shape upperNet Azure.defaultConfig
                   [lit "cat"; lit "dog"] (lit "es") [] [] _
                   [Fetched (mkRequest (lit "es") None [lit "cat"; lit "dog"])] _)).
  vm_compute. reflexivity.
Defined.

Lemma testConnection_outcome_witness :
  exists r d,
    AzureMore.testConnection upperNet Azure.defaultConfig [] = (r, d ++ [])
    /\ (1 <= fetches d <= 6)%nat.
Proof.
  destruct (testConnection_outcome upperNet Azure.defaultConfig [])
    as (r & d & E & H & _).
  - vm_compute. discriminate.
  - exists r, d. split; [exact E | exact H].
Defined.

(* ===================================================================== *)
(** ** The rate limit of the ingress *)
(* ===================================================================== *)

Section IngressFacts.

Lemma mapSet_same key v m : Ingress.mapSet key v m key = Some v.
Proof. unfold Ingress.mapSet. rewrite str_eqb_refl. reflexivity. Qed.

Lemma mapSet_other key v m k : key <> k -> Ingress.mapSet key v m k = m k.
Proof. intros H. unfold Ingress.mapSet. rewrite str_eqb_neq by exact H. reflexivity. Qed.

Lemma verdicts_in_window ip t0 times : forall c m,
  m ip = Some (Ingress.mkEntry c t0) ->
  Forall (fun t => t - t0 < Ingress.RATE_LIMIT_WINDOW_MS) times ->
  fst (Ingress.verdicts ip times m)
  = List.map (fun k => Ingress.verdictAt (c + 1 + Z.of_nat k)) (seq 0 (List.length times))
  /\ snd (Ingress.verdicts ip times m) ip
     = Some (Ingress.mkEntry (c + Z.of_nat (List.length times)) t0).
Proof.
  induction times as [| t rest IH]; intros c m Hm Hall; simpl.
  - rewrite Z.add_0_r. auto.
  - inversion Hall as [| t' rest' Ht Hrest]; subst.
    unfold Ingress.rateLimit. rewrite Hm. simpl.
    replace (t - t0 <? Ingress.RATE_LIMIT_WINDOW_MS) with true
      by (symmetry; apply Z.ltb_lt; exact Ht).
    destruct (IH (c + 1)
                 (Ingress.mapSet ip (Ingress.mkEntry (c + 1) t0) m)
                 (mapSet_same _ _ _) Hrest) as [Hv Hm'].
    destruct (Ingress.verdicts
                ip rest (Ingress.mapSet ip (Ingress.mkEntry (c + 1) t0) m))
      as [vs m''].
    simpl in *. split.
    + f_equal.
      * unfold Ingress.verdictAt. rewrite Z.add_0_r.
        destruct (Ingress.MAX_REQUESTS_PER_WINDOW <? c + 1) eqn:E;
          [apply Z.ltb_lt in E | apply Z.ltb_ge in E].
        -- replace (c + 1 <=? Ingress.MAX_REQUESTS_PER_WINDOW) with false
             by (symmetry; apply Z.leb_gt; exact E).
           reflexivity.
        -- replace (c + 1 <=? Ingress.MAX_REQUESTS_PER_WINDOW) with true
             by (symmetry; apply Z.leb_le; exact E).
           reflexivity.
      * rewrite Hv, <- seq_shift, map_map. apply map_ext. intros k.
        f_equal. lia.
    + rewrite Hm'. f_equal. f_equal. lia.
Qed.

Lemma verdicts_other ip ip' times : forall m,
  ip <> ip' -> snd (Ingress.verdicts ip times m) ip' = m ip'.
Proof.
  induction times as [| t rest IH]; intros m Hne; simpl; [reflexivity |].
  destruct (Ingress.rateLimit ip t m) as [v m'] eqn:E.
  specialize (IH m' Hne).
  destruct (Ingress.verdicts ip rest m') as [vs m'']. simpl in *.
  rewrite IH. unfold Ingress.rateLimit in E.
  destruct (m ip) as [entry |].
  - destruct (t - Ingress.firstRequestTs entry <? Ingress.RATE_LIMIT_WINDOW_MS);
      inversion E; subst; apply mapSet_other; exact Hne.
  - inversion E; subst. apply mapSet_other. exact Hne.
Qed.

(** X15. A window of the rate limit. When an address has no entry, or
    its window is over at time [t0], the request at [t0] opens a window;
    of the requests that follow within 60000 ms of [t0], however they
    are spaced, the first seven are served and all later ones are
    answered 429. Rejected requests are counted too, and none of them
    moves the start of the window. *)
Theorem rate_limit_window (ip : JsString) (t0 : Z) (times : list Z)
  (m : Ingress.RateLimitMap) :
  Ingress.opensWindow m ip t0 ->
  Forall (fun t => t - t0 < Ingress.RATE_LIMIT_WINDOW_MS) times ->
  fst (Ingress.verdicts ip (t0 :: times) m)
  = List.map (fun k => Ingress.verdictAt (Z.of_nat k + 1))
             (seq 0 (S (List.length times)))
  /\ snd (Ingress.verdicts ip (t0 :: times) m) ip
     = Some (Ingress.mkEntry (1 + Z.of_nat (List.length times)) t0).
Proof.
  intros Hopen Hall.
  assert (E : Ingress.rateLimit ip t0 m
              = (Ingress.Served,
                 Ingress.mapSet ip (Ingress.mkEntry 1 t0) m)).
  { unfold Ingress.rateLimit, Ingress.opensWindow in *.
    destruct (m ip) as [entry |]; [| reflexivity].
    replace (t0 - Ingress.firstRequestTs entry <? Ingress.RATE_LIMIT_WINDOW_MS)
      with false by (symmetry; apply Z.ltb_ge; exact Hopen).
    reflexivity. }
  cbn [Ingress.verdicts]. rewrite E.
  destruct (verdicts_in_window ip t0 times 1
              (Ingress.mapSet ip (Ingress.mkEntry 1 t0) m)
              (mapSet_same _ _ _) Hall) as [Hv Hm].
  destruct (Ingress.verdicts ip times
              (Ingress.mapSet ip (Ingress.mkEntry 1 t0) m)) as [vs m''].
  cbn [fst snd] in *. split; [| exact Hm].
  cbn [seq List.map]. f_equal. rewrite Hv, <- seq_shift, map_map.
  apply map_ext. intros k. f_equal. lia.
Qed.

Lemma rate_limit_window_witness :
  fst (Ingress.verdicts (lit "10.0.0.1")
         [1000; 1001; 1002; 1003; 1004; 1005; 1006; 1007; 1008; 60999]
         Ingress.emptyMap)
  = [Ingress.Served; Ingress.Served; Ingress.Served; Ingress.Served;
     Ingress.Served; Ingress.Served; Ingress.Served; Ingress.Served;
     Ingress.TooManyRequests; Ingress.TooManyRequests].
Proof.
  refine (proj1 (rate_limit_window (lit "10.0.0.1") 1000
                   [1001; 1002; 1003; 1004; 1005; 1006; 1007; 1008; 60999]
                   Ingress.emptyMap _ _)).
  - exact I.
  - repeat constructor.
Defined.

(** X16. The requests of one address never change the entry of
    another, so they never change the verdict another address gets. *)
Theorem rate_limit_isolated (ip ip' : JsString) (times : list Z) (now : Z)
  (m : Ingress.RateLimitMap) :
  ip <> ip' ->
  snd (Ingress.verdicts ip times m) ip' = m ip'
  /\ fst (Ingress.rateLimit ip' now (snd (Ingress.verdicts ip times m)))
     = fst (Ingress.rateLimit ip' now m).
Proof.
  intros Hne. pose proof (verdicts_other ip ip' times m Hne) as H.
  split; [exact H |]. unfold Ingress.rateLimit. rewrite H.
  destruct (m ip') as [entry |]; [| reflexivity].
  destruct (now - Ingress.firstRequestTs entry <? Ingress.RATE_LIMIT_WINDOW_MS);
    reflexivity.
Qed.

Lemma rate_limit_isolated_witness :
  fst (Ingress.rateLimit (lit "10.0.0.2") 1009
         (snd (Ingress.verdicts (lit "10.0.0.1")
                 [1000; 1001; 1002; 1003; 1004; 1005; 1006; 1007; 1008]
                 Ingress.emptyMap)))
  = Ingress.Served.
Proof.
  refine (eq_trans
            (proj2 (rate_limit_isolated (lit "10.0.0.1") (lit "10.0.0.2")
                      [1000; 1001; 1002; 1003; 1004; 1005; 1006; 1007; 1008]
                      1009 Ingress.emptyMap _))
            eq_refl).
  discriminate.
Defined.

Lemma firstField_app a b :
  ~ In 44%N a -> Ingress.firstField (a ++ 44%N :: b) = a.
Proof.
  induction a as [| c a IH]; intros Hin; simpl.
  - reflexivity.
  - destruct (N.eqb c 44) eqn:E.
    + apply N.eqb_eq in E. exfalso. apply Hin. left. exact E.
    + f_equal. apply IH. intros H. apply Hin. right. exact H.
Qed.

Lemma firstField_whole a : ~ In 44%N a -> Ingress.firstField a = a.
Proof.
  induction a as [| c a IH]; intros Hin; simpl.
  - reflexivity.
  - destruct (N.eqb c 44) eqn:E.
    + apply N.eqb_eq in E. exfalso. apply Hin. left. exact E.
    + f_equal. apply IH. intros H. apply Hin. right. exact H.
Qed.

(** X17. The key of the rate limit. It is never the empty string; it
    is ["unknown"] for a request without the forwarding header; and of
    a forwarding chain only the first entry counts: whatever follows
    the first comma does not change the key. *)
Theorem client_ip_key (a b : JsString) :
  ~ In 44%N a ->
  Ingress.clientIp (Some (a ++ 44%N :: b)) = Ingress.clientIp (Some a)
  /\ (forall h, Ingress.clientIp h <> [])
  /\ (trim a = [] -> Ingress.clientIp (Some a) = Ingress.clientIp None).
Proof.
  intros Hin. split; [| split].
  - unfold Ingress.clientIp.
    rewrite firstField_app, firstField_whole by exact Hin. reflexivity.
  - intros [h |]; unfold Ingress.clientIp; [| discriminate].
    unfold str_or. destruct (truthy (trim (Ingress.firstField h))) eqn:E.
    + intros Habs. rewrite Habs in E. discriminate.
    + discriminate.
  - intros Hblank. unfold Ingress.clientIp.
    rewrite firstField_whole by exact Hin. rewrite Hblank. reflexivity.
Qed.

Lemma client_ip_key_witness :
  Ingress.clientIp (Some (lit "10.0.0.1, 172.16.0.9"))
  = Ingress.clientIp (Some (lit "10.0.0.1")).
Proof.
  refine (proj1 (client_ip_key (lit "10.0.0.1") (lit " 172.16.0.9") _)).
  vm_compute. intuition discriminate.
Defined.

End IngressFacts.

Section IngressRun.

Variable net : Azure.Network.
Variable CSV_CONFIG : CsvConfig.

(** X18. What the handler answers. Every request is counted. A
    request over the limit gets status 429 and nothing else happens: no
    stream is opened and the translator is not called. Any other
    request gets a stream: when its batch loop can run (the parser
    reads the file and the batch size in force is at least 1) the
    stream carries frames of type [progress], then exactly one terminal
    frame, and is then closed; when the parser refuses the file the
    stream carries frames of type [progress] at most, no terminal
    frame, and is never closed. *)
Theorem ingress_answer (fuel : nat) (forwardedFor : option JsString) (now : Z)
  (request : Route.Request) (m : Ingress.RateLimitMap) :
  snd (Ingress.POST net CSV_CONFIG fuel forwardedFor now request m)
  = snd (Ingress.rateLimit (Ingress.clientIp forwardedFor) now m)
  /\ match fst (Ingress.POST net CSV_CONFIG fuel forwardedFor now request m) with
     | Ingress.Status429 =>
         fst (Ingress.rateLimit (Ingress.clientIp forwardedFor) now m)
         = Ingress.TooManyRequests
     | Ingress.EventStream (r, w) =>
         fst (Ingress.rateLimit (Ingress.clientIp forwardedFor) now m)
         = Ingress.Served
         /\ (runnable CSV_CONFIG fuel request ->
             r = Ok tt
             /\ exists pre t,
                  w = Closed :: Sent t :: pre
                  /\ isTerminal t = true
                  /\ progressOnly pre)
         /\ (forall f config,
                wellFormed request f config ->
                Route.size f <= MAX_FILE_SIZE CSV_CONFIG ->
                Route.parseError f <> None ->
                r = Diverge /\ progressOnly w)
     end.
Proof.
  unfold Ingress.POST.
  destruct (Ingress.rateLimit (Ingress.clientIp forwardedFor) now m)
    as [[|] m'] eqn:E; cbn [fst snd]; split; try reflexivity.
  destruct (Route.POST net CSV_CONFIG fuel request []) as [r w] eqn:Erun.
  split; [reflexivity |]. split.
  - intros Hrun.
    destruct (POST_spec net CSV_CONFIG fuel request [] Hrun)
      as (r' & d & Erun' & Hr & pre & t & Hd & Hpre & Ht).
    rewrite app_nil_r in Erun'. rewrite Erun in Erun'.
    replace r with r' by congruence. replace w with d by congruence.
    split; [exact Hr |].
    exists pre, t. split; [exact Hd |]. split; [| exact Hpre].
    unfold isTerminal.
    destruct Ht as [(_ & _ & Ht) | (f & config & outs & _ & -> & _)].
    + rewrite Ht. reflexivity.
    + reflexivity.
  - intros f config Hwf Hsize Hparse.
    destruct (POST_unparsed net CSV_CONFIG fuel request f config Hwf Hsize Hparse)
      as (w' & E' & Hw').
    rewrite Erun in E'. inversion E'; subst. auto.
Qed.

End IngressRun.

Lemma ingress_answer_witness :
  snd (Ingress.POST upperNet CSV_CONFIG_third 3 None 0 (smallRequest (Some 2))
                    Ingress.emptyMap) (lit "unknown")
  = Some (Ingress.mkEntry 1 0)
  /\ (let (r, w) := Route.POST upperNet CSV_CONFIG_third 3 unparsedRequest [] in
      r = Diverge /\ progressOnly w).
Proof.
  split.
  - exact (eq_trans
             (f_equal (fun m => m (lit "unknown"))
                (proj1 (ingress_answer upperNet CSV_CONFIG_third 3 None 0
                          (smallRequest (Some 2)) Ingress.emptyMap)))
             eq_refl).
  - destruct (Route.POST upperNet CSV_CONFIG_third 3 unparsedRequest [])
      as [r w] eqn:E.
    assert (E' : (Diverge, []) = (r, w))
      by (rewrite <- E; vm_compute; reflexivity).
    inversion E'; subst r w.
    pose proof (proj2 (ingress_answer upperNet CSV_CONFIG_third 3 None 0
                         unparsedRequest Ingress.emptyMap)) as H.
    destruct H as (_ & _ & H).
    apply (H unparsedFile (firstColumnConfig (Some 2))).
    + reflexivity.
    + simpl. lia.
    + discriminate.
Defined.

(* ===================================================================== *)
(** ** The retry wrapper of the route *)
(* ===================================================================== *)

Section RetryFacts.

Variable net : Azure.Network.

Lemma spec_translate_budget text toLang fromLang w :
  spec (Route.azureTranslator_translateText net text toLang fromLang) w
       (fun r d =>
          halts (fun _ => True) r
          /\ invocations d = 1%nat
          /\ (fetches d <= 6)%nat).
Proof.
  exact (translateText_budget net Azure.defaultConfig text toLang fromLang w).
Qed.

Lemma spec_pause_free (b : bool) ms w :
  spec (if b then sleep ms else ret tt) w
       (fun r d => r = Ok tt /\ invocations d = 0%nat /\ fetches d = 0%nat).
Proof.
  destruct b; [apply spec_emit | apply spec_ret]; auto.
Qed.

Lemma retryLoop_budget n : forall text fromLang toLang maxRetries attempt w,
  maxRetries - attempt + 1 <= Z.of_nat n ->
  spec (Route.retryLoop net n text fromLang toLang maxRetries attempt) w
       (fun r d =>
          returns (fun _ => True) r
          /\ (invocations d <= Z.to_nat (maxRetries - attempt + 1))%nat
          /\ (fetches d <= 6 * Z.to_nat (maxRetries - attempt + 1))%nat).
Proof.
  induction n as [| n IH]; intros text fromLang toLang maxRetries attempt w Hn;
    simpl; destruct (attempt <=? maxRetries) eqn:Hle;
    try (apply spec_ret; cbv beta; unfold invocations, fetches; simpl;
         split; [exact I | lia]).
  - apply Z.leb_le in Hle. lia.
  - apply Z.leb_le in Hle.
    eapply spec_bind
      with (Q1 := fun r d =>
              returns (fun _ => True) r
              /\ (invocations d <= 1)%nat /\ (fetches d <= 6)%nat).
    + eapply spec_tryCatch
        with (Q1 := fun r d =>
                halts (fun _ => True) r
                /\ (invocations d <= 1)%nat /\ (fetches d <= 6)%nat).
      * eapply spec_bind; [apply spec_pause_free | | |].
        -- intros [] d (_ & Hi & Hf).
           eapply spec_bind; [apply spec_translate_budget | | |].
           ++ intros tr d' (_ & Hi' & Hf'). apply spec_ret. cbn [app].
              rewrite invocations_app, fetches_app. simpl. lia.
           ++ intros e d' (_ & Hi' & Hf').
              rewrite invocations_app, fetches_app. simpl. lia.
           ++ intros d' ([] & _).
        -- intros e d (Habs & _). discriminate.
        -- intros d (Habs & _). discriminate.
      * intros o d (_ & H). simpl. auto.
      * intros e d (_ & Hi & Hf).
        destruct (attempt =? maxRetries).
        -- apply spec_ret. simpl. auto.
        -- eapply spec_bind; [apply spec_pause_free | | |].
           ++ intros [] d' (_ & Hi' & Hf'). apply spec_ret. cbn [app].
              rewrite invocations_app, fetches_app. simpl. lia.
           ++ intros e' d' (Habs & _). discriminate.
           ++ intros d' (Habs & _). discriminate.
      * intros d ([] & _).
    + intros [v |] d (_ & Hi & Hf).
      * apply spec_ret. simpl. lia.
      * eapply spec_weaken; [apply IH; lia |].
        intros r d' (Hr & Hi' & Hf'). split; [exact Hr |].
        rewrite invocations_app, fetches_app.
        replace (maxRetries - attempt + 1)
          with (Z.succ (maxRetries - (attempt + 1) + 1)) by lia.
        rewrite Z2Nat.inj_succ by lia. lia.
    + intros e d ([] & _).
    + intros d ([] & _).
Qed.

(** X19. The retry wrapper never raises and always returns: the
    original text, or what a call of the translator returned as the
    text of the translation, whatever that is ([undefined] when the
    translation of the answer has no [text]). It calls the translator
    at most [maxRetries] times, which is at most six requests per call
    with the default client; with no attempt allowed, or for a blank
    text, it returns the text at once. *)
Theorem retry_budget (text fromLang toLang : JsString) (maxRetries : Z)
  (w : World) :
  exists v d,
    Route.translateTextWithRetry net text fromLang toLang maxRetries w
    = (Ok v, d ++ w)
    /\ retried net text fromLang toLang v
    /\ (invocations d <= Z.to_nat maxRetries)%nat
    /\ (fetches d <= 6 * Z.to_nat maxRetries)%nat
    /\ (Route.isBlank text = true \/ maxRetries <= 0 -> v = str text /\ d = []).
Proof.
  destruct (translateTextWithRetry_returns net text fromLang toLang maxRetries w)
    as (r0 & d0 & E0 & _ & Hr0).
  revert E0. unfold Route.translateTextWithRetry.
  destruct (Route.isBlank text) eqn:Hb.
  - intros _. exists (str text), []. unfold invocations, fetches. simpl.
    split; [reflexivity |]. split; [left; reflexivity |].
    repeat split; auto; lia.
  - destruct (retryLoop_budget (Z.to_nat maxRetries) text fromLang toLang
                               maxRetries 1 w ltac:(lia))
      as ([v | e |] & d & E & Hr & Hi & Hf); try contradiction.
    replace (maxRetries - 1 + 1) with maxRetries in * by lia.
    intros E0. rewrite E in E0. inversion E0; subst r0. simpl in Hr0.
    destruct (Z_le_gt_dec maxRetries 0) as [Hle | Hgt].
    + exists (str text), [].
      replace (Z.to_nat maxRetries) with 0%nat by lia. simpl.
      replace (1 <=? maxRetries) with false by (symmetry; apply Z.leb_gt; lia).
      unfold invocations, fetches. simpl.
      split; [reflexivity |]. split; [left; reflexivity |].
      repeat split; auto.
    + exists v, d.
      split; [exact E |]. split; [exact Hr0 |].
      split; [exact Hi |]. split; [exact Hf |].
      intros [Habs | Habs]; [discriminate | lia].
Qed.

Lemma retryLoop_first (k : nat) (text fromLang toLang : JsString)
  (maxRetries : Z) (w w' : World) (tr : Azure.Translation) :
  1 <= maxRetries ->
  Route.azureTranslator_translateText net text toLang fromLang w = (Ok tr, w') ->
  Route.retryLoop net (S k) text fromLang toLang maxRetries 1 w
  = (Ok (Azure.translatedText tr), w').
Proof.
  intros Hmax E. cbn [Route.retryLoop].
  replace (1 <=? maxRetries) with true by (symmetry; apply Z.leb_le; lia).
  unfold bind, tryCatch, ret. cbn [Z.ltb Z.compare Pos.compare Pos.compare_cont].
  rewrite E. reflexivity.
Qed.

Lemma retryLoop_second (text fromLang toLang : JsString) (w w1 w2 : World)
  (e : JsError) (r2 : Res Azure.Translation) :
  Route.azureTranslator_translateText net text toLang fromLang w = (Throw e, w1) ->
  Route.azureTranslator_translateText
    net text toLang fromLang
    (Slept 1000 :: (if Route.isRateLimit e then [Slept 3000] else []) ++ w1)
  = (r2, w2) ->
  Route.retryLoop net 2 text fromLang toLang 2 1 w
  = (match r2 with
     | Ok tr => Ok (Azure.translatedText tr)
     | Throw _ => Ok (str text)
     | Diverge => Diverge
     end, w2).
Proof.
  intros E1 E2. cbn [Route.retryLoop].
  change (1 <=? 2) with true. change (1 + 1) with 2.
  change (2 <=? 2) with true. change (1 <? 1) with false.
  change (1 <? 2) with true. change (1 =? 2) with false.
  change (2 =? 2) with true. change (500 * 2) with 1000.
  cbv beta iota.
  unfold bind at 1. unfold tryCatch at 1. unfold bind at 1. unfold bind at 1.
  unfold ret at 1. rewrite E1.
  destruct (Route.isRateLimit e); unfold bind, sleep, emit, ret, tryCatch;
    cbn [app] in *; rewrite E2; destruct r2; reflexivity.
Qed.

(** X20. When the first call of the translator succeeds, the wrapper
    returns its translation after that one call and without any
    delay. *)
Theorem first_attempt_returns (text fromLang toLang : JsString)
  (maxRetries : Z) (w w' : World) (tr : Azure.Translation) :
  Route.isBlank text = false ->
  1 <= maxRetries ->
  Route.azureTranslator_translateText net text toLang fromLang w = (Ok tr, w') ->
  Route.translateTextWithRetry net text fromLang toLang maxRetries w
  = (Ok (Azure.translatedText tr), w').
Proof.
  intros Hb Hmax E. unfold Route.translateTextWithRetry. rewrite Hb.
  destruct (Z.to_nat maxRetries) as [| k] eqn:Hk; [lia |].
  apply retryLoop_first; assumption.
Qed.

(** X21. The second attempt of the two the route allows. After a
    failed first call the wrapper waits 3000 ms if the message of the
    error mentions a rate limit, then 1000 ms in every case, and calls
    the translator again; it returns the translation of that call, or
    the original text if that call fails too. *)
Theorem second_attempt (text fromLang toLang : JsString) (w w1 w2 : World)
  (e : JsError) (r2 : Res Azure.Translation) :
  Route.isBlank text = false ->
  Route.azureTranslator_translateText net text toLang fromLang w = (Throw e, w1) ->
  Route.azureTranslator_translateText
    net text toLang fromLang
    (Slept 1000 :: (if Route.isRateLimit e then [Slept 3000] else []) ++ w1)
  = (r2, w2) ->
  Route.translateTextWithRetry net text fromLang toLang 2 w
  = (match r2 with
     | Ok tr => Ok (Azure.translatedText tr)
     | Throw _ => Ok (str text)
     | Diverge => Diverge
     end, w2).
Proof.
  intros Hb E1 E2. unfold Route.translateTextWithRetry. rewrite Hb.
  change (Z.to_nat 2) with 2%nat.
  apply (retryLoop_second text fromLang toLang w w1 w2 e r2 E1 E2).
Qed.

(** X22. The single-call wrapper of the route never raises: it returns
    the text unchanged when the text is blank or the call fails, else
    the translation, and calls the translator at most once. *)
Theorem translateText_falls_back (text fromLang toLang : JsString) (w : World) :
  exists v d,
    Route.translateText net text fromLang toLang w = (Ok v, d ++ w)
    /\ (invocations d <= 1)%nat
    /\ (Route.isBlank text = true -> v = str text /\ d = [])
    /\ match Route.azureTranslator_translateText net text toLang fromLang w with
       | (Ok tr, w') =>
           Route.isBlank text = false ->
           v = Azure.translatedText tr /\ d ++ w = w'
       | _ => v = str text
       end.
Proof.
  unfold Route.translateText.
  destruct (spec_translate_budget text toLang fromLang w)
    as (r & d & E & Hr & Hi & _).
  destruct (Route.isBlank text) eqn:Hb.
  - exists (str text), []. unfold invocations. simpl.
    split; [reflexivity |]. split; [lia |]. split; [auto |].
    rewrite E. destruct r; [discriminate | reflexivity | reflexivity].
  - unfold tryCatch, bind, ret. rewrite E.
    destruct r as [tr | e |]; [| | contradiction].
    + exists (Azure.translatedText tr), d.
      split; [reflexivity |]. split; [lia |]. split; [discriminate | auto].
    + exists (str text), d.
      split; [reflexivity |]. split; [lia |]. split; [discriminate | reflexivity].
Qed.

End RetryFacts.

Lemma retry_budget_witness :
  exists d,
    Route.translateTextWithRetry Measures.textlessNet
                                 (lit "cat") (lit "en") (lit "es") 2 []
    = (Ok None, d)
    /\ invocations d = 1%nat.
Proof.
  destruct (retry_budget Measures.textlessNet (lit "cat") (lit "en") (lit "es") 2 [])
    as (v & d & E & _).
  rewrite app_nil_r in E. exists d. revert E. vm_compute.
  intros E. inversion E. split; reflexivity.
Defined.

Lemma first_attempt_returns_witness :
  Route.translateTextWithRetry upperNet (lit "cat") (lit "en") (lit "es") 2 []
  = (Ok (str (lit "CAT")),
     [Fetched (Measures.requestOf (lit "cat") (lit "es") (lit "en"));
      Invoked (lit "cat") (lit "es") (lit "en")]).
Proof.
  refine (first_attempt_returns upperNet (lit "cat") (lit "en") (lit "es") 2 [] _
            (Azure.mkTranslation (str (lit "CAT")) None None) _ _ _).
  - reflexivity.
  - lia.
  - vm_compute. reflexivity.
Defined.

Lemma second_attempt_witness :
  Route.translateTextWithRetry Measures.throttledNet
                               (lit "cat") (lit "en") (lit "es") 2 []
  = (Ok (str (lit "CAT")),
     [Fetched (Measures.requestOf (lit "cat") (lit "es") (lit "en"));
      Invoked (lit "cat") (lit "es") (lit "en");
      Slept 1000;
      Slept 3000;
      Fetched (Measures.requestOf (lit "cat") (lit "es") (lit "en"));
      Invoked (lit "cat") (lit "es") (lit "en")]).
Proof.
  refine (second_attempt Measures.throttledNet (lit "cat") (lit "en") (lit "es")
            [] _ _ _ (Ok (Azure.mkTranslation (str (lit "CAT")) None None))
            _ _ _).
  - reflexivity.
  - vm_compute. reflexivity.
  - vm_compute. reflexivity.
Defined.

(* ===================================================================== *)
(** ** A run, cell by cell: what comes out and what it costs *)
(* ===================================================================== *)

Section CellwiseRun.

Variable net : Azure.Network.
Variable CSV_CONFIG : CsvConfig.
Variable config : CSVTranslationConfig.

(** A relation every cell the executor produces satisfies, and a bound
    on what each cell costs under an additive measure. *)
Variable P : Z -> JsString -> Value -> Prop.
Variable mu : World -> nat.
Variable cost : Z -> JsString -> nat.

Hypothesis mu_additive : Measures.Additive mu.

Hypothesis cell_related : forall colIndex cell w,
  spec (Route.translateCell net config colIndex cell) w
       (fun r d => (mu d <= cost colIndex cell)%nat /\ halts (P colIndex cell) r).

Hypothesis unmapped_related :
  columnMappings config = None ->
  forall colIndex cell, P colIndex cell (str cell).

Lemma mu_nil : mu [] = 0%nat.
Proof.
  pose proof (Measures.mu_app mu mu_additive [] []) as H. simpl in H. lia.
Qed.

Lemma mu_cons_sent ev d : mu (Sent ev :: d) = mu d.
Proof.
  change (Sent ev :: d) with ([Sent ev] ++ d).
  rewrite (Measures.mu_app mu mu_additive), (Measures.mu_sent mu mu_additive).
  reflexivity.
Qed.

Lemma mu_snoc_sent ev d : mu (d ++ [Sent ev]) = mu d.
Proof.
  rewrite (Measures.mu_app mu mu_additive), (Measures.mu_sent mu mu_additive).
  lia.
Qed.

Lemma spec_notice (b : bool) ev w :
  spec (if b then Route.sendEvent ev else ret tt) w
       (fun r d => r = Ok tt /\ mu d = 0%nat).
Proof.
  destruct b; [apply spec_emit | apply spec_ret]; split; try reflexivity.
  - apply (Measures.mu_sent mu mu_additive).
  - apply mu_nil.
Qed.

Lemma spec_wait (b : bool) ms w :
  spec (if b then sleep ms else ret tt) w
       (fun r d => r = Ok tt /\ mu d = 0%nat).
Proof.
  destruct b; [apply spec_emit | apply spec_ret]; split; try reflexivity.
  - apply (Measures.mu_slept mu mu_additive).
  - apply mu_nil.
Qed.

Lemma cellsRelated_refl cells :
  columnMappings config = None ->
  forall colIndex, Measures.cellsRelated P colIndex cells (plain cells).
Proof.
  intros Hnone. induction cells as [| x xs IH]; intros colIndex; simpl; auto.
Qed.

Lemma translateColumns_related cells : forall colIndex acc w,
  spec (Route.translateColumns net config cells colIndex acc) w
       (fun r d =>
          (mu d <= Measures.cellsCost cost colIndex cells)%nat /\
          match r with
          | Ok out => exists outs,
                out = acc ++ outs
                /\ Measures.cellsRelated P colIndex cells outs
          | Throw _ => columnMappings config = None
          | Diverge => False
          end).
Proof.
  induction cells as [| cell rest IH]; intros colIndex acc w; simpl.
  - apply spec_ret. rewrite mu_nil. split; [lia |].
    exists []. rewrite app_nil_r. auto.
  - eapply spec_bind;
      [apply spec_and; [apply cell_related | apply translateCell_spec] | | |].
    + intros v d [[Hmu Hv] _].
      eapply spec_weaken; [apply IH |].
      intros [out | e |] d' [Hmu' Hr];
        rewrite (Measures.mu_app mu mu_additive); (split; [lia |]); auto.
      destruct Hr as (outs & -> & Houts).
      exists (v :: outs). rewrite <- app_assoc. simpl. auto.
    + intros e d [[Hmu _] [_ Hnone]]. split; [lia | exact Hnone].
    + intros d [[_ []] _].
Qed.

Lemma processRow_related batchStartIndex rowIndex row st w :
  spec (Route.processRow net config batchStartIndex rowIndex row st) w
       (fun r d =>
          (mu d <= Measures.cellsCost cost 0 row)%nat /\
          returns (fun st' => exists out,
                       Route.results st' = Route.results st ++ [out]
                       /\ Measures.cellsRelated P 0 row out) r).
Proof.
  unfold Route.processRow.
  eapply spec_bind
    with (Q1 := fun r d =>
            (mu d <= Measures.cellsCost cost 0 row)%nat /\
            returns (fun st' => exists out,
                         Route.results st' = Route.results st ++ [out]
                         /\ Measures.cellsRelated P 0 row out) r).
  - eapply spec_tryCatch
      with (Q1 := fun r d =>
              (mu d <= Measures.cellsCost cost 0 row)%nat /\
              match r with
              | Ok st' => exists out,
                    Route.results st' = Route.results st ++ [out]
                    /\ Measures.cellsRelated P 0 row out
              | Throw _ => columnMappings config = None
              | Diverge => False
              end).
    + eapply spec_bind; [apply translateColumns_related | | |].
      * intros out d [Hmu (outs & -> & Houts)]. apply spec_ret. simpl.
        split; [exact Hmu |]. exists outs. auto.
      * intros e d H. exact H.
      * intros d [_ []].
    + intros a d H. exact H.
    + intros e d [Hmu Hnone]. apply spec_ret. simpl.
      split; [exact Hmu |].
      exists (plain row).
      split; [reflexivity | apply cellsRelated_refl; exact Hnone].
    + intros d [_ []].
  - intros st' d [Hmu Hst].
    eapply spec_bind; [apply spec_notice | | |].
    + intros [] d' [_ Hd']. apply spec_ret. simpl.
      rewrite (Measures.mu_app mu mu_additive). split; [lia | exact Hst].
    + intros e d' [Habs _]. discriminate.
    + intros d' [Habs _]. discriminate.
  - intros e d [_ []].
  - intros d [_ []].
Qed.

Lemma processRows_related batchStartIndex rows : forall rowIndex st w,
  spec (Route.processRows net config batchStartIndex rows rowIndex st) w
       (fun r d =>
          (mu d <= Measures.tableCost cost rows)%nat /\
          returns (fun st' => exists outs,
                       Route.results st' = Route.results st ++ outs
                       /\ Forall2 (Measures.cellsRelated P 0) rows outs) r).
Proof.
  induction rows as [| row rest IH]; intros rowIndex st w;
    cbn [Route.processRows].
  - apply spec_ret. rewrite mu_nil. split; [lia |].
    exists []. rewrite app_nil_r. split; [reflexivity | constructor].
  - eapply spec_bind; [apply processRow_related | | |].
    + intros st1 d [Hmu (out & E1 & Hout)].
      eapply spec_weaken; [apply IH |].
      intros [st2 | e |] d' [Hmu' Hr]; simpl in Hr; try tauto.
      rewrite (Measures.mu_app mu mu_additive).
      split; [unfold Measures.tableCost in *; simpl; lia |].
      destruct Hr as (outs & E2 & Houts).
      exists (out :: outs). rewrite E2, E1, <- app_assoc.
      split; [reflexivity | constructor; assumption].
    + intros e d [_ []].
    + intros d [_ []].
Qed.

Lemma processBatchWithRecovery_related batch batchStartIndex w :
  spec (Route.processBatchWithRecovery net batch batchStartIndex config) w
       (fun r d =>
          (mu d <= Measures.tableCost cost batch)%nat /\
          returns (Forall2 (Measures.cellsRelated P 0) batch) r).
Proof.
  unfold Route.processBatchWithRecovery.
  eapply spec_bind; [apply processRows_related | | |].
  - intros st d [Hmu (outs & E & Houts)]. simpl in E. subst.
    eapply spec_bind; [apply spec_notice | | |].
    + intros [] d' [_ Hd']. apply spec_ret. simpl.
      rewrite (Measures.mu_app mu mu_additive). split; [lia | exact Houts].
    + intros e d' [Habs _]. discriminate.
    + intros d' [Habs _]. discriminate.
  - intros e d [_ []].
  - intros d [_ []].
Qed.

Lemma batchBody_related csvRows totalRows batchSize totalBatches i st w done :
  Forall2 (Measures.cellsRelated P 0) (batchesAt csvRows batchSize done)
          (Route.translatedRows st) ->
  spec (Route.batchBody net config csvRows totalRows batchSize totalBatches i st) w
       (fun r d =>
          (mu d <= Measures.tableCost cost (slice csvRows i (i + batchSize)))%nat /\
          returns (fun st' =>
                     Forall2 (Measures.cellsRelated P 0)
                             (batchesAt csvRows batchSize (done ++ [i]))
                             (Route.translatedRows st')) r).
Proof.
  intros Hrows. unfold Route.batchBody.
  eapply spec_bind; [apply spec_wait | | |].
  - intros [] d [_ Hd]. unfold Route.sendEvent at 1. apply spec_bind_emit.
    eapply spec_tryCatch
      with (Q1 := fun r d =>
              (mu d <= Measures.tableCost cost (slice csvRows i (i + batchSize)))%nat /\
              returns (fun st' =>
                         Forall2 (Measures.cellsRelated P 0)
                                 (batchesAt csvRows batchSize (done ++ [i]))
                                 (Route.translatedRows st')) r).
    + unfold Route.runBatch, Route.sendEvent. apply spec_bind_emit.
      eapply spec_bind; [apply processBatchWithRecovery_related | | |].
      * intros outs d' [Hmu Houts]. simpl in Houts.
        apply spec_bind_emit. apply spec_ret. cbv beta.
        cbn [app]. rewrite mu_cons_sent, mu_snoc_sent.
        split; [exact Hmu |]. cbn [returns Route.translatedRows].
        unfold batchesAt in *. rewrite map_app, concat_app. simpl.
        rewrite app_nil_r. apply Forall2_app; assumption.
      * intros e d' [_ []].
      * intros d' [_ []].
    + intros st' d' [Hmu Hr].
      rewrite (Measures.mu_app mu mu_additive), mu_snoc_sent, Hd.
      split; [lia | exact Hr].
    + intros e d' [_ []].
    + intros d' [_ []].
  - intros e d [Habs _]. discriminate.
  - intros d [Habs _]. discriminate.
Qed.

Lemma forLoop_measured {S} (Inv : list Z -> S -> Prop) (price : Z -> nat)
      body limit step :
  (forall i s w done,
      Inv done s ->
      spec (body i s) w
           (fun r d => (mu d <= price i)%nat /\ returns (Inv (done ++ [i])) r)) ->
  forall fuel i idx,
    Route.loopIndices fuel limit step i = Some idx ->
    forall s w done,
      Inv done s ->
      spec (Route.forLoop fuel limit step body i s) w
           (fun r d =>
              (mu d <= list_sum (List.map price idx))%nat
              /\ returns (Inv (done ++ idx)) r).
Proof.
  intros Hbody. induction fuel as [| f IH]; intros i idx Hidx s w done Hinv;
    simpl in *; destruct (i <? limit).
  - discriminate.
  - inversion Hidx; subst. apply spec_ret. simpl. rewrite app_nil_r, mu_nil.
    auto.
  - destruct (Route.loopIndices f limit step (i + step)) as [rest |] eqn:Hrest;
      [| discriminate].
    inversion Hidx; subst. clear Hidx.
    eapply spec_bind; [apply Hbody; eassumption | | |].
    + intros s' d [Hd Hs'].
      eapply spec_weaken; [eapply IH; eassumption |].
      intros r d' [Hd' Hr]. rewrite (Measures.mu_app mu mu_additive).
      split; [simpl; lia |].
      rewrite <- app_assoc in Hr. exact Hr.
    + intros e d [_ []].
    + intros d [_ []].
  - inversion Hidx; subst. apply spec_ret. simpl. rewrite app_nil_r, mu_nil.
    auto.
Qed.

Lemma tableCost_app rows rows' :
  Measures.tableCost cost (rows ++ rows')
  = (Measures.tableCost cost rows + Measures.tableCost cost rows')%nat.
Proof.
  unfold Measures.tableCost. rewrite map_app, list_sum_app. reflexivity.
Qed.

Lemma cost_of_batches (csvRows : list Row) b idx :
  list_sum (List.map (fun i => (Measures.tableCost cost (slice csvRows i (i + b)))%nat)
                     idx)
  = (Measures.tableCost cost (batchesAt csvRows b idx))%nat.
Proof.
  unfold batchesAt. induction idx as [| i idx IH]; simpl.
  - reflexivity.
  - rewrite tableCost_app, IH. reflexivity.
Qed.

Lemma batchLoop_related fuel (csvRows : list Row) b totalBatches w :
  1 <= b ->
  (List.length csvRows <= fuel)%nat ->
  spec (Route.batchLoop net fuel config csvRows (len csvRows) b totalBatches) w
       (fun r d =>
          (mu d <= Measures.tableCost cost csvRows)%nat /\
          returns (fun st =>
                     Forall2 (Measures.cellsRelated P 0) csvRows
                             (Route.translatedRows st)) r).
Proof.
  intros Hb Hfuel. unfold Route.batchLoop.
  eapply spec_weaken.
  - eapply forLoop_measured
      with (Inv := fun done st =>
                     Forall2 (Measures.cellsRelated P 0)
                             (batchesAt csvRows b done)
                             (Route.translatedRows st))
           (price := fun i =>
                      (Measures.tableCost cost (slice csvRows i (i + b)))%nat)
           (done := []).
    + intros i s w0 done Hinv. apply batchBody_related. exact Hinv.
    + apply loopIndices_strides; [assumption | unfold len; lia].
    + unfold batchesAt. simpl. constructor.
  - intros [st | e |] d [Hd Hr]; simpl in Hr; try tauto.
    replace (len csvRows - 0) with (len csvRows) in * by lia.
    rewrite cost_of_batches in Hd. cbn [app] in Hr.
    rewrite batchesAt_all in * by assumption.
    split; assumption.
Qed.

Lemma translationRun_related fuel request f w :
  accepted CSV_CONFIG request f config ->
  1 <= Route.effectiveBatchSize CSV_CONFIG config ->
  (List.length (rowsOf f) <= fuel)%nat ->
  spec (Route.translationRun net CSV_CONFIG fuel request) w
       (fun r d =>
          r = Ok tt /\
          (mu d <= Measures.tableCost cost (rowsOf f))%nat /\
          exists pre total processed outs,
            d = Sent (Route.completeEvent total processed (plain (headersOf f) :: outs))
                  :: pre
            /\ Forall2 (Measures.cellsRelated P 0) (rowsOf f) outs).
Proof.
  intros (Hwf & Hsize & Hparse) Hb Hfuel. unfold wellFormed in Hwf. subst request.
  unfold Route.translationRun. cbn [Route.file Route.configData].
  do 4 apply spec_bind_ret.
  replace (MAX_FILE_SIZE CSV_CONFIG <? Route.size f) with false
    by (symmetry; apply Z.ltb_ge; assumption).
  apply spec_bind_ret.
  eapply spec_bind
    with (Q1 := fun r d => r = Ok tt /\ mu d = 0%nat).
  - destruct (50 * 1024 * 1024 <? Route.size f);
      [apply spec_emit; split;
       [reflexivity | apply (Measures.mu_sent mu mu_additive)] |].
    apply spec_notice.
  - intros [] d0 [_ Hd0].
    unfold Route.parsed. rewrite Hparse. apply spec_bind_ret.
    unfold rowsOf, headersOf in *.
    destruct (Route.readRecords (Route.records f)) as [headers csvRows].
    cbn [fst snd] in *.
    unfold Route.sendEvent at 1. apply spec_bind_emit.
    eapply spec_bind; [apply batchLoop_related; assumption | | |].
    + intros st d1 [Hd1 Hrows]. simpl in Hrows.
      eapply spec_bind; [apply spec_notice | | |].
      * intros [] d2 [_ Hd2].
        unfold Route.sendEvent at 1. apply spec_bind_emit.
        unfold Route.sendEvent. apply spec_emit.
        split; [reflexivity |]. split.
        -- rewrite !(Measures.mu_app mu mu_additive),
             !(Measures.mu_sent mu mu_additive). lia.
        -- eexists. exists (len csvRows), (Route.processedRows st),
                  (Route.translatedRows st).
           cbn [app]. split; [reflexivity | exact Hrows].
      * intros e d2 [Habs _]. discriminate.
      * intros d2 [Habs _]. discriminate.
    + intros e d1 [_ []].
    + intros d1 [_ []].
  - intros e d0 [Habs _]. discriminate.
  - intros d0 [Habs _]. discriminate.
Qed.

Lemma POST_related fuel request f :
  accepted CSV_CONFIG request f config ->
  1 <= Route.effectiveBatchSize CSV_CONFIG config ->
  (List.length (rowsOf f) <= fuel)%nat ->
  exists pre outs,
    Route.POST net CSV_CONFIG fuel request []
    = (Ok tt,
       Closed
         :: Sent (Route.completeEvent (len (rowsOf f)) (len (rowsOf f))
                                      (plain (headersOf f) :: outs))
         :: pre)
    /\ progressOnly pre
    /\ Forall2 (Measures.cellsRelated P 0) (rowsOf f) outs
    /\ (mu pre <= Measures.tableCost cost (rowsOf f))%nat.
Proof.
  intros Hacc Hb Hfuel.
  destruct (POST_completes net CSV_CONFIG fuel request f config Hacc Hb Hfuel)
    as (pre & outs & E & Hpre & _).
  destruct (translationRun_related fuel request f [] Hacc Hb Hfuel)
    as (r & d & Erun & -> & Hmu & pre' & total & processed & outs' & -> & Hrel).
  exists pre, outs. split; [exact E |]. split; [exact Hpre |].
  unfold Route.POST, Route.processTranslationRequest in E.
  unfold tryCatch at 1 in E. unfold bind at 1 in E. unfold tryCatch at 1 in E.
  rewrite Erun in E. unfold emit in E. rewrite app_nil_r in E.
  inversion E; subst. split; [exact Hrel |].
  rewrite mu_cons_sent in Hmu. exact Hmu.
Qed.

End CellwiseRun.

(* ===================================================================== *)
(** ** What a run costs, and what it returns from a known service *)
(* ===================================================================== *)

Section RunBudget.

Variable net : Azure.Network.
Variable CSV_CONFIG : CsvConfig.
Variable config : CSVTranslationConfig.

Lemma translateCell_budget colIndex cell w :
  spec (Route.translateCell net config colIndex cell) w
       (fun r d =>
          (invocations d <= Measures.perBillable 2 config colIndex cell)%nat
          /\ (fetches d <= Measures.perBillable 12 config colIndex cell)%nat
          /\ halts (fun _ => True) r).
Proof.
  unfold Route.translateCell, Route.findMapping, Measures.perBillable,
    Measures.billable, targetOf.
  destruct (columnMappings config) as [mappings |].
  - apply spec_bind_ret.
    destruct (Route.translationTarget
                (find (fun mapping => columnIndex mapping =? colIndex) mappings))
      as [toLang |].
    + destruct (Route.isBlank cell) eqn:Hb; cbn [negb].
      * eapply spec_tryCatch
          with (Q1 := fun r d => d = [] /\ r = Ok (str cell)).
        -- apply spec_ret. auto.
        -- intros a d [-> _]. unfold invocations, fetches. simpl. auto.
        -- intros e d [_ Habs]. discriminate.
        -- intros d [_ Habs]. discriminate.
      * eapply spec_tryCatch
          with (Q1 := fun r d =>
                  returns (fun _ => True) r
                  /\ (invocations d <= 2)%nat /\ (fetches d <= 12)%nat).
        -- unfold Route.translateTextWithRetry. rewrite Hb.
           exact (retryLoop_budget net (Z.to_nat 2) cell (sourceLanguage config)
                                   toLang 2 1 w ltac:(simpl; lia)).
        -- intros a d (_ & Hi & Hf). simpl. auto.
        -- intros e d ([] & _).
        -- intros d ([] & _).
    + apply spec_ret. unfold invocations, fetches. simpl. auto.
  - apply spec_bind_throw. unfold invocations, fetches. simpl. auto.
Qed.

Lemma cellsCost_bound k cells : forall colIndex,
  (Measures.cellsCost (Measures.perBillable k config) colIndex cells
   <= k * List.length cells)%nat.
Proof.
  induction cells as [| cell rest IH]; intros colIndex; simpl; [lia |].
  specialize (IH (colIndex + 1)). unfold Measures.perBillable at 1.
  destruct (Measures.billable config colIndex cell); lia.
Qed.

Lemma tableCost_bound k rows :
  (Measures.tableCost (Measures.perBillable k config) rows
   <= k * Measures.cellCount rows)%nat.
Proof.
  unfold Measures.tableCost, Measures.cellCount.
  induction rows as [| row rest IH]; simpl; [lia |].
  pose proof (cellsCost_bound k row 0). lia.
Qed.

Lemma cellsCost_unmapped k cells :
  (forall colIndex, targetOf config colIndex = None) ->
  forall colIndex,
    Measures.cellsCost (Measures.perBillable k config) colIndex cells = 0%nat.
Proof.
  intros Hnone. induction cells as [| cell rest IH]; intros colIndex; simpl;
    [reflexivity |].
  rewrite IH. unfold Measures.perBillable, Measures.billable.
  rewrite Hnone. reflexivity.
Qed.

Lemma tableCost_unmapped k rows :
  (forall colIndex, targetOf config colIndex = None) ->
  Measures.tableCost (Measures.perBillable k config) rows = 0%nat.
Proof.
  intros Hnone. unfold Measures.tableCost.
  induction rows as [| row rest IH]; simpl; [reflexivity |].
  rewrite IH, cellsCost_unmapped by exact Hnone. reflexivity.
Qed.

(** X23. What a run costs. The run of an accepted request calls the
    translator at most twice, and sends at most twelve requests, for
    each cell that is not blank and lies in a column to translate, and
    makes no call for any other cell: never more than two calls per
    cell of the table, and none at all when no column asks for a
    translation. *)
Theorem run_call_budget (fuel : nat) (request : Route.Request)
  (f : Route.CsvFile) :
  accepted CSV_CONFIG request f config ->
  1 <= Route.effectiveBatchSize CSV_CONFIG config ->
  (List.length (rowsOf f) <= fuel)%nat ->
  exists r w,
    Route.POST net CSV_CONFIG fuel request [] = (r, w)
    /\ (invocations w
        <= Measures.tableCost (Measures.perBillable 2 config) (rowsOf f))%nat
    /\ (fetches w
        <= Measures.tableCost (Measures.perBillable 12 config) (rowsOf f))%nat
    /\ (invocations w <= 2 * Measures.cellCount (rowsOf f))%nat
    /\ ((forall colIndex, targetOf config colIndex = None) ->
        invocations w = 0%nat /\ fetches w = 0%nat).
Proof.
  intros Hacc Hb Hfuel.
  destruct (POST_related net CSV_CONFIG config (fun _ _ _ => True)
              invocations (Measures.perBillable 2 config) invocations_additive)
    with (fuel := fuel) (request := request) (f := f)
    as (pre & outs & E & _ & _ & Hi); try assumption.
  { intros colIndex cell w.
    eapply spec_weaken; [apply translateCell_budget |].
    intros [v | e |] d (Hi & _ & Hr); simpl; auto. }
  { auto. }
  destruct (POST_related net CSV_CONFIG config (fun _ _ _ => True)
              fetches (Measures.perBillable 12 config) fetches_additive)
    with (fuel := fuel) (request := request) (f := f)
    as (pre' & outs' & E' & _ & _ & Hf); try assumption.
  { intros colIndex cell w.
    eapply spec_weaken; [apply translateCell_budget |].
    intros [v | e |] d (_ & Hf & Hr); simpl; auto. }
  { auto. }
  rewrite E in E'. inversion E'; subst pre' outs'. clear E'.
  eexists. eexists. split; [exact E |].
  change (invocations (Closed :: Sent ?t :: pre)) with (invocations pre).
  change (fetches (Closed :: Sent ?t :: pre)) with (fetches pre).
  split; [exact Hi |]. split; [exact Hf |]. split.
  - pose proof (tableCost_bound 2 (rowsOf f)). lia.
  - intros Hnone.
    rewrite tableCost_unmapped in Hi, Hf by exact Hnone. lia.
Qed.

End RunBudget.

Section KnownService.

Variable f : JsString -> JsString.
Variable CSV_CONFIG : CsvConfig.
Variable config : CSVTranslationConfig.

Lemma isBlank_trim text : Route.isBlank text = false -> truthy (trim text) = true.
Proof.
  unfold Route.isBlank. intros H. apply orb_false_elim in H.
  destruct H as [_ H]. destruct (trim text); [discriminate | reflexivity].
Qed.

Lemma stub_translates text toLang fromLang w :
  Measures.passesGuards Azure.defaultConfig text toLang fromLang ->
  Route.azureTranslator_translateText (Measures.stubNet f) text toLang fromLang w
  = (Ok (Azure.mkTranslation (str (f text)) None None),
     Fetched (Measures.requestOf text toLang fromLang)
       :: Invoked text toLang fromLang :: w).
Proof.
  intros Hg. unfold Route.azureTranslator_translateText.
  rewrite translateText_guarded by exact Hg.
  unfold tryCatch, bind, Azure.makeRequest.
  erewrite makeRequestFrom_ok; [| reflexivity | reflexivity].
  reflexivity.
Qed.

Lemma stub_refuses text toLang fromLang w :
  Azure.batchCharacterLimit Azure.defaultConfig < len text
  \/ Measures.encodableLanguages toLang fromLang = false ->
  exists e,
    Route.azureTranslator_translateText (Measures.stubNet f) text toLang fromLang w
    = (Throw e, Invoked text toLang fromLang :: w).
Proof.
  intros H.
  unfold Route.azureTranslator_translateText, Azure.translateText.
  unfold bind at 1. unfold emit.
  destruct (negb (truthy (trim text))); [eexists; reflexivity |].
  destruct (negb (truthy toLang)); [eexists; reflexivity |].
  destruct (Azure.batchCharacterLimit Azure.defaultConfig <? len text) eqn:Hlen;
    [eexists; reflexivity |].
  apply Z.ltb_ge in Hlen. destruct H as [H | H]; [lia |].
  unfold bind at 1. rewrite encodeLanguages_run, H. eexists; reflexivity.
Qed.

Lemma translationTarget_truthy m toLang :
  Route.translationTarget m = Some toLang -> truthy toLang = true.
Proof.
  unfold Route.translationTarget. destruct m as [m |]; [| discriminate].
  destruct (shouldTranslate m); [| discriminate].
  destruct (targetLanguage m) as [l |]; [| discriminate].
  destruct (truthy l) eqn:E; [| discriminate].
  intros H. inversion H; subst. exact E.
Qed.

Lemma translateCell_stub colIndex cell w :
  spec (Route.translateCell (Measures.stubNet f) config colIndex cell) w
       (fun r d =>
          halts (fun v => v = Measures.expectedCell f config colIndex cell) r).
Proof.
  unfold Route.translateCell, Route.findMapping, Measures.expectedCell, targetOf.
  destruct (columnMappings config) as [mappings |].
  - apply spec_bind_ret.
    destruct (Route.translationTarget
                (find (fun mapping => columnIndex mapping =? colIndex) mappings))
      as [toLang |] eqn:Ht.
    + pose proof (translationTarget_truthy _ _ Ht) as Hlang.
      destruct (Route.isBlank cell) eqn:Hb; cbn [orb].
      * exists (Ok (str cell)), []. split; reflexivity.
      * destruct ((Azure.batchCharacterLimit Azure.defaultConfig <? len cell)
                  || negb (Measures.encodableLanguages
                             toLang (sourceLanguage config))) eqn:Hrefused.
        -- assert (Hcase :
                     Azure.batchCharacterLimit Azure.defaultConfig < len cell
                     \/ Measures.encodableLanguages toLang (sourceLanguage config)
                        = false).
           { apply orb_prop in Hrefused. destruct Hrefused as [H | H].
             - left. apply Z.ltb_lt. exact H.
             - right. apply negb_true_iff. exact H. }
           destruct (stub_refuses cell toLang (sourceLanguage config) w Hcase)
             as (e1 & E1).
           destruct (stub_refuses
                       cell toLang (sourceLanguage config)
                       (Slept 1000
                          :: (if Route.isRateLimit e1 then [Slept 3000] else [])
                          ++ Invoked cell toLang (sourceLanguage config) :: w)
                       Hcase)
             as (e2 & E2).
           pose proof (retryLoop_second (Measures.stubNet f) cell
                         (sourceLanguage config) toLang w _ _ e1 (Throw e2)
                         E1 E2) as E.
           unfold spec, tryCatch, Route.translateTextWithRetry. rewrite Hb.
           change (Z.to_nat 2) with 2%nat. rewrite E.
           exists (Ok (str cell)),
                  (Invoked cell toLang (sourceLanguage config)
                     :: Slept 1000
                     :: (if Route.isRateLimit e1 then [Slept 3000] else [])
                     ++ [Invoked cell toLang (sourceLanguage config)]).
           split; [| reflexivity].
           f_equal. cbn [app]. f_equal. f_equal. rewrite <- app_assoc.
           reflexivity.
        -- apply orb_false_elim in Hrefused. destruct Hrefused as [Hlen Henc].
           apply Z.ltb_ge in Hlen. apply negb_false_iff in Henc.
           assert (Hg : Measures.passesGuards Azure.defaultConfig cell toLang
                                              (sourceLanguage config)).
           { split; [apply isBlank_trim; exact Hb |].
             split; [assumption |]. split; assumption. }
           pose proof (retryLoop_first (Measures.stubNet f) 1 cell
                         (sourceLanguage config) toLang 2 w _ _
                         ltac:(lia)
                         (stub_translates cell toLang (sourceLanguage config) w Hg))
             as E.
           unfold spec, tryCatch, Route.translateTextWithRetry. rewrite Hb.
           change (Z.to_nat 2) with 2%nat. rewrite E.
           exists (Ok (str (f cell))),
                  [Fetched (Measures.requestOf cell toLang (sourceLanguage config));
                   Invoked cell toLang (sourceLanguage config)].
           split; reflexivity.
    + apply spec_ret. reflexivity.
  - apply spec_bind_throw. exact I.
Qed.

Lemma expectedCells_unique cells : forall colIndex outs,
  Measures.cellsRelated
    (fun j cell v => v = Measures.expectedCell f config j cell)
    colIndex cells outs ->
  outs = Measures.expectedCells f config colIndex cells.
Proof.
  induction cells as [| cell rest IH]; intros colIndex [| o os] H; simpl in *;
    try tauto.
  destruct H as [-> H]. f_equal. apply IH. exact H.
Qed.

Lemma expectedRows_unique rows outs :
  Forall2 (Measures.cellsRelated
             (fun j cell v => v = Measures.expectedCell f config j cell) 0)
          rows outs ->
  outs = Measures.expectedRows f config rows.
Proof.
  induction 1 as [| row out rows outs Hrow _ IH]; simpl; [reflexivity |].
  rewrite (expectedCells_unique _ _ _ Hrow), IH. reflexivity.
Qed.

(** X24. The run against a known service. When the service answers
    every request with the text [f] makes of the text sent, the run of
    an accepted request ends with a [complete] frame whose table is
    the header line followed by the input rows in their order, with
    every cell that is not blank, lies in a column to translate, is
    within the character limit of the client and whose language codes
    can go into the endpoint replaced by [f] of it, and every other
    cell unchanged. *)
Theorem known_service_output (fuel : nat) (request : Route.Request)
  (file : Route.CsvFile) :
  accepted CSV_CONFIG request file config ->
  1 <= Route.effectiveBatchSize CSV_CONFIG config ->
  (List.length (rowsOf file) <= fuel)%nat ->
  exists pre,
    Route.POST (Measures.stubNet f) CSV_CONFIG fuel request []
    = (Ok tt,
       Closed
         :: Sent (Route.completeEvent
                    (len (rowsOf file)) (len (rowsOf file))
                    (plain (headersOf file)
                       :: Measures.expectedRows f config (rowsOf file)))
         :: pre)
    /\ progressOnly pre.
Proof.
  intros Hacc Hb Hfuel.
  destruct (POST_related (Measures.stubNet f) CSV_CONFIG config
              (fun j cell v => v = Measures.expectedCell f config j cell)
              (fun _ => 0%nat) (fun _ _ => 0%nat))
    with (fuel := fuel) (request := request) (f := file)
    as (pre & outs & E & Hpre & Hrel & _); try assumption.
  - split; reflexivity.
  - intros colIndex cell w.
    eapply spec_weaken; [apply translateCell_stub |].
    intros r d Hr. split; [lia | exact Hr].
  - intros Hnone colIndex cell. unfold Measures.expectedCell, targetOf.
    rewrite Hnone. reflexivity.
  - exists pre. rewrite <- (expectedRows_unique _ _ Hrel).
    split; [exact E | exact Hpre].
Qed.

End KnownService.

Lemma run_call_budget_witness :
  exists r w,
    Route.POST Measures.flakyNet CSV_CONFIG_third 3 (smallRequest (Some 2)) []
    = (r, w)
    /\ (invocations w <= 4)%nat.
Proof.
  destruct (run_call_budget Measures.flakyNet CSV_CONFIG_third
              (firstColumnConfig (Some 2)) 3 (smallRequest (Some 2)) smallFile)
    as (r & w & E & Hi & _).
  - split; [reflexivity | split; [simpl; lia | reflexivity]].
  - unfold Route.effectiveBatchSize, num_or. simpl. lia.
  - simpl. lia.
  - exists r, w. split; [exact E | exact Hi].
Defined.

Lemma known_service_output_witness :
  exists pre,
    Route.POST upperNet CSV_CONFIG_third 3 (smallRequest (Some 2)) []
    = (Ok tt,
       Closed
         :: Sent (Route.completeEvent 3 3
                    (List.map plain
                       [[lit "name"; lit "id"];
                        [lit "CAT"; lit "1"];
                        [lit "DOG"; lit "2"];
                        [lit "  "; lit "3"]]))
         :: pre).
Proof.
  destruct (known_service_output (List.map upperCase) CSV_CONFIG_third
              (firstColumnConfig (Some 2)) 3 (smallRequest (Some 2)) smallFile)
    as (pre & E & _).
  - split; [reflexivity | split; [simpl; lia | reflexivity]].
  - unfold Route.effectiveBatchSize, num_or. simpl. lia.
  - simpl. lia.
  - exists pre. exact E.
Defined.

(* ===================================================================== *)
(** ** Requests the route refuses *)
(* ===================================================================== *)

Section Refusals.

Variable net : Azure.Network.
Variable CSV_CONFIG : CsvConfig.

(** X25. The checks that precede the run, in their order: a body that
    is not a form, a form without file, a form without configuration,
    a configuration that is not JSON, and a file over the size limit
    each end the stream with one [error] frame that carries the message
    of the first check that fails, and nothing else: no [progress]
    frame, no call of the translator. The missing file is reported
    before the missing configuration, and the size of the file is only
    looked at once the configuration has parsed. *)
Theorem refusal_messages (fuel : nat) (w : World) (e : JsError)
  (f : Route.CsvFile) (c : option Route.ConfigData)
  (config : CSVTranslationConfig) :
  let refused request m :=
    Route.POST net CSV_CONFIG fuel request w
    = (Ok tt, Closed :: Sent (Route.errorEvent m) :: w) in
  refused (Route.NotMultipart e) (msg e)
  /\ refused (Route.Multipart (Route.mkForm None c)) (lit "No CSV file provided")
  /\ refused (Route.Multipart (Route.mkForm (Some f) None))
             (lit "No configuration provided")
  /\ refused (Route.Multipart (Route.mkForm (Some f) (Some (Route.NotJson e))))
             (msg e)
  /\ (MAX_FILE_SIZE CSV_CONFIG < Route.size f ->
      refused (Route.Multipart (Route.mkForm (Some f) (Some (Route.Parsed config))))
              (lit "File size exceeds maximum allowed size of "
                 ++ numToString (MAX_FILE_SIZE CSV_CONFIG / 1024 / 1024)
                 ++ lit "MB")).
Proof.
  cbv zeta. repeat split; try reflexivity.
  intros Hsize.
  unfold Route.POST, Route.processTranslationRequest, Route.translationRun.
  unfold tryCatch, bind, ret. cbn [Route.file Route.configData].
  replace (MAX_FILE_SIZE CSV_CONFIG <? Route.size f) with true
    by (symmetry; apply Z.ltb_lt; exact Hsize).
  reflexivity.
Qed.

End Refusals.

(* ===================================================================== *)
(** ** The batches of the concurrent edition *)
(* ===================================================================== *)

Section ClampedBatches.

Variable CSV_CONFIG : CsvConfig.

Lemma slice_length_le {A} (rows : list A) i b :
  0 <= i -> 1 <= b -> len (slice rows i (i + b)) <= b.
Proof.
  intros Hi Hb. rewrite slice_inside by assumption.
  unfold len. rewrite length_firstn. lia.
Qed.

(** X26. The batch loop of the concurrent edition, whose batch size
    is clamped between the minimum and the maximum: when these bounds
    are in order and the minimum is at least 1, the loop ends for every
    configuration, its batches put end to end are the rows, and no
    batch holds more than [MAX_BATCH_SIZE] rows. *)
Theorem clamped_batches (config : CSVTranslationConfig) (rows : list Row)
  (fuel : nat) :
  1 <= MIN_BATCH_SIZE CSV_CONFIG ->
  MIN_BATCH_SIZE CSV_CONFIG <= MAX_BATCH_SIZE CSV_CONFIG ->
  (List.length rows <= fuel)%nat ->
  exists batches,
    Route.partition fuel rows (Route.clampedBatchSize CSV_CONFIG config)
    = Some batches
    /\ List.concat (List.map snd batches) = rows
    /\ forall start batch,
         In (start, batch) batches -> len batch <= MAX_BATCH_SIZE CSV_CONFIG.
Proof.
  intros Hmin Hbounds Hfuel.
  set (b := Route.clampedBatchSize CSV_CONFIG config).
  assert (Hb : 1 <= b <= MAX_BATCH_SIZE CSV_CONFIG).
  { unfold b, Route.clampedBatchSize. lia. }
  eexists. split; [| split].
  - unfold Route.partition.
    rewrite loopIndices_strides by (unfold len; lia). reflexivity.
  - rewrite map_map. simpl.
    replace (len rows - 0) with (len rows) by lia.
    change (List.concat (List.map (fun i => slice rows i (i + b))
                                  (strides 0 b (Z.to_nat (ceilDiv (len rows) b)))))
      with (batchesAt rows b (strides 0 b (Z.to_nat (ceilDiv (len rows) b)))).
    apply batchesAt_all. lia.
  - intros start batch Hin. apply in_map_iff in Hin.
    destruct Hin as (i & Heq & Hi). inversion Heq; subst start batch. clear Heq.
    apply In_nth_error in Hi. destruct Hi as (k & Hk).
    apply strides_nth_inv in Hk. destruct Hk as [_ ->].
    pose proof (slice_length_le rows (0 + Z.of_nat k * b) b ltac:(nia) ltac:(lia)).
    lia.
Qed.

End ClampedBatches.

Lemma clamped_batches_witness :
  exists batches,
    Route.partition 3 (rowsOf smallFile)
                    (Route.clampedBatchSize CSV_CONFIG_third negativeBatchConfig)
    = Some batches
    /\ List.concat (List.map snd batches) = rowsOf smallFile.
Proof.
  destruct (clamped_batches CSV_CONFIG_third negativeBatchConfig
                            (rowsOf smallFile) 3)
    as (batches & E & Hcat & _).
  - simpl. lia.
  - simpl. lia.
  - simpl. lia.
  - exists batches. split; [exact E | exact Hcat].
Defined.

(* ===================================================================== *)
(** ** The page: the configuration it sends *)
(* ===================================================================== *)

Section PageFacts.

Lemma target_mappingsFrom headers sel tgt j : forall idx,
  Route.translationTarget
    (find (fun m => columnIndex m =? j) (Page.mappingsFrom idx headers sel tgt))
  = if (idx <=? j) && (j <? idx + len headers) && sel j && truthy tgt
    then Some tgt else None.
Proof.
  induction headers as [| col rest IH]; intros idx.
  - simpl. replace (j <? idx + len (@nil JsString)) with (j <? idx)
      by (unfold len; simpl; f_equal; lia).
    destruct (idx <=? j) eqn:E1; [| reflexivity].
    replace (j <? idx) with false
      by (symmetry; apply Z.ltb_ge; apply Z.leb_le; exact E1).
    reflexivity.
  - cbn [Page.mappingsFrom find columnIndex].
    assert (Hlen : len (col :: rest) = 1 + len rest)
      by (unfold len; cbn [List.length]; lia).
    destruct (idx =? j) eqn:E.
    + apply Z.eqb_eq in E. subst j.
      replace (idx <=? idx) with true by (symmetry; apply Z.leb_le; lia).
      replace (idx <? idx + len (col :: rest)) with true
        by (symmetry; apply Z.ltb_lt; unfold len; cbn [List.length]; lia).
      simpl. destruct (sel idx); [| reflexivity].
      destruct (truthy tgt); reflexivity.
    + apply Z.eqb_neq in E. rewrite IH, Hlen.
      replace (idx + 1 <=? j) with (idx <=? j)
        by (destruct (idx <=? j) eqn:E1;
            [apply Z.leb_le in E1; symmetry; apply Z.leb_le; lia
            | apply Z.leb_gt in E1; symmetry; apply Z.leb_gt; lia]).
      replace (idx + 1 + len rest) with (idx + (1 + len rest)) by lia.
      reflexivity.
Qed.

(** X27. The columns the route translates for a configuration built by
    the page are exactly the ticked columns of the header line, each
    into the target language of the form; a column that is not ticked,
    or lies beyond the header line, is passed through. *)
Theorem onSubmit_targets (headers : Row) (columnSelections : Z -> bool)
  (sourceLanguage targetLanguage : JsString) (size j : Z) :
  targetOf
    (Page.onSubmitConfig headers columnSelections sourceLanguage targetLanguage
                         size) j
  = if (0 <=? j) && (j <? len headers) && columnSelections j
       && truthy targetLanguage
    then Some targetLanguage else None.
Proof.
  unfold targetOf, Page.onSubmitConfig. cbn [columnMappings].
  rewrite target_mappingsFrom. reflexivity.
Qed.

End PageFacts.

Section PageRun.

Variable net : Azure.Network.
Variable CSV_CONFIG : CsvConfig.

(** X28. A form the page has validated yields a run that ends
    whenever the parser reads the file. The batch size the route uses
    is the one of the form, which is at least 1 and, when the minimum
    of the constants is 1, also the one the concurrent edition would
    clamp it to; so for a file within the size limit that the parser
    reads, the stream ends with a [complete] frame whose table has the
    shape of the input. For a file the parser refuses the run never
    ends: the stream carries frames of type [progress] at most and is
    never closed. *)
Theorem validated_form_completes (fuel : nat) (selectedFile : Route.CsvFile)
  (headers : Row) (columnSelections : Z -> bool)
  (sourceLanguage targetLanguage : JsString) (size : Z) :
  Page.translationFormSchema CSV_CONFIG sourceLanguage targetLanguage size ->
  Route.size selectedFile <= MAX_FILE_SIZE CSV_CONFIG ->
  (List.length (rowsOf selectedFile) <= fuel)%nat ->
  let config :=
    Page.onSubmitConfig headers columnSelections sourceLanguage targetLanguage
                        size in
  Route.effectiveBatchSize CSV_CONFIG config = size
  /\ (MIN_BATCH_SIZE CSV_CONFIG <= 1 ->
      Route.clampedBatchSize CSV_CONFIG config = size)
  /\ (Route.parseError selectedFile = None ->
      exists pre outs,
        Route.POST net CSV_CONFIG fuel
                   (Page.onSubmitRequest selectedFile headers columnSelections
                                         sourceLanguage targetLanguage size) []
        = (Ok tt,
           Closed
             :: Sent (Route.completeEvent
                        (len (rowsOf selectedFile)) (len (rowsOf selectedFile))
                        (plain (headersOf selectedFile) :: outs))
             :: pre)
        /\ progressOnly pre
        /\ sameShape (rowsOf selectedFile) outs)
  /\ (Route.parseError selectedFile <> None ->
      exists w,
        Route.POST net CSV_CONFIG fuel
                   (Page.onSubmitRequest selectedFile headers columnSelections
                                         sourceLanguage targetLanguage size) []
        = (Diverge, w)
        /\ progressOnly w).
Proof.
  intros (_ & _ & Hsize) Hfile Hfuel config.
  assert (Hb : Route.effectiveBatchSize CSV_CONFIG config = size).
  { unfold Route.effectiveBatchSize, config, Page.onSubmitConfig, num_or.
    cbn [batchSize].
    replace (size =? 0) with false by (symmetry; apply Z.eqb_neq; lia).
    reflexivity. }
  split; [exact Hb |]. split.
  - intros Hmin.
    change (Route.clampedBatchSize CSV_CONFIG config)
      with (Z.min (Z.max (Route.effectiveBatchSize CSV_CONFIG config)
                         (MIN_BATCH_SIZE CSV_CONFIG))
                  (MAX_BATCH_SIZE CSV_CONFIG)).
    rewrite Hb. lia.
  - split.
    + intros Hparse.
      destruct (POST_completes net CSV_CONFIG fuel
                  (Page.onSubmitRequest selectedFile headers columnSelections
                                        sourceLanguage targetLanguage size)
                  selectedFile config)
        as (pre & outs & E & Hpre & Hout).
      * split; [reflexivity | split; [exact Hfile | exact Hparse]].
      * rewrite Hb. lia.
      * exact Hfuel.
      * exists pre, outs. split; [exact E |]. split; [exact Hpre |].
        eapply rowsOutcome_length. exact Hout.
    + intros Hparse.
      apply (POST_unparsed net CSV_CONFIG fuel _ selectedFile config);
        [reflexivity | exact Hfile | exact Hparse].
Qed.

End PageRun.

Lemma validated_form_completes_witness :
  exists pre outs,
    Route.POST upperNet CSV_CONFIG_third 3
               (Page.onSubmitRequest smallFile (headersOf smallFile)
                                     Page.firstOnly (lit "en") (lit "es") 2) []
    = (Ok tt,
       Closed :: Sent (Route.completeEvent 3 3 (plain (headersOf smallFile) :: outs))
              :: pre)
    /\ sameShape (rowsOf smallFile) outs.
Proof.
  destruct (validated_form_completes upperNet CSV_CONFIG_third 3 smallFile
              (headersOf smallFile) Page.firstOnly (lit "en") (lit "es") 2)
    as (_ & _ & Hends & _).
  - split; [reflexivity | split; [reflexivity | simpl; lia]].
  - simpl. lia.
  - simpl. lia.
  - destruct (Hends eq_refl) as (pre & outs & E & _ & Hshape).
    exists pre, outs. split; [exact E | exact Hshape].
Defined.

(* ===================================================================== *)
(** ** The column picker *)
(* ===================================================================== *)

Section PickerFacts.

Lemma withShouldTranslate_twice m :
  Page.withShouldTranslate
    (Page.withShouldTranslate m (negb (shouldTranslate m)))
    (negb (shouldTranslate
             (Page.withShouldTranslate m (negb (shouldTranslate m)))))
  = m.
Proof. destruct m as [i n b t]. simpl. rewrite negb_involutive. reflexivity. Qed.

Lemma toggle_index idx m :
  columnIndex (if columnIndex m =? idx
               then Page.withShouldTranslate m (negb (shouldTranslate m))
               else m)
  = columnIndex m.
Proof. destruct (columnIndex m =? idx); reflexivity. Qed.

Lemma toggled_twice idx (ms : list ColumnMapping) :
  List.map (fun mapping =>
              if columnIndex mapping =? idx
              then Page.withShouldTranslate mapping
                                            (negb (shouldTranslate mapping))
              else mapping)
           (List.map (fun mapping =>
                        if columnIndex mapping =? idx
                        then Page.withShouldTranslate
                               mapping (negb (shouldTranslate mapping))
                        else mapping)
                     ms)
  = ms.
Proof.
  rewrite map_map. rewrite <- (map_id ms) at 2. apply map_ext. intros m.
  destruct (columnIndex m =? idx) eqn:E.
  - cbn [Page.withShouldTranslate columnIndex]. rewrite E.
    apply withShouldTranslate_twice.
  - rewrite E. reflexivity.
Qed.

Lemma find_toggled idx j (ms : list ColumnMapping) :
  Page.findByIndex
    (List.map (fun mapping =>
                 if columnIndex mapping =? idx
                 then Page.withShouldTranslate mapping
                                               (negb (shouldTranslate mapping))
                 else mapping)
              ms) j
  = option_map (fun mapping =>
                  if columnIndex mapping =? idx
                  then Page.withShouldTranslate mapping
                                                (negb (shouldTranslate mapping))
                  else mapping)
               (Page.findByIndex ms j).
Proof.
  unfold Page.findByIndex. induction ms as [| m ms IH]; simpl; [reflexivity |].
  rewrite toggle_index. destruct (columnIndex m =? j); [reflexivity | exact IH].
Qed.

Lemma find_none_all idx (ms : list ColumnMapping) :
  Page.findByIndex ms idx = None ->
  Forall (fun m => (columnIndex m =? idx) = false) ms.
Proof.
  unfold Page.findByIndex. induction ms as [| m ms IH]; simpl; intros H;
    [constructor |].
  destruct (columnIndex m =? idx) eqn:E; [discriminate |].
  constructor; [exact E | apply IH; exact H].
Qed.

Lemma toggle_absent idx (ms : list ColumnMapping) :
  Forall (fun m => (columnIndex m =? idx) = false) ms ->
  List.map (fun mapping =>
              if columnIndex mapping =? idx
              then Page.withShouldTranslate mapping
                                            (negb (shouldTranslate mapping))
              else mapping)
           ms
  = ms.
Proof.
  induction 1 as [| m ms Hm _ IH]; simpl; [reflexivity |].
  rewrite Hm, IH. reflexivity.
Qed.

Lemma find_snoc j (ms : list ColumnMapping) m :
  Page.findByIndex (ms ++ [m]) j
  = match Page.findByIndex ms j with
    | Some found => Some found
    | None => if columnIndex m =? j then Some m else None
    end.
Proof.
  unfold Page.findByIndex. induction ms as [| x ms IH]; simpl.
  - reflexivity.
  - destruct (columnIndex x =? j); [reflexivity | exact IH].
Qed.

(** X29. Toggling a column of the picker. The toggle changes what the
    route does with that column only, never with another; toggled
    twice, a column that had a mapping has the mapping list it started
    with, and every column is translated or passed through as before.
    A mapping the toggle creates carries no target language, so the
    route passes that column through until one is set. *)
Theorem toggle_column (columns : Row) (mappings once twice : list ColumnMapping)
  (idx : Z) :
  Page.handleColumnToggle false columns mappings idx = Some once ->
  Page.handleColumnToggle false columns once idx = Some twice ->
  (forall j, j <> idx ->
             Route.translationTarget (Page.findByIndex once j)
             = Route.translationTarget (Page.findByIndex mappings j))
  /\ (Page.findByIndex mappings idx <> None -> twice = mappings)
  /\ (Page.findByIndex mappings idx = None ->
      Route.translationTarget (Page.findByIndex once idx) = None)
  /\ (forall j, Route.translationTarget (Page.findByIndex twice j)
                = Route.translationTarget (Page.findByIndex mappings j)).
Proof.
  unfold Page.handleColumnToggle. cbv iota.
  destruct (Page.findByIndex mappings idx) as [found |] eqn:Hfound.
  - intros H1. inversion H1; subst once. clear H1.
    rewrite find_toggled, Hfound. cbn [option_map].
    intros H2. inversion H2; subst twice. clear H2.
    rewrite toggled_twice.
    split; [| split; [| split]]; auto; try discriminate.
    intros j Hj. rewrite find_toggled.
    destruct (Page.findByIndex mappings j) as [m |] eqn:Hm;
      [| reflexivity].
    cbn [option_map].
    unfold Page.findByIndex in Hm. apply find_some in Hm.
    destruct Hm as [_ Hm]. apply Z.eqb_eq in Hm.
    replace (columnIndex m =? idx) with false
      by (symmetry; apply Z.eqb_neq; lia).
    reflexivity.
  - destruct (Page.columnAt columns idx) as [name |]; [| discriminate].
    intros H1. inversion H1; subst once. clear H1.
    rewrite find_snoc, Hfound. cbn [columnIndex].
    rewrite Z.eqb_refl.
    intros H2. inversion H2; subst twice. clear H2.
    assert (Hsame :
              List.map (fun mapping =>
                          if columnIndex mapping =? idx
                          then Page.withShouldTranslate
                                 mapping (negb (shouldTranslate mapping))
                          else mapping)
                       mappings
              = mappings).
    { apply toggle_absent. apply find_none_all. exact Hfound. }
    rewrite map_app, Hsame. cbn [List.map columnIndex].
    rewrite Z.eqb_refl.
    split; [| split; [| split]].
    + intros j Hj. rewrite find_snoc. cbn [columnIndex].
      replace (idx =? j) with false by (symmetry; apply Z.eqb_neq; lia).
      destruct (Page.findByIndex mappings j); reflexivity.
    + intros Habs. contradiction.
    + intros _. reflexivity.
    + intros j. rewrite find_snoc.
      cbn [columnIndex Page.withShouldTranslate shouldTranslate negb].
      destruct (Page.findByIndex mappings j) as [m |] eqn:Hm;
        [reflexivity |].
      destruct (idx =? j); reflexivity.
Qed.

Lemma selectAllFrom_indexes columns ms b : forall idx,
  List.map columnIndex (Page.selectAllFrom idx columns ms b)
  = List.map (fun k => idx + Z.of_nat k) (seq 0 (List.length columns)).
Proof.
  induction columns as [| name rest IH]; intros idx; simpl; [reflexivity |].
  f_equal.
  - destruct (Page.findByIndex ms idx) as [m |] eqn:Hm; simpl; [| lia].
    unfold Page.findByIndex in Hm. apply find_some in Hm.
    destruct Hm as [_ Hm]. apply Z.eqb_eq in Hm. lia.
  - rewrite IH, <- seq_shift, map_map. apply map_ext. intros k. lia.
Qed.

Lemma selectAllFrom_flags columns ms b : forall idx,
  Forall (fun m => shouldTranslate m = negb b)
         (Page.selectAllFrom idx columns ms b).
Proof.
  induction columns as [| name rest IH]; intros idx; simpl; constructor.
  - destruct (Page.findByIndex ms idx); reflexivity.
  - apply IH.
Qed.

Lemma selectAllFrom_languages columns ms b : forall idx,
  Forall (fun m =>
            targetLanguage m
            = match Page.findByIndex ms (columnIndex m) with
              | Some existing => targetLanguage existing
              | None => None
              end)
         (Page.selectAllFrom idx columns ms b).
Proof.
  induction columns as [| name rest IH]; intros idx; simpl; constructor.
  - destruct (Page.findByIndex ms idx) as [m |] eqn:Hm; simpl.
    + assert (Hidx : columnIndex m = idx).
      { unfold Page.findByIndex in Hm. apply find_some in Hm.
        destruct Hm as [_ Hm]. apply Z.eqb_eq in Hm. exact Hm. }
      rewrite Hidx, Hm. reflexivity.
    + rewrite Hm. reflexivity.
  - apply IH.
Qed.

(** X30. Select all and clear. Whatever the mapping list was, select
    all leaves exactly one mapping per column, in the order of the
    columns; all of them are ticked, or all unticked when the master
    box was on; each keeps the target language of the first mapping the
    column had, and mappings of columns that do not exist are dropped.
    Clearing the selection unticks every mapping, after which the route
    passes every column through. A disabled picker changes nothing. *)
Theorem select_all_and_clear (columns : Row) (mappings : list ColumnMapping)
  (selectAll : bool) (sourceLanguage : JsString) (size : option Z) :
  let all := Page.handleSelectAll false columns mappings selectAll in
  List.map columnIndex all
  = List.map Z.of_nat (seq 0 (List.length columns))
  /\ Forall (fun m => shouldTranslate m = negb selectAll) all
  /\ Forall (fun m =>
               targetLanguage m
               = match Page.findByIndex mappings (columnIndex m) with
                 | Some existing => targetLanguage existing
                 | None => None
                 end) all
  /\ (forall j,
        targetOf (mkCsvConfig
                    (Some (Page.handleClearSelection false mappings))
                    sourceLanguage size) j
        = None)
  /\ Page.handleSelectAll true columns mappings selectAll = mappings
  /\ Page.handleClearSelection true mappings = mappings.
Proof.
  cbv zeta. unfold Page.handleSelectAll, Page.handleClearSelection.
  split; [| split; [| split; [| split; [| split]]]]; try reflexivity.
  - rewrite selectAllFrom_indexes. apply map_ext. intros k. lia.
  - apply selectAllFrom_flags.
  - apply selectAllFrom_languages.
  - intros j. unfold targetOf. cbn [columnMappings].
    induction mappings as [| m ms IH]; simpl; [reflexivity |].
    destruct (columnIndex m =? j); [reflexivity | exact IH].
Qed.

End PickerFacts.

Lemma toggle_column_witness :
  Route.translationTarget
    (Page.findByIndex
       [mkMapping 0 (lit "name") true (Some (lit "es"));
        mkMapping 1 (lit "id") true (Some (lit "es"))] 1)
  = Some (lit "es").
Proof.
  refine (eq_trans
            (proj1 (toggle_column
                      [lit "name"; lit "id"]
                      [mkMapping 0 (lit "name") false (Some (lit "es"));
                       mkMapping 1 (lit "id") true (Some (lit "es"))]
                      [mkMapping 0 (lit "name") true (Some (lit "es"));
                       mkMapping 1 (lit "id") true (Some (lit "es"))]
                      [mkMapping 0 (lit "name") false (Some (lit "es"));
                       mkMapping 1 (lit "id") true (Some (lit "es"))]
                      0 eq_refl eq_refl) 1 _)
            eq_refl).
  discriminate.
Defined.
